(** * datumaro: the fractal image generator and the converter's patch step

    A shallow embedding of
    [datumaro/plugins/synthetic_data/image_generator.py]
    ([FractalImageGenerator]) and of [Converter.patch] from
    [datumaro/components/converter.py], with the converter's
    constructor and file-name helpers, and with the properties of the
    work partitioning, the category planner, the attractor sampler, the
    model download, the file names and the directory replacement proved
    about the embedding.

    Conventions.
    - Python [int]s are [Z]; list positions and lengths are [nat].
    - The planner ([_initialize_params]) computes in IEEE 754 binary64,
      as Python's [float] and [numpy.float64] do: its divisions, its
      square root and its conversions are those of the Standard
      Library's [SpecFloat] with 53 bits of precision, rounding to the
      nearest value, ties to even.
    - The other floats (the weight vectors, the coefficients and the
      probabilities of the sampler, the pixel fraction) are modelled by
      exact rationals [Q]: there the embedding describes the arithmetic
      the code asks for, not its rounding.
    - A numpy array indexed along axis 0 is the list of its rows.
    - A Python exception is a value of [exn]; fallible code returns
      [result]. *)

From Stdlib Require Import ZArith QArith Qabs Lia.
From Stdlib Require Import Ascii Decimal DecimalString DecimalNat.
From Stdlib Require Import Floats.SpecFloat.
From stdpp Require Import gmap strings list.

Local Open Scope Z_scope.

(** ** Exceptions and fallible computations *)

Inductive exn : Type :=
  | AssertionError (msg : string)
  | ValueError (msg : string)
  | TypeError
  | UnboundLocalError (name : string)
  | ZeroDivisionError
  | OverflowError
  | FileNotFoundError
  | ConversionError (msg : string).

Inductive result (A : Type) : Type :=
  | Ok (a : A)
  | Raise (e : exn).
Arguments Ok {A} a.
Arguments Raise {A} e.

Definition bind {A B} (k : A -> result B) (m : result A) : result B :=
  match m with
  | Ok a => k a
  | Raise e => Raise e
  end.

#[export] Instance result_bind : MBind result := @bind.
#[export] Instance result_ret : MRet result := @Ok.

Notation "'assert!' c 'or' e ;; k" := (if c then k else Raise e)
  (at level 100, c at next level, e at next level, right associativity,
   only parsing).

Definition is_ok {A} (m : result A) : bool :=
  match m with Ok _ => true | Raise _ => false end.

(** ** The numpy operations the generator uses *)

Module np.

(** [np.repeat(a, k, axis=0)]: every row [k] times, contiguously. *)
Definition repeat {A} (a : list A) (k : nat) : list A :=
  flat_map (replicate k) a.

(** [np.tile(a, (c, 1))]: the whole array [c] times. *)
Definition tile {A} (a : list A) (c : nat) : list A :=
  concat (replicate c a).

(** [a[:n]]: a negative [n] counts from the end. *)
Definition prefix {A} (n : Z) (a : list A) : list A :=
  if 0 <=? n then take (Z.to_nat n) a
  else take (length a - Z.to_nat (- n)) a.

(** [a[st:end]] for non-negative bounds. *)
Definition slice {A} (st en : nat) (a : list A) : list A :=
  take (en - st) (drop st a).

Fixpoint cumsum_from (acc : nat) (l : list nat) : list nat :=
  match l with
  | [] => []
  | x :: l' => (acc + x)%nat :: cumsum_from (acc + x) l'
  end.

(** [np.array(l).cumsum()] *)
Definition cumsum (l : list nat) : list nat := cumsum_from 0 l.

(** The [section_sizes] list of [array_split]:
    [[0] + extras * [Neach_section+1] + (Nsections-extras) * [Neach_section]]. *)
Definition section_sizes (Ntotal Nsections : nat) : list nat :=
  let Neach_section := (Ntotal / Nsections)%nat in
  let extras := (Ntotal mod Nsections)%nat in
  [0%nat] ++ replicate extras (S Neach_section)
         ++ replicate (Nsections - extras) Neach_section.

(** [np.array_split(ary, Nsections)] along axis 0. *)
Definition array_split {A} (ary : list A) (indices_or_sections : Z)
  : result (list (list A)) :=
  let Ntotal := length ary in
  assert! (0 <? indices_or_sections)
    or ValueError "number sections must be larger than 0." ;;
  let Nsections := Z.to_nat indices_or_sections in
  let div_points := cumsum (section_sizes Ntotal Nsections) in
  Ok (map (fun i => slice (nth i div_points 0%nat)
                          (nth (S i) div_points 0%nat) ary)
          (seq 0 Nsections)).

(** [np.count_nonzero] of a two-dimensional array. *)
Definition count_nonzero (img : list (list Z)) : Z :=
  Z.of_nat (length (filter (fun v => v ≠ 0) (concat img))).

End np.

(** ** Floats

    Python's [float] and [numpy.float64] are IEEE 754 binary64 numbers:
    [spec_float] with a precision of 53 bits and the exponent 1024 for
    the infinities.  Every operation rounds its exact result to the
    nearest float, ties to even. *)
Module float64.

Definition prec : Z := 53.
Definition emax : Z := 1024.

(** An integer as the pair of a mantissa and the exponent 0, before any
    rounding. *)
Definition exact (z : Z) : spec_float :=
  match z with
  | 0 => S754_zero false
  | Z.pos p => S754_finite false p 0
  | Z.neg p => S754_finite true p 0
  end.

(** The conversion of an [int64] to [float64]. *)
Definition of_int (z : Z) : spec_float :=
  binary_normalize prec emax z 0 false.

(** [x / y] and [np.sqrt(x)] on [float64]; a zero divisor gives an
    infinity or a NaN (numpy warns and does not raise). *)
Definition div : spec_float -> spec_float -> spec_float := SFdiv prec emax.
Definition sqrt : spec_float -> spec_float := SFsqrt prec emax.

(** [a / b] for two Python [int]s: the exact quotient is rounded once,
    whatever the size of [a] and [b]; a zero divisor raises, and so does
    a quotient beyond the largest float. *)
Definition truediv (a b : Z) : result spec_float :=
  if b =? 0 then Raise ZeroDivisionError
  else match div (exact a) (exact b) with
       | S754_infinity _ => Raise OverflowError
       | q => Ok q
       end.

(** The least integer not below a finite float. *)
Definition ceil_int (x : spec_float) : Z :=
  match x with
  | S754_finite s m e =>
      if e <? 0 then - (cond_Zopp (negb s) (Z.pos m) / 2 ^ (- e))
      else cond_Zopp s (Z.pos m) * 2 ^ e
  | _ => 0
  end.

(** [np.ceil(x)]: that integer as a float, with the sign of [x] when it
    is zero; zeros, infinities and NaN are returned as they are. *)
Definition ceil (x : spec_float) : spec_float :=
  match x with
  | S754_finite s _ _ => binary_normalize prec emax (ceil_int x) 0 s
  | _ => x
  end.

(** [x.astype(int)]: the conversion to [int64], which truncates.  A
    value outside of [int64], an infinity and a NaN give the least
    [int64], as the conversion instruction of x86-64 does. *)
Definition astype_int (x : spec_float) : Z :=
  match x with
  | S754_zero _ => 0
  | S754_finite s m e =>
      let v := cond_Zopp s (if e <? 0 then Z.pos m / 2 ^ (- e)
                            else Z.pos m * 2 ^ e) in
      if (- 2 ^ 63 <=? v) && (v <? 2 ^ 63) then v else - 2 ^ 63
  | _ => - 2 ^ 63
  end.

End float64.

(** ** The generator object *)

(** [IFSFunction.NUM_PARAMS] is declared in [.utils]; line 164 of the
    generator unpacks [NUM_PARAMS] draws into the six names
    [a, b, c, d, e, f], which fixes its value. *)
Definition NUM_PARAMS : nat := 6.

Record FractalImageGenerator : Type := {
  _count : Z;
  _output_dir : string;
  _model_dir : string;
  _cpu_count : Z;
  _height : Z;
  _width : Z;
  _weights : list (list Q);
  _threshold : Q;
  _iterations : Z;
  _num_of_points : Z;
  _instances : Z;
  _categories : Z
}.

(** *** [_create_weights] *)

(** [modified_weights[weight_index] += multiplier * WEIGHT_INTERVAL] on a
    copy of the base vector. *)
Definition modified_weights (BASE_WEIGHTS : list Q) (weight_index : nat)
    (multiplier : Z) : list Q :=
  let WEIGHT_INTERVAL := (4 # 10)%Q in
  alter (fun v => (v + inject_Z multiplier * WEIGHT_INTERVAL)%Q)
        weight_index BASE_WEIGHTS.

Definition INTERVAL_MULTIPLIERS : list Z := [-2; -1; 1; 2].

Definition _create_weights (num_params : nat) : list (list Q) :=
  let BASE_WEIGHTS := replicate num_params 1%Q in
  BASE_WEIGHTS ::
    flat_map (fun weight_index =>
                map (modified_weights BASE_WEIGHTS weight_index)
                    INTERVAL_MULTIPLIERS)
             (seq 0 num_params).

(** *** [_initialize_params]: the category planner *)

(** The weights after [if self._count < self._weights.shape[0]:
    self._weights = self._weights[: self._count, :]]. *)
Definition planned_weights (count : Z) (weights : list (list Q))
    : list (list Q) :=
  if count <? Z.of_nat (length weights)
  then np.prefix count weights
  else weights.

(** [self._count / self._weights.shape[0]] divides two Python [int]s;
    [instances_categories] is a [numpy.float64], [self._instances] and
    [self._categories] are [numpy.int64], and
    [instances_categories / self._instances] converts the divisor to
    [float64]. *)
Definition _initialize_params (self : FractalImageGenerator)
    : result FractalImageGenerator :=
  let weights := planned_weights (_count self) (_weights self) in
  quotient ← float64.truediv (_count self) (Z.of_nat (length weights));
  let instances_categories := float64.ceil quotient in
  let instances :=
    float64.astype_int
      (float64.ceil (float64.sqrt instances_categories)) in
  let categories :=
    float64.astype_int
      (float64.ceil (float64.div instances_categories
                                 (float64.of_int instances))) in
  Ok {| _count := _count self;
        _output_dir := _output_dir self;
        _model_dir := _model_dir self;
        _cpu_count := _cpu_count self;
        _height := _height self;
        _width := _width self;
        _weights := weights;
        _threshold := _threshold self;
        _iterations := _iterations self;
        _num_of_points := _num_of_points self;
        _instances := instances;
        _categories := categories |}.

(** ** The collaborators of the generator *)

(** [random.Random].  The generator object is mutable in Python; here
    every draw returns the advanced state.  [randint_range] is the
    library's contract for [randint(a, b)]. *)
Class RandomGen : Type := {
  rng : Type;
  Random : Z -> rng;
  randint : Z -> Z -> rng -> Z * rng;
  uniform : Q -> Q -> rng -> Q * rng;
  randint_range : forall a b r, a <= b -> a <= (randint a b r).1 <= b
}.

(** What [.utils], [cv2] and the package data provide: the iterated
    function system ([IFSFunction], which keeps a reference to the
    generator it was built with and advances it), the colorization
    network and the augmentation step.  They are taken as functions
    that return: what [.utils] raises (for a height or a width that is
    not positive, say) is outside of the embedding. *)
Class Utils `{RandomGen} : Type := {
  ifs : Type;
  IFSFunction : rng -> Q -> Q -> ifs;
  add_param : list Q -> Q -> option (list Q) -> ifs -> ifs;
  calculate : Z -> ifs -> ifs;
  draw : Z -> Z -> bool -> ifs -> list (list Z) * ifs;
  ifs_rng : ifs -> rng;
  net : Type;
  readNetFromCaffe : string -> net;
  color_image : Type;
  background_colors : list (list Q);
  colorize : list (list Z) -> net -> color_image;
  augment : rng -> color_image -> list (list Q) -> color_image
}.

(** One output image as [_generate_image_batch] computes it: the global
    index (which names the file, [{:06d}.png]), the raster of
    [_generate_image] and the augmented image handed to [save_image]. *)
Record rendered `{Utils} : Type := {
  r_index : nat;
  r_image : list (list Z);
  r_saved : color_image
}.

Section Generator.
Context `{U : Utils}.

(** *** [_generate_image] *)

Definition _generate_image (r : rng) (params : list (list Q))
    (iterations height width : Z) (draw_point : bool)
    (weight : option (list Q)) : list (list Z) * rng :=
  let ifs_function := IFSFunction r 0 0 in
  let ifs_function :=
    foldl (fun f param =>
             add_param (take NUM_PARAMS param) (nth NUM_PARAMS param 0%Q)
                       weight f)
          ifs_function params in
  let ifs_function := calculate iterations ifs_function in
  let '(img, ifs_function) := draw height width draw_point ifs_function in
  (img, ifs_rng ifs_function).

(** *** [_generate_category]: the attractor sampler *)

(** [[rng.uniform(-1.0, 1.0) for _ in range(n)]] *)
Fixpoint draw_uniforms (n : nat) (r : rng) : list Q * rng :=
  match n with
  | O => ([], r)
  | S n' =>
      let '(u, r) := uniform (-1) 1 r in
      let '(us, r) := draw_uniforms n' r in
      (u :: us, r)
  end.

(** The loop [for p_idx in range(param_size)]: the rows
    [a, b, c, d, e, f, prob] in order, the running [sum_proba] and the
    generator afterwards. *)
Fixpoint fill_params (param_size : nat) (r : rng) (sum_proba : Q)
    : result (list (list Q) * Q * rng) :=
  match param_size with
  | O => Ok ([], sum_proba, r)
  | S n =>
      let '(us, r) := draw_uniforms NUM_PARAMS r in
      match us with
      | [a; b; c; d; e; f] =>
          let prob := Qabs (a * d - b * c) in
          let sum_proba := (sum_proba + prob)%Q in
          '(rows, sum_proba, r) ← fill_params n r sum_proba;
          Ok ([a; b; c; d; e; f; prob] :: rows, sum_proba, r)
      | _ => Raise (ValueError "not enough values to unpack")
      end
  end.

(** [params[:, IFSFunction.NUM_PARAMS] /= sum_proba] *)
Definition normalize (sum_proba : Q) (rows : list (list Q))
    : list (list Q) :=
  map (alter (fun prob => (prob / sum_proba)%Q) NUM_PARAMS) rows.

(** The selection weights of a parameter array: its last column. *)
Definition selection_weights (params : list (list Q)) : list Q :=
  map (fun param => nth NUM_PARAMS param 0%Q) params.

(** One pass through the body of the [while] loop: the candidate, its
    nonzero-pixel fraction and the generator afterwards. *)
Definition sample_candidate (self : FractalImageGenerator) (r : rng)
    (base_h base_w : Z) : result (list (list Q) * Q * rng) :=
  let '(param_size, r) := randint 2 7 r in
  assert! (0 <=? param_size)
    or ValueError "negative dimensions are not allowed" ;;
  '(rows, sum_proba, r) ←
    fill_params (Z.to_nat param_size) r (1 # 100000)%Q;
  let params := normalize sum_proba rows in
  let '(fractal_img, r) :=
    _generate_image r params (_num_of_points self) base_h base_w true None in
  assert! negb (base_h * base_w =? 0) or ZeroDivisionError ;;
  let pixels :=
    (inject_Z (np.count_nonzero fractal_img) / inject_Z (base_h * base_w))%Q in
  Ok (params, pixels, r).

Definition Qltb (x y : Q) : bool := negb (Qle_bool y x).

(** The local variables of [_generate_category]; [l_params] is [None]
    while [params] is unbound. *)
Record locals : Type := {
  l_pixels : Q;
  l_i : Z;
  l_params : option (list (list Q));
  l_rng : rng
}.

(** [pixels < self._threshold and i < self._iterations] *)
Definition loop_guard (self : FractalImageGenerator) (st : locals) : bool :=
  Qltb (l_pixels st) (_threshold self) && (l_i st <? _iterations self).

(** The [while] loop, unrolled at most [fuel] times. *)
Fixpoint sample_loop (fuel : nat) (self : FractalImageGenerator)
    (base_h base_w : Z) (st : locals) : result locals :=
  match fuel with
  | O => Ok st
  | S fuel' =>
      if loop_guard self st then
        '(params, pixels, r) ←
          sample_candidate self (l_rng st) base_h base_w;
        sample_loop fuel' self base_h base_w
          {| l_pixels := pixels; l_i := l_i st + 1;
             l_params := Some params; l_rng := r |}
      else Ok st
  end.

Definition initial_locals (r : rng) : locals :=
  {| l_pixels := (-1)%Q; l_i := 0; l_params := None; l_rng := r |}.

(** The counter [i] bounds the loop by [self._iterations] passes, which
    is the fuel given to it. *)
Definition _generate_category (self : FractalImageGenerator) (r : rng)
    (base_h base_w : Z) : result (list (list Q)) :=
  st ← sample_loop (Z.to_nat (_iterations self)) self base_h base_w
           (initial_locals r);
  match l_params st with
  | Some params => Ok params
  | None => Raise (UnboundLocalError "params")
  end.

(** One pass through the body of the loop, on the local variables. *)
Definition pass (self : FractalImageGenerator) (base_h base_w : Z)
    (st : locals) : result locals :=
  '(params, pixels, r) ← sample_candidate self (l_rng st) base_h base_w;
  Ok {| l_pixels := pixels; l_i := l_i st + 1;
        l_params := Some params; l_rng := r |}.

(** The local variables after [m] passes, whatever the guard says: the
    state in which the [m]-th candidate has been drawn and rendered. *)
Fixpoint passes (self : FractalImageGenerator) (base_h base_w : Z)
    (m : nat) (st : locals) : result locals :=
  match m with
  | O => Ok st
  | S m => st ← pass self base_h base_w st; passes self base_h base_w m st
  end.

End Generator.

(** ** [generate_dataset]: work partitioning and batch synthesis *)

Fixpoint zip3 {A B C} (la : list A) (lb : list B) (lc : list C)
    : list (A * B * C) :=
  match la, lb, lc with
  | a :: la, b :: lb, c :: lc => (a, b, c) :: zip3 la lb lc
  | _, _, _ => []
  end.

(** The loop of lines 91-96: every batch receives the indices
    [range(offset, offset + len(param))], and [offset] advances by the
    batch's length. *)
Fixpoint index_batches {P W} (offset : nat) (per_proc : list (list P * list W))
    : list (list P * list W * list nat) :=
  match per_proc with
  | [] => []
  | (param, w) :: rest =>
      (param, w, seq offset (length param))
        :: index_batches (offset + length param) rest
  end.

(** The jobs of one batch, as the loop of [_generate_image_batch] visits
    them: [zip(indices, params, weights)]. *)
Definition batch_jobs {P W} (b : list P * list W * list nat)
    : list (nat * P * W) :=
  let '(params, weights, indices) := b in zip3 indices params weights.

(** [repeated_params] and [weight_per_img] after their truncation to
    [self._count] entries (lines 79-84). *)
Definition repeated_params {P} (self : FractalImageGenerator)
    (params : list P) : list P :=
  np.prefix (_count self)
    (np.repeat params
       (length (_weights self) * Z.to_nat (_instances self))).

Definition weight_per_img (self : FractalImageGenerator) : list (list Q) :=
  let instances_weights :=
    np.repeat (_weights self) (Z.to_nat (_instances self)) in
  np.prefix (_count self)
    (np.tile instances_weights (Z.to_nat (_categories self))).

(** Lines 79-96: the list [generation_params] of batches. *)
Definition generation_params {P} (self : FractalImageGenerator)
    (params : list P)
    : result (list (list P * list (list Q) * list nat)) :=
  let repeated_params := repeated_params self params in
  let weight_per_img := weight_per_img self in
  assert! bool_decide (Z.of_nat (length weight_per_img) = _count self
                       ∧ Z.of_nat (length repeated_params) = _count self)
    or AssertionError "" ;;
  let splits := Z.min (_cpu_count self) (_count self) in
  params_per_proc ← np.array_split repeated_params splits;
  weights_per_proc ← np.array_split weight_per_img splits;
  Ok (index_batches 0 (zip params_per_proc weights_per_proc)).

(** Every job of the run, in batch order. *)
Definition all_jobs {P} (self : FractalImageGenerator) (params : list P)
    : result (list (nat * P * list Q)) :=
  batches ← generation_params self params;
  Ok (concat (map batch_jobs batches)).

Section Dataset.
Context `{U : Utils}.

(** [_generate_image_batch]: the network is read once for the batch,
    then every job is rendered from a generator seeded with its global
    index, colorized and augmented. *)
Definition _generate_image_batch (self : FractalImageGenerator)
    (params : list (list (list Q))) (weights : list (list Q))
    (indices : list nat) : list rendered :=
  let net := readNetFromCaffe (_model_dir self) in
  map (fun '(i, param, w) =>
         let image :=
           (_generate_image (Random (Z.of_nat i)) param (_iterations self)
              (_height self) (_width self) false (Some w)).1 in
         let color_image := colorize image net in
         let aug_image :=
           augment (Random (Z.of_nat i)) color_image background_colors in
         {| r_index := i; r_image := image; r_saved := aug_image |})
      (zip3 indices params weights).

(** The first phase: [_generate_category(Random(i))] for every
    [i in range(self._categories)], in order. *)
Definition generate_categories (self : FractalImageGenerator)
    : result (list (list (list Q))) :=
  mapM (fun i => _generate_category self (Random (Z.of_nat i)) 512 512)
       (seq 0 (Z.to_nat (_categories self))).

(** The second phase on sampled categories: the images of all batches,
    in batch order.  Under [multiprocessing] the batches run in separate
    processes; each writes the files of its own indices. *)
Definition generate_batches (self : FractalImageGenerator)
    (params : list (list (list Q))) : result (list rendered) :=
  batches ← generation_params self params;
  Ok (concat (map (fun '(param, w, indices) =>
                     _generate_image_batch self param w indices)
                  batches)).

Definition generate_dataset (self : FractalImageGenerator)
    : result (list rendered) :=
  params ← generate_categories self;
  generate_batches self params.

End Dataset.

(** ** [__init__] and the environment it runs in *)

(** What the constructor observes of the operating system: the working
    directory, [os.cpu_count()] (which may be [None]), the files that
    exist, the directories [os.access(path, os.W_OK)] accepts, and
    whether [requests.get] gets an answer. *)
Record os_env : Type := {
  getcwd : string;
  cpu_count : option Z;
  files : gset string;
  writable : gset string;
  requests_get : string -> result string
}.

Definition with_file (env : os_env) (path : string) : os_env :=
  {| getcwd := getcwd env; cpu_count := cpu_count env;
     files := {[ path ]} ∪ files env; writable := writable env;
     requests_get := requests_get env |}.

(** [os.path.join] of a directory and a relative file name: the
    separator is put between them unless the directory is empty or ends
    with one. *)
Definition osp_join (path name : string) : string :=
  if decide (path = "") then name
  else if bool_decide (String.get (String.length path - 1) path
                       = Some "/"%char)
       then path +:+ name
       else path +:+ "/" +:+ name.

Definition _MODEL_PROTO_NAME : string := "colorization_deploy_v2.prototxt".
Definition _MODEL_CONFIG_NAME : string := "colorization_release_v2.caffemodel".
Definition _HULL_PTS_FILE_NAME : string := "pts_in_hull.npy".

(** [if not osp.exists(p): data = requests.get(url + name); write it] *)
Definition download_if_missing (env : os_env) (url name path : string)
    : result os_env :=
  if decide (path ∈ files env) then Ok env
  else _ ← requests_get env (url +:+ name); Ok (with_file env path).

Definition _download_colorization_model (env : os_env) (path : string)
    : result os_env :=
  let proto_path := osp_join path _MODEL_PROTO_NAME in
  let config_path := osp_join path _MODEL_CONFIG_NAME in
  let hull_path := osp_join path _HULL_PTS_FILE_NAME in
  assert! negb (negb (bool_decide (proto_path ∈ files env)
                      && bool_decide (config_path ∈ files env)
                      && bool_decide (hull_path ∈ files env))
                && negb (bool_decide (path ∈ writable env)))
    or ValueError "Please provide a path to a colorization model or a path to a writable directory to download the model" ;;
  env ← download_if_missing env
    "https://raw.githubusercontent.com/richzhang/colorization/caffe/colorization/models/"
    _MODEL_PROTO_NAME proto_path;
  env ← download_if_missing env
    "http://eecs.berkeley.edu/~rich.zhang/projects/2016_colorization/files/demo_v2/"
    _MODEL_CONFIG_NAME config_path;
  download_if_missing env
    "https://github.com/richzhang/colorization/raw/caffe/colorization/resources/"
    _HULL_PTS_FILE_NAME hull_path.

(** The three files of the colorization model below [path]. *)
Definition model_files (path : string) : list string :=
  [osp_join path _MODEL_PROTO_NAME; osp_join path _MODEL_CONFIG_NAME;
   osp_join path _HULL_PTS_FILE_NAME].

(** [FractalImageGenerator(output_dir, count, shape, model_path)]: the
    statements of [__init__] in their order.  The result carries the
    environment after the downloads. *)
Definition __init__ (env : os_env) (output_dir : string) (count : Z)
    (shape : list Z) (model_path : option string)
    : result (FractalImageGenerator * os_env) :=
  assert! (0 <? count)
    or AssertionError "Image count cannot be lesser than 1" ;;
  let model_dir :=
    match model_path with
    | Some p => if decide (p = "") then getcwd env else p
    | None => getcwd env
    end in
  cpus ← match cpu_count env with
          | Some c => Ok (Z.min c count)
          | None => Raise TypeError
          end;
  match shape with
  | [height; width] =>
      let weights := _create_weights NUM_PARAMS in
      env ← _download_colorization_model env model_dir;
      self ← _initialize_params
        {| _count := count; _output_dir := output_dir;
           _model_dir := model_dir; _cpu_count := cpus;
           _height := height; _width := width; _weights := weights;
           _threshold := (2 # 10)%Q; _iterations := 200000;
           _num_of_points := 100000; _instances := 0; _categories := 0 |};
      Ok (self, env)
  | _ => Raise (AssertionError "")
  end.

(** *** The image files [_generate_image_batch] writes *)

(** ["{:06d}".format(i)] for an index [i >= 0]: the decimal digits of
    [i], filled with zeros on the left up to six characters. *)
Definition format_06d (i : nat) : string :=
  let digits := DecimalString.NilEmpty.string_of_uint (Nat.to_uint i) in
  Nat.iter (6 - String.length digits) (String "0"%char) digits.

(** [int(s)] for a string of decimal digits. *)
Definition int_of_digits (s : string) : option nat :=
  Nat.of_uint <$> DecimalString.NilEmpty.uint_of_string s.

(** The path line 133 hands to [save_image]:
    [osp.join(self._output_dir, "{:06d}.png".format(i))]. *)
Definition image_path (self : FractalImageGenerator) (i : nat) : string :=
  osp_join (_output_dir self) (format_06d i +:+ ".png").

(** ** [Converter.patch] *)

(** A directory: its permission bits and its files by relative path. *)
Record directory : Type := {
  d_mode : Z;
  d_entries : gmap string string
}.

(** The directories of the file system, by path.  A directory holds
    everything below it in its entries; the paths of the map are taken
    not to lie inside one another. *)
Abbreviation filesystem := (gmap string directory).

(** A converter class: [cls.convert(dataset, save_dir, **options)] builds
    the converter and runs the subclass's [apply].  It returns the file
    system it leaves behind also when it raises.  [convert_frame] is the
    contract of a converter: it writes below the directory it is given
    and nowhere else. *)
Class Converter (dataset retval : Type) : Type := {
  convert : dataset -> string -> filesystem -> filesystem * result retval;
  convert_frame : forall ds dir fs p,
    p ≠ dir -> (convert ds dir fs).1 !! p = fs !! p
}.

(** [mkdtemp]: a new, empty directory readable by its owner only. *)
Definition mkdtemp (tmpdir : string) (fs : filesystem) : filesystem :=
  <[tmpdir := {| d_mode := 448; d_entries := ∅ |}]> fs.

(** [shutil.copymode(src, dst)] *)
Definition copymode (src dst : string) (fs : filesystem) : filesystem :=
  match fs !! src with
  | Some d => alter (fun t => {| d_mode := d_mode d;
                                 d_entries := d_entries t |}) dst fs
  | None => fs
  end.

(** [rmtree(path)]: the directory goes with everything below it, which
    its entries hold. *)
Definition rmtree (path : string) (fs : filesystem) : filesystem :=
  delete path fs.

(** [os.replace(src, dst)] for directories. *)
Definition os_replace (src dst : string) (fs : filesystem)
    : result filesystem :=
  match fs !! src with
  | Some d => Ok (<[dst := d]> (delete src fs))
  | None => Raise FileNotFoundError
  end.

(** [Converter.patch(dataset, patch, save_dir)].  [tmpdir] is the name
    [mkdtemp] picks: [dirname(save_dir)] joined with [basename(save_dir)],
    random characters and [".tmp"], which lies next to [save_dir]
    unless [save_dir] ends with a separator.  The function is [@scoped]
    ([datumaro.util.scope]): the action registered by
    [on_error_do(rmtree, tmpdir, ignore_errors=True)] runs when the body
    leaves with an exception, and the exception goes on to the
    caller. *)
Definition patch `{Converter dataset retval} (ds : dataset)
    (save_dir tmpdir : string) (fs : filesystem)
    : filesystem * result retval :=
  match fs !! save_dir with
  | None => convert ds save_dir fs
  | Some _ =>
      let fs := mkdtemp tmpdir fs in
      let fs := copymode save_dir tmpdir fs in
      match convert ds tmpdir fs with
      | (fs, Raise e) => (rmtree tmpdir fs, Raise e)
      | (fs, Ok retval) =>
          let fs := rmtree save_dir fs in
          match os_replace tmpdir save_dir fs with
          | Ok fs => (fs, Ok retval)
          | Raise e => (rmtree tmpdir fs, Raise e)
          end
      end
  end.

(** ** The converter object and its file names *)

Module Conv.

(** Python's truth value of an optional string: [None] and [""] are
    false. *)
Definition truthy (s : option string) : bool :=
  match s with
  | Some s => negb (bool_decide (s = ""))
  | None => false
  end.

(** [a or b] *)
Definition py_or (a b : option string) : option string :=
  if truthy a then a else b.

(** [a or b] with a string for [b]. *)
Definition or_else (a : option string) (b : string) : string :=
  match a with
  | Some s => if bool_decide (s = "") then b else s
  | None => b
  end.

Definition starts_with_sep (s : string) : bool :=
  match s with
  | String c _ => bool_decide (c = "/"%char)
  | EmptyString => false
  end.

Fixpoint ends_with_sep (s : string) : bool :=
  match s with
  | EmptyString => false
  | String c EmptyString => bool_decide (c = "/"%char)
  | String _ s => ends_with_sep s
  end.

(** [posixpath.join(a, b)] *)
Definition join (a b : string) : string :=
  if starts_with_sep b then b
  else if bool_decide (a = "") || ends_with_sep a then a +:+ b
  else a +:+ "/" +:+ b.

(** [media.Image], as far as the converter reads it. *)
Record Image : Type := {
  ext : string;
  has_data : bool
}.

(** [extractor.DatasetItem], as far as the converter reads it;
    [has_image] is [image is not None]. *)
Record DatasetItem : Type := {
  id : string;
  image : option Image;
  point_cloud : option string
}.

Definition has_image (item : DatasetItem) : bool :=
  bool_decide (is_Some (image item)).

(** The argument of [_find_image_ext]: [Union[DatasetItem, Image]]. *)
Inductive item_or_image : Type :=
  | OfItem (item : DatasetItem)
  | OfImage (img : Image).

(** The extractor given to the constructor: a plain one, or the
    [DatasetPatch.DatasetPatchWrapper] that carries a patch. *)
Inductive extractor (E P : Type) : Type :=
  | Plain (e : E)
  | DatasetPatchWrapper (e : E) (patch : P).
Arguments Plain {E P} e.
Arguments DatasetPatchWrapper {E P} e patch.

(** The attributes [Converter.__init__] sets. *)
Record Converter (E P X : Type) : Type := {
  _default_image_ext : string;
  _save_images : bool;
  _image_ext : option string;
  _extractor : extractor E P;
  _save_dir : string;
  _save_dataset_meta : bool;
  _patch : option P;
  _ctx : option X
}.
Arguments _default_image_ext {E P X} _.
Arguments _save_images {E P X} _.
Arguments _image_ext {E P X} _.
Arguments _extractor {E P X} _.
Arguments _save_dir {E P X} _.
Arguments _save_dataset_meta {E P X} _.
Arguments _patch {E P X} _.
Arguments _ctx {E P X} _.

(** [Converter.__init__]; [DEFAULT_IMAGE_EXT] is the class attribute,
    [None] in [Converter] itself. *)
Definition __init__ {E P X} (DEFAULT_IMAGE_EXT : option string)
    (extr : extractor E P) (save_dir : string) (save_images : bool)
    (image_ext default_image_ext : option string)
    (save_dataset_meta : bool) (ctx : option X)
    : result (Converter E P X) :=
  let default_image_ext := py_or default_image_ext DEFAULT_IMAGE_EXT in
  assert! truthy default_image_ext or AssertionError "" ;;
  Ok {| _default_image_ext := or_else default_image_ext "";
        _save_images := save_images;
        _image_ext := image_ext;
        _extractor := extr;
        _save_dir := save_dir;
        _save_dataset_meta := save_dataset_meta;
        _patch := match extr with
                  | DatasetPatchWrapper _ patch => Some patch
                  | Plain _ => None
                  end;
        _ctx := ctx |}.

Definition _find_image_ext {E P X} (self : Converter E P X)
    (item : item_or_image) : string :=
  let src_ext :=
    match item with
    | OfItem item =>
        match image item with
        | Some img => Some (ext img)
        | None => None
        end
    | OfImage img => Some (ext img)
    end in
  or_else (py_or (_image_ext self) src_ext) (_default_image_ext self).

Definition _make_item_filename {E P X} (self : Converter E P X)
    (item : DatasetItem) (name subdir : option string) : string :=
  let name := or_else name (id item) in
  let subdir := or_else subdir "" in
  join subdir name.

Definition _make_image_filename {E P X} (self : Converter E P X)
    (item : DatasetItem) (name subdir : option string) : string :=
  _make_item_filename self item name subdir
  +:+ _find_image_ext self (OfItem item).

Definition _make_pcd_filename {E P X} (self : Converter E P X)
    (item : DatasetItem) (name subdir : option string) : string :=
  _make_item_filename self item name subdir +:+ ".pcd".

(** [_save_image]: the path [item.image.save] is called with, or [None]
    when the item is skipped.  [abspath] is [os.path.abspath] in the
    working directory of the process. *)
Definition _save_image {E P X} (abspath : string -> string)
    (self : Converter E P X) (item : DatasetItem)
    (path name subdir basedir : option string) : result (option string) :=
  assert! negb ((truthy subdir || truthy name || truthy basedir)
                && truthy path)
    or AssertionError "Can't use both subdir or name or basedir and path arguments" ;;
  match image item with
  | Some img =>
      if negb (has_data img) then Ok None
      else
        let basedir := or_else basedir (_save_dir self) in
        let path :=
          or_else path
            (join basedir (_make_image_filename self item name subdir)) in
        Ok (Some (abspath path))
  | None => Ok None
  end.

End Conv.

(** ** Notions the properties are stated with *)

(** What the planner establishes, and what the partitioner relies on. *)
Definition planned (self : FractalImageGenerator) : Prop :=
  1 <= _count self
  /\ 1 <= _instances self
  /\ 1 <= _categories self
  /\ 1 <= Z.of_nat (length (_weights self))
  /\ _count self
     <= _categories self * _instances self * Z.of_nat (length (_weights self)).

(** Where binary64 holds the planner's numbers exactly: for a count
    below [2^52], and for a count that does not exceed the number of
    weight vectors. *)
Definition exact_range (self : FractalImageGenerator) : Prop :=
  _count self < 2 ^ 52
  \/ _count self <= Z.of_nat (length (_weights self)).



(** The planner's numbers in exact arithmetic: the least integer not
    below [a / b] (for [b > 0]), and the least integer whose square
    reaches [m]. *)
Definition ceil_div (a b : Z) : Z := - (- a / b).

Definition ceil_sqrt (m : Z) : Z :=
  let s := Z.sqrt m in
  if s * s =? m then s else s + 1.

(** The integer nearest to [a / b], ties to the even one (for
    [b > 0]): what a binary64 division keeps of a quotient, on the grid
    of its exponent. *)
Definition round_half_even (a b : Z) : Z :=
  let q := a / b in
  match 2 * (a mod b) ?= b with
  | Lt => q
  | Eq => if Z.even q then q else q + 1
  | Gt => q + 1
  end.

Abbreviation round_aux := (binary_round_aux float64.prec float64.emax).

(** What the second half of [binary_round_aux] makes of a rounded
    mantissa [R] of 53 bits, or of [R = 2^53]. *)
Definition pack (R e : Z) : spec_float :=
  if R <? 2 ^ 53 then S754_finite false (Z.to_pos R) e
  else S754_finite false (Z.to_pos (2 ^ 52)) (e + 1).

(** The generator with another number of workers. *)
Definition with_cpu_count (self : FractalImageGenerator) (cpus : Z)
    : FractalImageGenerator :=
  {| _count := _count self; _output_dir := _output_dir self;
     _model_dir := _model_dir self; _cpu_count := cpus;
     _height := _height self; _width := _width self;
     _weights := _weights self; _threshold := _threshold self;
     _iterations := _iterations self;
     _num_of_points := _num_of_points self;
     _instances := _instances self; _categories := _categories self |}.

(** The sizes of the sections of [array_split]. *)
Definition split_sizes (Ntotal Nsections : nat) : list nat :=
  replicate (Ntotal mod Nsections)%nat (S (Ntotal / Nsections)%nat)
  ++ replicate (Nsections - Ntotal mod Nsections)%nat (Ntotal / Nsections)%nat.

(** A row as [fill_params] writes it: six coefficients and the area
    factor of its linear part. *)
Definition row_ok (row : list Q) : Prop :=
  exists a b c d e f, row = [a; b; c; d; e; f; Qabs (a * d - b * c)].

(** The sum of a list of rationals. *)
Fixpoint Qsum (l : list Q) : Q :=
  match l with
  | [] => 0%Q
  | x :: l => (x + Qsum l)%Q
  end.

(** The area factor |a d - b c| of a map, read from its row. *)
Definition area_factor (param : list Q) : Q :=
  match param with
  | a :: b :: c :: d :: _ => Qabs (a * d - b * c)
  | _ => 0%Q
  end.

(** A parameter array as a pass of the loop leaves it. *)
Definition candidate (params : list (list Q)) : Prop :=
  exists rows s,
    params = normalize s rows
    /\ Forall row_ok rows
    /\ (s == (1 # 100000) + Qsum (selection_weights rows))%Q.

Section Jobs.
Context `{U : Utils}.

(** What the loop of [_generate_image_batch] does for one job. *)
Definition render_job (self : FractalImageGenerator)
    (job : nat * list (list Q) * list Q) : rendered :=
  let '(i, param, w) := job in
  let image :=
    (_generate_image (Random (Z.of_nat i)) param (_iterations self)
       (_height self) (_width self) false (Some w)).1 in
  {| r_index := i;
     r_image := image;
     r_saved := augment (Random (Z.of_nat i))
                  (colorize image (readNetFromCaffe (_model_dir self)))
                  background_colors |}.

(** The augmentation as the specification words it: the background
    colour is drawn from the generator the synthesis of the job used,
    continuing its stream. *)
Definition augment_continuing_stream (self : FractalImageGenerator)
    (job : nat * list (list Q) * list Q) : color_image :=
  let '(i, param, w) := job in
  let '(image, r) :=
    _generate_image (Random (Z.of_nat i)) param (_iterations self)
      (_height self) (_width self) false (Some w) in
  augment r (colorize image (readNetFromCaffe (_model_dir self)))
    background_colors.

End Jobs.

(** A parameter array of 2 to 7 rows of seven numbers. *)
Definition well_shaped (params : list (list Q)) : Prop :=
  2 <= Z.of_nat (length params) <= 7
  /\ Forall (fun row => length row = S NUM_PARAMS) params.

(** ** Concrete inputs *)

(** The attributes [__init__] has set when it calls
    [_initialize_params], for a run of 50 images of 64 x 48 pixels on
    four cores. *)
Definition fifty_images : FractalImageGenerator :=
  {| _count := 50; _output_dir := "out"; _model_dir := "models";
     _cpu_count := 4; _height := 64; _width := 48;
     _weights := _create_weights NUM_PARAMS;
     _threshold := (2 # 10)%Q; _iterations := 200000;
     _num_of_points := 100000; _instances := 0; _categories := 0 |}.

(** The generator [__init__] builds from them: 25 weight vectors, one
    category and two instances. *)
Definition fifty : FractalImageGenerator :=
  Eval vm_compute in
    match _initialize_params fifty_images with
    | Ok self => self
    | Raise _ => fifty_images
    end.

(** A count beyond the integers binary64 holds exactly:
    25 * (10^16 + 1). *)
Definition huge_count : Z := 250000000000000025.

(** The generator for 200 images: three categories of three
    instances. *)
Definition two_hundred : FractalImageGenerator :=
  Eval vm_compute in
    match _initialize_params
            {| _count := 200; _output_dir := "out"; _model_dir := "models";
               _cpu_count := 4; _height := 64; _width := 48;
               _weights := _create_weights NUM_PARAMS;
               _threshold := (2 # 10)%Q; _iterations := 200000;
               _num_of_points := 100000; _instances := 0;
               _categories := 0 |} with
    | Ok self => self
    | Raise _ => fifty_images
    end.

(** ** A small implementation of the collaborators

    Used to run the generator on concrete inputs.  The random generator
    is a position in a scripted stream [u] of [random()] values; the
    iterated function system records its maps, draws one value per
    iteration, and lights [lit n] pixels when its generator stands at
    position [n]; the augmentation picks the background colour the
    generator's position selects. *)

Module Toy.

(** A generator is its position [n] in the stream: [randint(a, b)]
    answers [a], [uniform(a, b)] answers [a + (b - a) * u n], and both
    move on by one. *)
Definition scripted (u : Z -> Q) : RandomGen :=
  {| rng := Z;
     Random seed := seed;
     randint a b n := (a, n + 1);
     uniform a b n := ((a + (b - a) * u n)%Q, n + 1);
     randint_range a b n := fun Hab => conj (Z.le_refl a) Hab |}.

(** The function system: the generator it holds and the maps added. *)
Record toy_ifs : Type := {
  t_rng : Z;
  t_maps : list (list Q * Q)
}.

(** Three background colours. *)
Definition palette : list (list Q) :=
  [[0; 0; 0]%Q; [255; 255; 255]%Q; [128; 128; 128]%Q].

Definition utils (u : Z -> Q) (lit : Z -> nat) : @Utils (scripted u) :=
  @Build_Utils (scripted u)
    (* ifs *) toy_ifs
    (* IFSFunction *)
    (fun (r : Z) _ _ => {| t_rng := r; t_maps := [] |})
    (* add_param *)
    (fun param prob _ f =>
       {| t_rng := t_rng f; t_maps := t_maps f ++ [(param, prob)] |})
    (* calculate *)
    (fun iterations f =>
       {| t_rng := t_rng f + iterations; t_maps := t_maps f |})
    (* draw *)
    (fun _ _ _ f => ([replicate (lit (t_rng f)) 1], f))
    (* ifs_rng *) t_rng
    (* net, readNetFromCaffe *) unit (fun _ => tt)
    (* color_image *) (list (list Z) * list Q)%type
    (* background_colors *) palette
    (* colorize *) (fun img _ => (img, []))
    (* augment *)
    (fun (r : Z) img colors =>
       (img.1, nth (Z.to_nat (r mod Z.of_nat (length colors))) colors [])).

(** Where the script says one half, [uniform(-1, 1)] draws this value. *)
Definition mid : Q := (-1 + (1 - -1) * (1 # 2))%Q.

(** The candidate drawn where the script is constantly one half: two
    maps with all coefficients zero. *)
Definition flat_rows : list (list Q) :=
  let row := [mid; mid; mid; mid; mid; mid;
              Qabs (mid * mid - mid * mid)] in [row; row].

(** [sum_proba] after that candidate's rows. *)
Definition flat_sum : Q :=
  ((1 # 100000) + Qabs (mid * mid - mid * mid)
   + Qabs (mid * mid - mid * mid))%Q.

End Toy.

(** ** A run in which no candidate reaches the threshold

    The script: the first [random()] value a generator seeded with 0
    hands to [uniform] is 1, every other one is one half; the renderer
    lights 1000 pixels up to position 100013 of the stream and none
    afterwards. *)

Module Sparse.

(** The stream of [random()] values. *)
Definition u (n : Z) : Q := if n =? 1 then 1%Q else (1 # 2)%Q.

(** The pixels lit by a rendering that ends at position [n]. *)
Definition lit (n : Z) : nat := if n <=? 100013 then 1000%nat else 0%nat.

#[local] Instance random : RandomGen := Toy.scripted u.
#[local] Instance utils : Utils := Toy.utils u lit.

(** The local variables after the first pass of [Random(0)]. *)
Definition first : locals :=
  Eval vm_compute in
    match pass fifty 512 512 (initial_locals (Random 0)) with
    | Ok st => st
    | Raise _ => initial_locals (Random 0)
    end.

(** The local variables after [k >= 2] passes. *)
Definition late (k : nat) : locals :=
  {| l_pixels := (inject_Z (Z.of_nat 0) / inject_Z (512 * 512))%Q;
     l_i := Z.of_nat k;
     l_params := Some (normalize Toy.flat_sum Toy.flat_rows);
     l_rng := 100013 * Z.of_nat k |}.

End Sparse.

(** The first job of the run: global index 0, the flat candidate and the
    base weight vector. *)
Definition first_job : nat * list (list Q) * list Q :=
  (0%nat, normalize Toy.flat_sum Toy.flat_rows, replicate NUM_PARAMS 1%Q).

(** An environment that already holds the three model files. *)
Definition model_env : os_env :=
  {| getcwd := "/work";
     cpu_count := Some 4;
     files := {[ osp_join "models" _MODEL_PROTO_NAME;
                 osp_join "models" _MODEL_CONFIG_NAME;
                 osp_join "models" _HULL_PTS_FILE_NAME ]};
     writable := ∅;
     requests_get := fun _ => Raise (ValueError "offline") |}.

(** What the failing converter leaves in its directory. *)
Definition half_written : directory :=
  {| d_mode := 448; d_entries := {[ "annotations.json" := "{" ]} |}.

(** A converter that writes the beginning of one file into its
    directory and raises. *)
Definition failing_converter : Converter unit unit :=
  {| convert ds dir fs :=
       (<[dir := half_written]> fs,
        Raise (ConversionError "cannot export item"));
     convert_frame ds dir fs p Hp :=
       lookup_insert_ne fs dir p half_written (not_eq_sym Hp) |}.

(** A file system with one exported dataset. *)
Definition exported : filesystem :=
  {[ "/data/voc" := {| d_mode := 493;
                       d_entries := {[ "labels.txt" := "cat" ]} |} ]}.

(** One image on one core, as [__init__] hands it to the planner. *)
Definition one_image : FractalImageGenerator :=
  {| _count := 1; _output_dir := "out"; _model_dir := "models";
     _cpu_count := 1; _height := 64; _width := 48;
     _weights := _create_weights NUM_PARAMS;
     _threshold := (2 # 10)%Q; _iterations := 200000;
     _num_of_points := 100000; _instances := 0; _categories := 0 |}.

(** An environment without the model and without write access. *)
Definition bare_env : os_env :=
  {| getcwd := "/work"; cpu_count := Some 4; files := ∅; writable := ∅;
     requests_get := fun _ => Ok "data" |}.

(** A writable directory without the model, and a network that answers. *)
Definition empty_writable_env : os_env :=
  {| getcwd := "/work"; cpu_count := Some 4; files := ∅;
     writable := {[ "models" ]}; requests_get := fun _ => Ok "data" |}.



(** A converter that removes the directory it was given and returns. *)
Definition vanishing_converter : Converter unit unit :=
  {| convert ds dir fs := (delete dir fs, Ok tt);
     convert_frame ds dir fs p Hp :=
       lookup_delete_ne fs dir p (not_eq_sym Hp) |}.

(** A converter of a format whose images are JPEG by default. *)
Definition jpeg_converter : Conv.Converter unit unit unit :=
  {| Conv._default_image_ext := ".jpg"; Conv._save_images := true;
     Conv._image_ext := None; Conv._extractor := Conv.Plain tt;
     Conv._save_dir := "/data/voc"; Conv._save_dataset_meta := false;
     Conv._patch := None; Conv._ctx := None |}.

(** An item with a PNG image, and one whose id is an absolute path. *)
Definition png_item : Conv.DatasetItem :=
  {| Conv.id := "train/001";
     Conv.image := Some {| Conv.ext := ".png"; Conv.has_data := true |};
     Conv.point_cloud := None |}.

Definition rooted_item : Conv.DatasetItem :=
  {| Conv.id := "/etc/001";
     Conv.image := Some {| Conv.ext := ".png"; Conv.has_data := true |};
     Conv.point_cloud := None |}.

(** * Properties *)

(** ** Binary64 arithmetic

    What [SpecFloat]'s division and square root return on positive
    floats away from the subnormal numbers and from the overflow, and
    what is left of their rounding once the ceiling is taken. *)

(** *** Mantissas *)

Lemma digits2_pos_size (p : positive) : digits2_pos p = Pos.size p.
Proof. induction p as [p IH | p IH |]; cbn; by rewrite ?IH. Qed.

Lemma Zdigits2_bounds (m : Z) :
  0 < m -> 2 ^ (Zdigits2 m - 1) <= m < 2 ^ Zdigits2 m.
Proof.
  destruct m as [| p | p]; try lia. intros _. cbn [Zdigits2].
  rewrite digits2_pos_size.
  pose proof (Pos.size_gt p) as Hgt. pose proof (Pos.size_le p) as Hle.
  split.
  - apply Pos2Z.pos_le_pos in Hle. rewrite Pos2Z.inj_pow in Hle.
    replace (Z.pos (Pos.size p)) with (Z.succ (Z.pos (Pos.size p) - 1)) in Hle by lia.
    rewrite Z.pow_succ_r in Hle by lia. lia.
  - apply Pos2Z.pos_lt_pos in Hgt. by rewrite Pos2Z.inj_pow in Hgt.
Qed.

Lemma Zdigits2_unique (m d : Z) :
  2 ^ (d - 1) <= m < 2 ^ d -> 0 < d -> Zdigits2 m = d.
Proof.
  intros [Hlo Hhi] Hd.
  assert (0 < m) as Hm by (pose proof (Z.pow_pos_nonneg 2 (d - 1)); lia).
  destruct (Zdigits2_bounds m Hm) as [Hlo' Hhi'].
  assert (0 < Zdigits2 m) as Hd' by (destruct m; cbn; lia).
  destruct (Z.lt_trichotomy (Zdigits2 m) d) as [Hlt | [-> | Hgt]]; [| done |].
  - assert (2 ^ Zdigits2 m <= 2 ^ (d - 1)) by (apply Z.pow_le_mono_r; lia). lia.
  - assert (2 ^ d <= 2 ^ (Zdigits2 m - 1)) by (apply Z.pow_le_mono_r; lia). lia.
Qed.

Lemma Zdigits2_le_53 (x : Z) : 1 <= x < 2 ^ 53 -> 1 <= Zdigits2 x <= 53.
Proof.
  intros Hx. pose proof (Zdigits2_bounds x ltac:(lia)) as Hd.
  split; [destruct x; cbn; lia |].
  destruct (Z.le_gt_cases (Zdigits2 x) 53) as [| Hgt]; [done |].
  assert (2 ^ 53 <= 2 ^ (Zdigits2 x - 1)) by (apply Z.pow_le_mono_r; lia).
  lia.
Qed.

(** An integer below [2^53], shifted to 53 bits. *)
Lemma mantissa_53 (x : Z) :
  1 <= x < 2 ^ 53 -> 2 ^ 52 <= x * 2 ^ (53 - Zdigits2 x) < 2 ^ 53.
Proof.
  intros Hx. pose proof (Zdigits2_bounds x ltac:(lia)) as Hd.
  pose proof (Zdigits2_le_53 x Hx) as Hd53.
  set (d := Zdigits2 x) in *.
  assert (0 < 2 ^ (53 - d)) by (apply Z.pow_pos_nonneg; lia).
  assert (2 ^ 52 = 2 ^ (d - 1) * 2 ^ (53 - d)) as ->.
  { rewrite <- Z.pow_add_r by lia. f_equal. lia. }
  assert (2 ^ 53 = 2 ^ d * 2 ^ (53 - d)) as ->.
  { rewrite <- Z.pow_add_r by lia. f_equal. lia. }
  split; [apply Z.mul_le_mono_nonneg_r | apply Zmult_lt_compat_r]; lia.
Qed.

Lemma loc_of_shr_record_of_loc (m : Z) (l : location) :
  loc_of_shr_record (shr_record_of_loc m l) = l.
Proof. by destruct l as [| []]. Qed.

Lemma shr_m_of_loc (m : Z) (l : location) : shr_m (shr_record_of_loc m l) = m.
Proof. by destruct l as [| []]. Qed.

Lemma shr_1_spec (m : Z) (r s : bool) :
  0 <= m ->
  shr_1 {| shr_m := m; shr_r := r; shr_s := s |}
  = {| shr_m := m / 2; shr_r := Z.odd m; shr_s := r || s |}.
Proof.
  intros Hm. destruct m as [| [p | p |] |]; try lia; cbn [shr_1 Z.odd].
  - reflexivity.
  - f_equal. rewrite Pos2Z.inj_xI. apply Z.div_unique with 1; lia.
  - f_equal. rewrite Pos2Z.inj_xO. apply Z.div_unique with 0; lia.
  - reflexivity.
Qed.

Lemma fexp_normal (e : Z) :
  -1021 <= e -> fexp float64.prec float64.emax e = e - 53.
Proof. unfold fexp, emin, float64.prec, float64.emax. lia. Qed.

Lemma round_finish (R e : Z) :
  2 ^ 52 <= R <= 2 ^ 53 -> -1074 <= e <= 970 ->
  (let '(mrs, e') := shr_fexp float64.prec float64.emax R e loc_Exact in
   match shr_m mrs with
   | 0 => S754_zero false
   | Z.pos m =>
       if e' <=? float64.emax - float64.prec
       then S754_finite false m e' else S754_infinity false
   | Z.neg _ => S754_nan
   end) = pack R e.
Proof.
  intros HR He. unfold shr_fexp, pack.
  destruct (Z.ltb_spec R (2 ^ 53)) as [Hlt | Hge].
  - rewrite (Zdigits2_unique R 53) by lia.
    rewrite fexp_normal by lia.
    replace (53 + e - 53 - e) with 0 by lia. cbn [shr shr_record_of_loc shr_m].
    destruct R as [| p | p]; try lia.
    destruct (Z.leb_spec e (float64.emax - float64.prec)) as [_ | H];
      [done | unfold float64.emax, float64.prec in H; lia].
  - assert (R = 2 ^ 53) as -> by lia.
    change (Zdigits2 (2 ^ 53)) with 54.
    rewrite fexp_normal by lia.
    replace (54 + e - 53 - e) with 1 by lia.
    cbn [shr SpecFloat.iter_pos shr_record_of_loc]. 
    change (shr_m (shr_1 {| shr_m := 2 ^ 53; shr_r := false; shr_s := false |}))
      with (2 ^ 52).
    change (2 ^ 52) with (Z.pos (Z.to_pos (2 ^ 52))) at 1.
    cbv iota beta.
    destruct (Z.leb_spec (e + 1) (float64.emax - float64.prec)) as [_ | H];
      [done | unfold float64.emax, float64.prec in H; lia].
Qed.

Lemma round_nearest_even_bounds (m : Z) (l : location) :
  m <= round_nearest_even m l <= m + 1.
Proof. destruct l as [| []]; cbn; try destruct (Z.even m); lia. Qed.

Lemma round_aux_53 (mx ex : Z) (lx : location) :
  2 ^ 52 <= mx < 2 ^ 53 -> -1074 <= ex <= 970 ->
  round_aux false mx ex lx = pack (round_nearest_even mx lx) ex.
Proof.
  intros Hm He. unfold binary_round_aux.
  unfold shr_fexp at 1.
  rewrite (Zdigits2_unique mx 53) by lia.
  rewrite fexp_normal by lia.
  replace (53 + ex - 53 - ex) with 0 by lia. cbn [shr].
  rewrite loc_of_shr_record_of_loc, shr_m_of_loc.
  pose proof (round_nearest_even_bounds mx lx).
  apply round_finish; lia.
Qed.

Lemma round_aux_54 (mx ex : Z) (lx : location) :
  2 ^ 53 <= mx < 2 ^ 54 -> -1074 <= ex <= 969 ->
  round_aux false mx ex lx
  = pack (round_nearest_even (mx / 2)
            (loc_of_shr_record
               {| shr_m := mx / 2; shr_r := Z.odd mx;
                  shr_s := match lx with loc_Exact => false | _ => true end |}))
         (ex + 1).
Proof.
  intros Hm He. unfold binary_round_aux.
  unfold shr_fexp at 1.
  rewrite (Zdigits2_unique mx 54) by lia.
  rewrite fexp_normal by lia.
  replace (54 + ex - 53 - ex) with 1 by lia. cbn [shr SpecFloat.iter_pos].
  assert (shr_1 (shr_record_of_loc mx lx)
          = {| shr_m := mx / 2; shr_r := Z.odd mx;
               shr_s := match lx with loc_Exact => false | _ => true end |})
    as ->.
  { destruct lx as [| []]; cbn [shr_record_of_loc]; by rewrite shr_1_spec by lia. }
  cbn [shr_m].
  match goal with |- context [round_nearest_even ?m ?l] =>
    pose proof (round_nearest_even_bounds m l) end.
  assert (2 ^ 52 <= mx / 2 < 2 ^ 53).
  { change (2 ^ 54) with (2 * 2 ^ 53) in Hm. change (2 ^ 53) with (2 * 2 ^ 52) in Hm at 1.
    split; [apply Z.div_le_lower_bound | apply Z.div_lt_upper_bound]; lia. }
  apply round_finish; lia.
Qed.

Lemma new_location_spec (b r : Z) :
  0 <= r < b ->
  new_location b r
  = if r =? 0 then loc_Exact else loc_Inexact (2 * r ?= b).
Proof.
  intros Hr. unfold new_location, new_location_even, new_location_odd.
  destruct (Z.even b) eqn:Hev; destruct (Z.eqb_spec r 0) as [-> | Hne];
    try done.
  f_equal.
  assert (Z.odd b = true) as Hodd by (rewrite <- Z.negb_even, Hev; done).
  apply Z.odd_spec in Hodd as [k ->].
  destruct (Z.compare_spec (2 * r + 1) (2 * k + 1));
    destruct (Z.compare_spec (2 * r) (2 * k + 1)); try done; lia.
Qed.

Lemma round_quotient (a b : Z) :
  0 < b ->
  round_nearest_even (a / b) (new_location b (a mod b)) = round_half_even a b.
Proof.
  intros Hb. pose proof (Z.mod_pos_bound a b Hb) as Hr.
  rewrite new_location_spec by done. unfold round_half_even.
  destruct (Z.eqb_spec (a mod b) 0) as [-> | Hne].
  - cbn [round_nearest_even]. by destruct (Z.compare_spec (2 * 0) b); try lia.
  - cbn [round_nearest_even]. by destruct (2 * (a mod b) ?= b).
Qed.

Lemma round_quotient_shifted (a b : Z) :
  0 < b -> 0 <= a ->
  round_nearest_even (a / b / 2)
    (loc_of_shr_record
       {| shr_m := a / b / 2; shr_r := Z.odd (a / b);
          shr_s := match new_location b (a mod b) with
                   | loc_Exact => false
                   | loc_Inexact _ => true
                   end |})
  = round_half_even a (2 * b).
Proof.
  intros Hb Ha. pose proof (Z.mod_pos_bound a b Hb) as Hr.
  rewrite new_location_spec by done. unfold round_half_even.
  rewrite (Z.mul_comm 2 b), <- Z.div_div by lia.
  rewrite Z.rem_mul_r by lia.
  set (q := a / b). set (r := a mod b) in *.
  rewrite <- (Z.bit0_mod q), Z.bit0_odd.
  destruct (Z.odd q) eqn:Hodd; cbn [Z.b2z].
  - destruct (Z.eqb_spec r 0) as [Hr0 | Hne]; cbn [loc_of_shr_record round_nearest_even].
    + destruct (Z.compare_spec (2 * (r + b * 1)) (b * 2)); first [lia | done].
    + destruct (Z.compare_spec (2 * (r + b * 1)) (b * 2)); first [lia | done].
  - destruct (Z.eqb_spec r 0) as [Hr0 | Hne]; cbn [loc_of_shr_record round_nearest_even].
    + destruct (Z.compare_spec (2 * (r + b * 0)) (b * 2)); first [lia | done].
    + destruct (Z.compare_spec (2 * (r + b * 0)) (b * 2)); first [lia | done].
Qed.


Lemma round_half_even_bounds (a b : Z) :
  a / b <= round_half_even a b <= a / b + 1.
Proof.
  unfold round_half_even.
  destruct (2 * (a mod b) ?= b); try destruct (Z.even (a / b)); lia.
Qed.

Lemma SFdiv_round (m1 m2 : positive) (e1 e2 : Z) :
  let d1 := Zdigits2 (Z.pos m1) in
  let d2 := Zdigits2 (Z.pos m2) in
  let e' := d1 + e1 - (d2 + e2) - 53 in
  let N := Z.pos m1 * 2 ^ (d2 + 53 - d1) in
  d1 <= d2 + 53 -> -1074 <= e' <= 969 ->
  exists sh R,
    (sh = 0 \/ sh = 1)
    /\ R = round_half_even N (Z.pos m2 * 2 ^ sh)
    /\ 2 ^ 52 <= R <= 2 ^ 53
    /\ float64.div (S754_finite false m1 e1) (S754_finite false m2 e2)
       = pack R (e' + sh).
Proof.
  intros d1 d2 e' N Hd He.
  pose proof (Zdigits2_bounds (Z.pos m1) ltac:(lia)) as H1. fold d1 in H1.
  pose proof (Zdigits2_bounds (Z.pos m2) ltac:(lia)) as H2. fold d2 in H2.
  assert (0 < d1 /\ 0 < d2) as [Hd1 Hd2] by (subst d1 d2; cbn; lia).
  unfold float64.div, SFdiv, SFdiv_core_binary. fold d1 d2.
  rewrite fexp_normal by lia. fold e'.
  rewrite Z.min_l by lia.
  replace (e1 - e2 - e') with (d2 + 53 - d1) by lia.
  assert (match d2 + 53 - d1 with
          | 0 => Z.pos m1
          | Z.pos _ => Z.shiftl (Z.pos m1) (d2 + 53 - d1)
          | Z.neg _ => 0
          end = N) as ->.
  { subst N. destruct (d2 + 53 - d1) as [| s | s] eqn:Hs; [lia | | lia].
    by rewrite Z.shiftl_mul_pow2. }
  assert (2 ^ 52 * Z.pos m2 < N < 2 ^ 54 * Z.pos m2) as HN.
  { subst N. set (s := d2 + 53 - d1).
    assert (0 < 2 ^ s) as HP by (apply Z.pow_pos_nonneg; lia).
    assert (2 ^ 52 * 2 ^ d2 = 2 ^ (d1 - 1) * 2 ^ s) as E1.
    { rewrite <- !Z.pow_add_r by lia. f_equal. lia. }
    assert (2 ^ 54 * 2 ^ (d2 - 1) = 2 ^ d1 * 2 ^ s) as E2.
    { rewrite <- !Z.pow_add_r by lia. f_equal. lia. }
    assert (2 ^ (d1 - 1) * 2 ^ s <= Z.pos m1 * 2 ^ s)
      by (apply Z.mul_le_mono_nonneg_r; lia).
    assert (Z.pos m1 * 2 ^ s < 2 ^ d1 * 2 ^ s)
      by (apply Zmult_lt_compat_r; lia).
    assert (2 ^ 52 * Z.pos m2 < 2 ^ 52 * 2 ^ d2)
      by (apply Zmult_lt_compat_l; lia).
    assert (2 ^ 54 * 2 ^ (d2 - 1) <= 2 ^ 54 * Z.pos m2)
      by (apply Z.mul_le_mono_nonneg_l; lia).
    lia. }
  assert (2 ^ 52 <= N / Z.pos m2 < 2 ^ 54) as Hq.
  { split; [apply Z.div_le_lower_bound | apply Z.div_lt_upper_bound]; lia. }
  assert (Z.div_eucl N (Z.pos m2) = (N / Z.pos m2, N mod Z.pos m2)) as ->.
  { unfold Z.div, Z.modulo. by destruct (Z.div_eucl N (Z.pos m2)). }
  cbn [xorb].
  destruct (Z.ltb_spec (N / Z.pos m2) (2 ^ 53)) as [Hlt | Hge].
  - exists 0, (round_half_even N (Z.pos m2)).
    pose proof (round_half_even_bounds N (Z.pos m2)).
    split; [by left |]. split; [by rewrite Z.mul_1_r |]. split; [lia |].
    rewrite round_aux_53 by lia. by rewrite round_quotient, Z.add_0_r.
  - exists 1, (round_half_even N (2 * Z.pos m2)).
    pose proof (round_half_even_bounds N (2 * Z.pos m2)) as HR.
    rewrite (Z.mul_comm 2), <- Z.div_div in HR by lia.
    assert (2 ^ 52 <= N / Z.pos m2 / 2 < 2 ^ 53).
    { change (2 ^ 54) with (2 * 2 ^ 53) in Hq.
      change (2 ^ 53) with (2 * 2 ^ 52) in Hge.
      split; [apply Z.div_le_lower_bound | apply Z.div_lt_upper_bound]; lia. }
    split; [by right |].
    split; [by rewrite (Z.mul_comm 2) |]. split; [rewrite (Z.mul_comm 2); lia |].
    rewrite round_aux_54 by lia. by rewrite round_quotient_shifted by lia.
Qed.

(** *** Exact ceilings *)

Lemma ceil_div_spec (a b : Z) :
  0 < b -> (ceil_div a b - 1) * b < a <= ceil_div a b * b.
Proof.
  intros Hb. unfold ceil_div.
  pose proof (Z.div_mod (- a) b ltac:(lia)).
  pose proof (Z.mod_pos_bound (- a) b Hb). nia.
Qed.

Lemma ceil_div_unique (a b c : Z) :
  0 < b -> (c - 1) * b < a <= c * b -> ceil_div a b = c.
Proof.
  intros Hb Hc. pose proof (ceil_div_spec a b Hb). nia.
Qed.

Lemma ceil_int_pack (R e : Z) :
  2 ^ 52 <= R <= 2 ^ 53 -> e <= 0 ->
  float64.ceil_int (pack R e) = ceil_div R (2 ^ (- e)).
Proof.
  intros HR He. unfold pack, ceil_div.
  destruct (Z.ltb_spec R (2 ^ 53)) as [Hlt | Hge]; cbn [float64.ceil_int].
  - rewrite Z2Pos.id by lia.
    destruct (Z.ltb_spec e 0) as [| He0]; [done |].
    assert (e = 0) as -> by lia. cbn [negb cond_Zopp]. 
    change (2 ^ (- 0)) with 1. rewrite Z.div_1_r. change (2 ^ 0) with 1. lia.
  - assert (R = 2 ^ 53) as -> by lia.
    rewrite Z2Pos.id by lia. cbn [negb cond_Zopp].
    destruct (Z.ltb_spec (e + 1) 0) as [Hlt | Hge'].
    + f_equal.
      replace (- e) with (1 + - (e + 1)) by lia.
      rewrite Z.pow_add_r by lia.
      change (- 2 ^ 53) with (2 ^ 1 * - 2 ^ 52).
      rewrite Z.div_mul_cancel_l; [done | | done].
      apply Z.pow_nonzero; lia.
    + assert (e = 0 \/ e = -1) as [-> | ->] by lia; reflexivity.
Qed.

Lemma round_half_even_cancel (a b c : Z) :
  0 < b -> 0 < c ->
  round_half_even (a * c) (b * c) = round_half_even a b.
Proof.
  intros Hb Hc. unfold round_half_even.
  rewrite Z.div_mul_cancel_r, Z.mul_mod_distr_r by lia.
  destruct (Z.compare_spec (2 * (a mod b * c)) (b * c));
    destruct (Z.compare_spec (2 * (a mod b)) b); try done; nia.
Qed.

(** Rounding on a grid of step [1 / T] does not move the ceiling of a
    quotient whose divisor is below [2 * T]. *)
Lemma ceil_div_round (x i T : Z) :
  0 <= x -> 0 < i -> 0 < T -> i < 2 * T ->
  ceil_div (round_half_even (x * T) i) T = ceil_div x i.
Proof.
  intros Hx Hi HT HiT.
  pose proof (ceil_div_spec x i Hi) as HC. set (C := ceil_div x i) in *.
  apply ceil_div_unique; [done |]. unfold round_half_even.
  pose proof (Z.div_mod (x * T) i ltac:(lia)) as Hdm.
  pose proof (Z.mod_pos_bound (x * T) i Hi) as Hr.
  set (q := x * T / i) in *. set (r := (x * T) mod i) in *.
  assert ((C - 1) * T <= q) by nia.
  assert (q <= C * T) by nia.
  destruct (Z.compare_spec (2 * r) i) as [E | L | G];
    [destruct (Z.even q) | |]; nia.
Qed.

(** *** Integers as floats *)

Lemma pos_iter_xO (p d : positive) :
  Z.pos (Pos.iter xO p d) = Z.pos p * 2 ^ Z.pos d.
Proof.
  rewrite <- Z.shiftl_mul_pow2 by lia. cbn [Z.shiftl].
  by apply Pos.iter_swap_gen.
Qed.

(** The float of an integer below [2^53]: its 53-bit mantissa and its
    exponent. *)
Lemma of_int_small (x : Z) :
  1 <= x < 2 ^ 53 ->
  float64.of_int x
  = S754_finite false (Z.to_pos (x * 2 ^ (53 - Zdigits2 x)))
                (Zdigits2 x - 53).
Proof.
  intros Hx. pose proof (mantissa_53 x Hx) as Hm.
  pose proof (Zdigits2_le_53 x Hx) as Hd.
  destruct x as [| p | p]; try lia.
  set (d := Zdigits2 (Z.pos p)) in *.
  unfold float64.of_int, binary_normalize, binary_round.
  change (Z.pos (digits2_pos p)) with d.
  rewrite Z.add_0_r, fexp_normal by lia. unfold shl_align.
  destruct (d - 53 - 0) as [| k | k] eqn:Hk.
  - assert (d = 53) as Hd' by lia. rewrite Hd' in *.
    change (2 ^ (53 - 53)) with 1 in *. rewrite Z.mul_1_r in *.
    rewrite round_aux_53 by lia. unfold pack. cbn [round_nearest_even].
    destruct (Z.ltb_spec (Z.pos p) (2 ^ 53)); [done | lia].
  - lia.
  - assert (53 - d = Z.pos k) as Hk' by lia. rewrite Hk' in *.
    rewrite <- pos_iter_xO in Hm |- *.
    rewrite round_aux_53 by lia. unfold pack. cbn [round_nearest_even].
    destruct (Z.ltb_spec (Z.pos (Pos.iter xO p k)) (2 ^ 53)); [done | lia].
Qed.

Lemma of_int_small_value (x : Z) :
  1 <= x < 2 ^ 53 ->
  exists (m : positive) (a : Z),
    float64.of_int x = S754_finite false m (- a)
    /\ 0 <= a /\ Z.pos m = x * 2 ^ a
    /\ Zdigits2 (Z.pos m) = 53.
Proof.
  intros Hx. rewrite of_int_small by done.
  pose proof (mantissa_53 x Hx) as Hm.
  pose proof (Zdigits2_le_53 x Hx) as Hd.
  exists (Z.to_pos (x * 2 ^ (53 - Zdigits2 x))), (53 - Zdigits2 x).
  rewrite Z2Pos.id by lia.
  split; [f_equal; lia |]. split; [lia |]. split; [done |].
  apply Zdigits2_unique; lia.
Qed.

Lemma astype_int_of_int (x : Z) :
  1 <= x < 2 ^ 53 -> float64.astype_int (float64.of_int x) = x.
Proof.
  intros Hx. destruct (of_int_small_value x Hx) as (m & a & -> & Ha & Hm & _).
  unfold float64.astype_int. cbn [cond_Zopp].
  assert (0 < 2 ^ a) by (apply Z.pow_pos_nonneg; lia).
  rewrite Hm, Z.opp_involutive.
  destruct (Z.ltb_spec (- a) 0) as [Hlt | Hge].
  - rewrite Z.div_mul by lia.
    destruct (Z.leb_spec (- 2 ^ 63) x); [| lia].
    destruct (Z.ltb_spec x (2 ^ 63)); [done | lia].
  - assert (a = 0) as -> by lia. change (2 ^ 0) with 1 in *.
    change (2 ^ (- 0)) with 1. rewrite !Z.mul_1_r.
    destruct (Z.leb_spec (- 2 ^ 63) x); [| lia].
    destruct (Z.ltb_spec x (2 ^ 63)); [done | lia].
Qed.

(** *** The ceiling of a rounded quotient *)

Lemma div_ceil (m1 m2 : positive) (a b x i : Z) :
  0 <= a -> 0 <= b ->
  Z.pos m1 = x * 2 ^ a -> Z.pos m2 = i * 2 ^ b ->
  Zdigits2 (Z.pos m1) - a <= 53 ->
  Zdigits2 (Z.pos m1) <= Zdigits2 (Z.pos m2) + 53 ->
  Zdigits2 (Z.pos m2) - b <= 1000 ->
  exists R e,
    float64.div (S754_finite false m1 (- a)) (S754_finite false m2 (- b))
    = pack R e
    /\ float64.ceil_int (pack R e) = ceil_div x i.
Proof.
  intros Ha Hb Hm1 Hm2 Hx Hd Hi.
  pose proof (Zdigits2_bounds (Z.pos m1) ltac:(lia)) as H1.
  pose proof (Zdigits2_bounds (Z.pos m2) ltac:(lia)) as H2.
  set (d1 := Zdigits2 (Z.pos m1)) in *. set (d2 := Zdigits2 (Z.pos m2)) in *.
  assert (0 < 2 ^ a) as HPa by (apply Z.pow_pos_nonneg; lia).
  assert (0 < 2 ^ b) as HPb by (apply Z.pow_pos_nonneg; lia).
  assert (1 <= x) as Hx1 by nia.
  assert (1 <= i) as Hi1 by nia.
  assert (a < d1) as Had.
  { apply (Z.pow_lt_mono_r_iff 2); [lia | subst d1; cbn; lia | nia]. }
  assert (b < d2) as Hbd.
  { apply (Z.pow_lt_mono_r_iff 2); [lia | subst d2; cbn; lia | nia]. }
  assert (i < 2 ^ (d2 - b)) as Hi2.
  { replace d2 with ((d2 - b) + b) in H2 at 2 by lia.
    rewrite Z.pow_add_r in H2 by lia. nia. }
  destruct (SFdiv_round m1 m2 (- a) (- b)) as (sh & R & Hsh & HR & HRb & ->);
    fold d1 d2; [lia | lia |].
  fold d1 d2 in HR.
  set (g := d1 + - a - (d2 + - b) - 53 + sh).
  assert (g <= 0) as Hg by lia.
  exists R, g. split; [done |].
  rewrite ceil_int_pack by lia.
  assert (0 < 2 ^ (- g)) as HT by (apply Z.pow_pos_nonneg; lia).
  assert (0 < 2 ^ (b + sh)) as HC by (apply Z.pow_pos_nonneg; lia).
  assert (R = round_half_even (x * 2 ^ (- g)) i) as ->.
  { rewrite HR, Hm1, Hm2.
    rewrite <- (round_half_even_cancel (x * 2 ^ (- g)) i (2 ^ (b + sh)))
      by lia.
    f_equal.
    - rewrite <- !Z.mul_assoc, <- !Z.pow_add_r by lia. do 2 f_equal. lia.
    - rewrite <- !Z.mul_assoc, <- !Z.pow_add_r by lia. done.
  }
  apply ceil_div_round; [lia .. |].
  assert (2 ^ (d2 - b) <= 2 ^ (1 + - g)) by (apply Z.pow_le_mono_r; lia).
  rewrite Z.pow_add_r in * by lia. change (2 ^ 1) with 2 in *. lia.
Qed.

Lemma ceil_pack (R e : Z) :
  float64.ceil (pack R e) = float64.of_int (float64.ceil_int (pack R e)).
Proof. unfold pack. by destruct (R <? 2 ^ 53). Qed.

(** The quotient of two Python [int]s, the dividend below [2^53]. *)
Lemma truediv_ceil (x i : Z) :
  1 <= x < 2 ^ 53 -> 1 <= i < 2 ^ 53 ->
  exists q,
    float64.truediv x i = Ok q
    /\ float64.ceil q = float64.of_int (ceil_div x i).
Proof.
  intros Hx Hi. unfold float64.truediv.
  destruct (Z.eqb_spec i 0); [lia |].
  pose proof (Zdigits2_le_53 x Hx). pose proof (Zdigits2_le_53 i Hi).
  destruct x as [| m1 |]; try lia. destruct i as [| m2 |]; try lia.
  cbn [float64.exact].
  destruct (div_ceil m1 m2 0 0 (Z.pos m1) (Z.pos m2))
    as (R & e & Hdiv & Hceil); try lia.
  change (- 0) with 0 in Hdiv. rewrite Hdiv.
  exists (pack R e). split.
  - unfold pack. by destruct (R <? 2 ^ 53).
  - by rewrite ceil_pack, Hceil.
Qed.

(** The quotient of two floats that hold integers. *)
Lemma div_of_int_ceil (x i : Z) :
  1 <= x < 2 ^ 53 -> 1 <= i < 2 ^ 53 ->
  float64.ceil (float64.div (float64.of_int x) (float64.of_int i))
  = float64.of_int (ceil_div x i).
Proof.
  intros Hx Hi.
  destruct (of_int_small_value x Hx) as (m1 & a & -> & Ha & Hm1 & Hd1).
  destruct (of_int_small_value i Hi) as (m2 & b & -> & Hb & Hm2 & Hd2).
  destruct (div_ceil m1 m2 a b x i) as (R & e & -> & Hceil); try lia.
  by rewrite ceil_pack, Hceil.
Qed.

(** A Python [int] divided by itself. *)
Lemma truediv_self (n : Z) :
  1 <= n -> float64.truediv n n = Ok (float64.of_int 1).
Proof.
  intros Hn. unfold float64.truediv.
  destruct (Z.eqb_spec n 0); [lia |].
  destruct n as [| p |]; try lia. cbn [float64.exact].
  destruct (SFdiv_round p p 0 0) as (sh & R & Hsh & HR & _ & ->); [lia .. |].
  replace (Zdigits2 (Z.pos p) + 53 - Zdigits2 (Z.pos p)) with 53 in HR by lia.
  assert (0 < 2 ^ sh) by (apply Z.pow_pos_nonneg; lia).
  rewrite (Z.mul_comm (Z.pos p) (2 ^ 53)), (Z.mul_comm (Z.pos p) (2 ^ sh)),
    round_half_even_cancel in HR by lia.
  replace (Zdigits2 (Z.pos p) + 0 - (Zdigits2 (Z.pos p) + 0) - 53 + sh)
    with (sh - 53) by lia.
  destruct Hsh as [-> | ->]; subst R; reflexivity.
Qed.

(** *** The ceiling of a rounded square root *)

Lemma ceil_sqrt_spec (m : Z) :
  1 <= m ->
  1 <= ceil_sqrt m
  /\ m <= ceil_sqrt m * ceil_sqrt m
  /\ (ceil_sqrt m - 1) * (ceil_sqrt m - 1) < m.
Proof.
  intros Hm. unfold ceil_sqrt.
  pose proof (Z.sqrt_spec m ltac:(lia)) as [Hlo Hhi].
  pose proof (Z.sqrt_nonneg m) as Hs.
  destruct (Z.eqb_spec (Z.sqrt m * Z.sqrt m) m) as [E | NE]; nia.
Qed.

Lemma ceil_sqrt_round (x T q r : Z) :
  1 <= x -> 0 < T -> ceil_sqrt x <= T ->
  0 <= q -> x * (T * T) = q * q + r -> 0 <= r <= 2 * q ->
  ceil_div (round_nearest_even q
              (if r =? 0 then loc_Exact
               else loc_Inexact (if r <=? q then Lt else Gt))) T
  = ceil_sqrt x.
Proof.
  intros Hx HT HCT Hq Hsq Hr.
  destruct (ceil_sqrt_spec x Hx) as (HC1 & Hhi & Hlo).
  set (C := ceil_sqrt x) in *.
  apply ceil_div_unique; [done |].
  assert ((C - 1) * T <= q) by nia.
  assert (q <= C * T) by nia.
  destruct (Z.eqb_spec r 0) as [Hr0 | Hr0]; cbn [round_nearest_even].
  - nia.
  - destruct (Z.leb_spec r q); cbn [round_nearest_even]; nia.
Qed.

Lemma sqrt_of_int_ceil (x : Z) :
  1 <= x < 2 ^ 52 ->
  float64.ceil (float64.sqrt (float64.of_int x))
  = float64.of_int (ceil_sqrt x).
Proof.
  intros Hx. rewrite of_int_small by lia.
  pose proof (mantissa_53 x ltac:(lia)) as Hm.
  pose proof (Zdigits2_bounds x ltac:(lia)) as Hd.
  set (d := Zdigits2 x) in *.
  assert (1 <= d <= 52) as Hd52.
  { split; [subst d; destruct x; cbn; lia |].
    destruct (Z.le_gt_cases d 52) as [| Hgt]; [done |].
    assert (2 ^ 52 <= 2 ^ (d - 1)) by (apply Z.pow_le_mono_r; lia). lia. }
  unfold float64.sqrt, SFsqrt, SFsqrt_core_binary.
  rewrite Z2Pos.id by lia.
  rewrite (Zdigits2_unique (x * 2 ^ (53 - d)) 53) by lia.
  rewrite !Z.div2_div.
  replace (53 + (d - 53) + 1) with (d + 1) by lia.
  set (h := (d + 1) / 2).
  assert (2 * h <= d + 1 <= 2 * h + 1) as Hh
    by (subst h; Z.div_mod_to_equations; lia).
  rewrite fexp_normal by lia.
  rewrite Z.min_l by (Z.div_mod_to_equations; lia).
  set (t := 53 - h).
  replace (d - 53 - 2 * (h - 53)) with (d + 53 - 2 * h) by lia.
  assert (match d + 53 - 2 * h with
          | 0 => x * 2 ^ (53 - d)
          | Z.pos _ => Z.shiftl (x * 2 ^ (53 - d)) (d + 53 - 2 * h)
          | Z.neg _ => 0
          end = x * (2 ^ t * 2 ^ t)) as ->.
  { destruct (d + 53 - 2 * h) as [| s | s] eqn:Hs; [lia | | lia].
    rewrite Z.shiftl_mul_pow2, <- Hs by lia.
    rewrite <- Z.mul_assoc, <- !Z.pow_add_r by lia. do 2 f_equal. lia. }
  assert (27 <= t <= 52) as Ht by lia.
  assert (2 ^ 27 <= 2 ^ t) as HT by (apply Z.pow_le_mono_r; lia).
  assert (2 ^ 104 <= x * (2 ^ t * 2 ^ t) < 2 ^ 106) as Hm'.
  { assert (x * (2 ^ t * 2 ^ t)
            = x * 2 ^ (53 - d) * 2 ^ (d + 53 - 2 * h)) as ->.
    { rewrite <- Z.mul_assoc, <- !Z.pow_add_r by lia. do 2 f_equal. lia. }
    assert (2 ^ 52 <= 2 ^ (d + 53 - 2 * h) <= 2 ^ 53) as HS
      by (split; apply Z.pow_le_mono_r; lia).
    change (2 ^ 104) with (2 ^ 52 * 2 ^ 52).
    change (2 ^ 106) with (2 ^ 53 * 2 ^ 53). nia. }
  pose proof (Z.sqrtrem_spec (x * (2 ^ t * 2 ^ t)) ltac:(lia)) as Hsr.
  pose proof (Z.sqrtrem_sqrt (x * (2 ^ t * 2 ^ t))) as Hsq.
  destruct (Z.sqrtrem (x * (2 ^ t * 2 ^ t))) as [q r].
  cbn [fst] in Hsq. destruct Hsr as [Hqr Hr].
  assert (2 ^ 52 <= q < 2 ^ 53) as Hq.
  { change (2 ^ 104) with (2 ^ 52 * 2 ^ 52) in Hm'.
    change (2 ^ 106) with (2 ^ 53 * 2 ^ 53) in Hm'.
    pose proof (Z.sqrt_nonneg (x * (2 ^ t * 2 ^ t))). rewrite <- Hsq in *. nia. }
  rewrite round_aux_53 by lia.
  match goal with |- context [round_nearest_even q ?l] =>
    pose proof (round_nearest_even_bounds q l) end.
  rewrite ceil_pack. f_equal.
  rewrite ceil_int_pack by lia.
  replace (- (h - 53)) with t by lia.
  apply ceil_sqrt_round; try lia.
  destruct (ceil_sqrt_spec x ltac:(lia)) as (HC1 & _ & Hlo).
  change (2 ^ 52) with (2 ^ 26 * 2 ^ 26) in Hx.
  change (2 ^ 27) with (2 * 2 ^ 26) in HT. nia.
Qed.

(** ** The planner *)

Lemma length_perturbations (base : list Q) (start n : nat) :
  length (flat_map (fun weight_index =>
                      map (modified_weights base weight_index)
                          INTERVAL_MULTIPLIERS)
                   (seq start n)) = (4 * n)%nat.
Proof.
  revert start. induction n as [| n IH]; intros start; [reflexivity |].
  cbn [seq flat_map]. rewrite length_app, IH. cbn [length map INTERVAL_MULTIPLIERS]. lia.
Qed.

Lemma length_create_weights (num_params : nat) :
  length (_create_weights num_params) = (1 + 4 * num_params)%nat.
Proof.
  unfold _create_weights. cbn [length]. rewrite length_perturbations. lia.
Qed.

Lemma length_planned_weights (count : Z) (weights : list (list Q)) :
  1 <= count ->
  Z.of_nat (length (planned_weights count weights))
  = Z.min count (Z.of_nat (length weights)).
Proof.
  intros Hc. unfold planned_weights, np.prefix.
  destruct (Z.ltb_spec count (Z.of_nat (length weights))) as [Hlt | Hge].
  - destruct (Z.leb_spec 0 count); [| lia]. rewrite length_take. lia.
  - lia.
Qed.

Lemma ceil_div_pos (a b : Z) : 0 < b -> 1 <= a -> 1 <= ceil_div a b.
Proof. intros Hb Ha. pose proof (ceil_div_spec a b Hb). nia. Qed.

Lemma ceil_div_le (a b : Z) : 1 <= b -> 1 <= a -> ceil_div a b <= a.
Proof. intros Hb Ha. pose proof (ceil_div_spec a b ltac:(lia)). nia. Qed.

Lemma ceil_sqrt_le (m : Z) : 1 <= m -> ceil_sqrt m <= m.
Proof. intros Hm. destruct (ceil_sqrt_spec m Hm) as (? & ? & ?). nia. Qed.

(** The three numbers of the planner for a count below [2^52], or for a
    count that is its own divisor: the floats hold the exact
    ceilings. *)
Lemma planner_numbers (count W : Z) :
  1 <= W <= count -> count < 2 ^ 52 \/ W = count ->
  exists quotient,
    float64.truediv count W = Ok quotient
    /\ float64.ceil quotient = float64.of_int (ceil_div count W)
    /\ float64.astype_int
         (float64.ceil (float64.sqrt (float64.of_int (ceil_div count W))))
       = ceil_sqrt (ceil_div count W)
    /\ float64.astype_int
         (float64.ceil
            (float64.div (float64.of_int (ceil_div count W))
               (float64.of_int (ceil_sqrt (ceil_div count W)))))
       = ceil_div (ceil_div count W) (ceil_sqrt (ceil_div count W)).
Proof.
  intros HW Hrange. set (ic := ceil_div count W).
  assert (1 <= ic < 2 ^ 52
          /\ exists q, float64.truediv count W = Ok q
                       /\ float64.ceil q = float64.of_int ic)
    as (Hic & q & Hq & Hceil).
  { destruct Hrange as [Hlt | ->].
    - pose proof (ceil_div_pos count W). pose proof (ceil_div_le count W).
      split; [subst ic; lia |].
      destruct (truediv_ceil count W) as (q & ? & ?); [lia | lia |]. eauto.
    - assert (ic = 1) as -> by (apply ceil_div_unique; lia).
      split; [lia |]. exists (float64.of_int 1).
      split; [apply truediv_self; lia | reflexivity]. }
  pose proof (ceil_sqrt_spec ic ltac:(lia)) as (Hs & _ & _).
  pose proof (ceil_sqrt_le ic ltac:(lia)).
  pose proof (ceil_div_pos ic (ceil_sqrt ic)).
  pose proof (ceil_div_le ic (ceil_sqrt ic)).
  exists q. split; [exact Hq |]. split; [exact Hceil |].
  rewrite sqrt_of_int_ceil, div_of_int_ceil by lia.
  split; apply astype_int_of_int; lia.
Qed.

(** The numbers [_initialize_params] computes there, by their bounds. *)
Lemma initialize_params_values (self : FractalImageGenerator) :
  1 <= _count self ->
  _weights self <> [] ->
  exact_range self ->
  exists self' ic,
    _initialize_params self = Ok self'
    /\ _count self' = _count self
    /\ _cpu_count self' = _cpu_count self
    /\ _iterations self' = _iterations self
    /\ _threshold self' = _threshold self
    /\ _weights self' = planned_weights (_count self) (_weights self)
    /\ 1 <= ic
    /\ (ic - 1) * Z.of_nat (length (_weights self')) < _count self
       <= ic * Z.of_nat (length (_weights self'))
    /\ _instances self' = ceil_sqrt ic
    /\ (_categories self' - 1) * _instances self' < ic
       <= _categories self' * _instances self'.
Proof.
  intros Hc Hw Hrange. unfold _initialize_params.
  pose proof (length_planned_weights _ (_weights self) Hc) as HW.
  assert (1 <= Z.of_nat (length (_weights self))) as HW1.
  { destruct (_weights self); [done | cbn [length]; lia]. }
  set (W := Z.of_nat (length (planned_weights (_count self) (_weights self))))
    in *.
  destruct (planner_numbers (_count self) W)
    as (q & Hq & Hceil & Hinst & Hcat);
    [lia | unfold exact_range in Hrange; lia |].
  rewrite Hq. cbn [mbind result_bind bind]. cbv zeta.
  rewrite Hceil, Hinst, Hcat.
  set (ic := ceil_div (_count self) W).
  assert (1 <= ic) as Hic by (apply ceil_div_pos; lia).
  destruct (ceil_sqrt_spec ic Hic) as (Hs & _ & _).
  eexists _, ic. split; [reflexivity |]. cbn. fold W.
  do 5 (split; [reflexivity |]). split; [exact Hic |].
  split; [apply ceil_div_spec; lia |].
  split; [reflexivity |]. apply ceil_div_spec; lia.
Qed.

Lemma initialize_params_planned (self : FractalImageGenerator) :
  1 <= _count self ->
  _weights self <> [] ->
  exact_range self ->
  exists self',
    _initialize_params self = Ok self'
    /\ _count self' = _count self
    /\ _cpu_count self' = _cpu_count self
    /\ _iterations self' = _iterations self
    /\ _threshold self' = _threshold self
    /\ _weights self' = planned_weights (_count self) (_weights self)
    /\ planned self'.
Proof.
  intros Hc Hw Hrange.
  destruct (initialize_params_values self Hc Hw Hrange)
    as (self' & ic & Hok & Hcount & Hcpu & Hit & Hthr & Hwe & Hic & Hbound
        & Hinst & Hcat).
  exists self'. do 6 (split; [assumption |]).
  pose proof (length_planned_weights _ (_weights self) Hc) as HW.
  rewrite <- Hwe in HW.
  assert (1 <= Z.of_nat (length (_weights self))) as HW1.
  { destruct (_weights self); [done | cbn [length]; lia]. }
  destruct (ceil_sqrt_spec ic Hic) as (Hs & _ & _).
  unfold planned. rewrite Hcount, Hinst in *.
  split; [lia |]. split; [lia |]. split; [nia |]. split; [lia |]. nia.
Qed.

(** ** [np.array_split] *)

Lemma length_split_sizes (Ntotal Nsections : nat) :
  (0 < Nsections)%nat -> length (split_sizes Ntotal Nsections) = Nsections.
Proof.
  intros Hk. unfold split_sizes.
  rewrite length_app, !length_replicate.
  pose proof (Nat.mod_upper_bound Ntotal Nsections ltac:(lia)). lia.
Qed.

Lemma sum_split_sizes (Ntotal Nsections : nat) :
  (0 < Nsections)%nat -> sum_list (split_sizes Ntotal Nsections) = Ntotal.
Proof.
  intros Hk. unfold split_sizes.
  rewrite sum_list_with_app, !sum_list_replicate.
  pose proof (Nat.mod_upper_bound Ntotal Nsections ltac:(lia)) as Hm.
  pose proof (Nat.div_mod_eq Ntotal Nsections) as Hd. nia.
Qed.

Lemma split_sizes_balanced (Ntotal Nsections s : nat) :
  s ∈ split_sizes Ntotal Nsections ->
  s = (Ntotal / Nsections)%nat \/ s = S (Ntotal / Nsections).
Proof.
  unfold split_sizes. rewrite elem_of_app.
  intros [H | H]; apply elem_of_replicate in H as [-> _]; auto.
Qed.

Lemma slices_reshape {A} (ary : list A) (acc : nat) (sizes : list nat) :
  map (fun i => np.slice (nth i (acc :: np.cumsum_from acc sizes) 0%nat)
                         (nth (S i) (acc :: np.cumsum_from acc sizes) 0%nat)
                         ary)
      (seq 0 (length sizes))
  = reshape sizes (drop acc ary).
Proof.
  revert acc. induction sizes as [| s sizes IH]; intros acc; [reflexivity |].
  cbn [length seq map reshape np.cumsum_from]. f_equal.
  - unfold np.slice. cbn [nth]. f_equal. lia.
  - rewrite <- seq_shift, map_map, drop_drop, <- IH.
    apply map_ext. intros i. reflexivity.
Qed.

Lemma array_split_reshape {A} (ary : list A) (k : Z) :
  0 < k ->
  np.array_split ary k
  = Ok (reshape (split_sizes (length ary) (Z.to_nat k)) ary).
Proof.
  intros Hk. unfold np.array_split.
  destruct (Z.ltb_spec 0 k); [| lia]. f_equal.
  pose proof (slices_reshape ary 0
                (split_sizes (length ary) (Z.to_nat k))) as Hs.
  rewrite length_split_sizes in Hs by lia. exact Hs.
Qed.

Lemma concat_reshape {A} (sizes : list nat) (l : list A) :
  concat (reshape sizes l) = take (sum_list sizes) l.
Proof.
  revert l. induction sizes as [| s sizes IH]; intros l; cbn.
  - by rewrite take_0.
  - by rewrite IH, take_take_drop.
Qed.

Lemma lengths_reshape {A} (sizes : list nat) (l : list A) :
  (sum_list sizes <= length l)%nat ->
  map length (reshape sizes l) = sizes.
Proof.
  revert l. induction sizes as [| s sizes IH]; intros l Hl; cbn in *.
  - reflexivity.
  - rewrite length_take, IH by (rewrite length_drop; lia). f_equal. lia.
Qed.

(** ** The job list and its batches *)

Lemma length_repeat {A} (a : list A) (k : nat) :
  length (np.repeat a k) = (length a * k)%nat.
Proof.
  unfold np.repeat. induction a as [| x a IH]; cbn; [reflexivity |].
  rewrite length_app, length_replicate, IH. lia.
Qed.

Lemma length_tile {A} (a : list A) (c : nat) :
  length (np.tile a c) = (c * length a)%nat.
Proof.
  unfold np.tile. induction c as [| c IH]; cbn; [reflexivity |].
  rewrite length_app, IH. lia.
Qed.

Lemma length_prefix {A} (n : Z) (a : list A) :
  0 <= n <= Z.of_nat (length a) -> Z.of_nat (length (np.prefix n a)) = n.
Proof.
  intros Hn. unfold np.prefix. destruct (Z.leb_spec 0 n); [| lia].
  rewrite length_take. lia.
Qed.

Lemma length_repeated_params {P} (self : FractalImageGenerator)
    (params : list P) :
  planned self ->
  length params = Z.to_nat (_categories self) ->
  Z.of_nat (length (repeated_params self params)) = _count self.
Proof.
  intros (Hc & Hi & Hk & Hw & Hn) Hp. unfold repeated_params.
  apply length_prefix. rewrite length_repeat, Hp. nia.
Qed.

Lemma length_weight_per_img (self : FractalImageGenerator) :
  planned self ->
  Z.of_nat (length (weight_per_img self)) = _count self.
Proof.
  intros (Hc & Hi & Hk & Hw & Hn). unfold weight_per_img.
  apply length_prefix. rewrite length_tile, length_repeat. nia.
Qed.

Lemma zip3_app {A B C} (la la' : list A) (lb lb' : list B) (lc lc' : list C) :
  length la = length lb -> length la = length lc ->
  zip3 (la ++ la') (lb ++ lb') (lc ++ lc')
  = zip3 la lb lc ++ zip3 la' lb' lc'.
Proof.
  revert lb lc. induction la as [| a la IH]; intros [| b lb] [| c lc];
    cbn; intros Hb Hc; try discriminate; [reflexivity |].
  f_equal. apply IH; congruence.
Qed.

Lemma length_zip3 {A B C} (la : list A) (lb : list B) (lc : list C) :
  length la = length lb -> length la = length lc ->
  length (zip3 la lb lc) = length la.
Proof.
  revert lb lc. induction la as [| a la IH]; intros [| b lb] [| c lc];
    cbn; intros Hb Hc; try discriminate; [reflexivity |].
  f_equal. apply IH; congruence.
Qed.

Lemma fst_zip3 {A B C} (la : list A) (lb : list B) (lc : list C) :
  length la = length lb -> length la = length lc ->
  map (fun j => j.1.1) (zip3 la lb lc) = la.
Proof.
  revert lb lc. induction la as [| a la IH]; intros [| b lb] [| c lc];
    cbn; intros Hb Hc; try discriminate; [reflexivity |].
  f_equal. apply IH; congruence.
Qed.

(** All jobs of the batches cut from two arrays by the same sizes, in
    batch order, are the jobs of the uncut arrays. *)
Lemma concat_batch_jobs {P W} (sizes : list nat) (offset : nat)
    (ps : list P) (ws : list W) :
  (sum_list sizes <= length ps)%nat ->
  (sum_list sizes <= length ws)%nat ->
  concat (map batch_jobs
            (index_batches offset (zip (reshape sizes ps) (reshape sizes ws))))
  = zip3 (seq offset (sum_list sizes))
         (take (sum_list sizes) ps) (take (sum_list sizes) ws).
Proof.
  revert offset ps ws.
  induction sizes as [| s sizes IH]; intros offset ps ws Hp Hw.
  - reflexivity.
  - cbn in Hp, Hw.
    cbn [reshape zip zip_with index_batches map concat batch_jobs].
    rewrite IH by (rewrite length_drop; lia).
    rewrite length_take, Nat.min_l by lia.
    change (sum_list (s :: sizes)) with (s + sum_list sizes)%nat.
    rewrite seq_app, <- !take_take_drop.
    rewrite zip3_app; [reflexivity | |];
      rewrite length_seq, length_take; lia.
Qed.

Lemma generation_params_reshape {P} (self : FractalImageGenerator)
    (params : list P) :
  planned self ->
  1 <= _cpu_count self ->
  length params = Z.to_nat (_categories self) ->
  generation_params self params
  = Ok (index_batches 0
          (zip (reshape (split_sizes (Z.to_nat (_count self))
                           (Z.to_nat (Z.min (_cpu_count self) (_count self))))
                  (repeated_params self params))
               (reshape (split_sizes (Z.to_nat (_count self))
                           (Z.to_nat (Z.min (_cpu_count self) (_count self))))
                  (weight_per_img self)))).
Proof.
  intros Hpl Hcpu Hp. unfold generation_params.
  pose proof (length_repeated_params self params Hpl Hp) as Hrp.
  pose proof (length_weight_per_img self Hpl) as Hw.
  destruct Hpl as (Hc & _).
  rewrite bool_decide_eq_true_2 by (split; assumption).
  rewrite !array_split_reshape by lia. cbn.
  replace (length (repeated_params self params))
    with (Z.to_nat (_count self)) by lia.
  replace (length (weight_per_img self))
    with (Z.to_nat (_count self)) by lia.
  reflexivity.
Qed.

Lemma all_jobs_zip3 {P} (self : FractalImageGenerator) (params : list P) :
  planned self ->
  1 <= _cpu_count self ->
  length params = Z.to_nat (_categories self) ->
  all_jobs self params
  = Ok (zip3 (seq 0 (Z.to_nat (_count self)))
             (repeated_params self params) (weight_per_img self)).
Proof.
  intros Hpl Hcpu Hp. unfold all_jobs.
  rewrite generation_params_reshape by assumption. cbn.
  pose proof (length_repeated_params self params Hpl Hp) as Hrp.
  pose proof (length_weight_per_img self Hpl) as Hw.
  destruct Hpl as (Hc & _).
  assert (sum_list (split_sizes (Z.to_nat (_count self))
                      (Z.to_nat (Z.min (_cpu_count self) (_count self))))
          = Z.to_nat (_count self)) as Hsum
    by (apply sum_split_sizes; lia).
  rewrite concat_batch_jobs by lia. rewrite Hsum.
  rewrite !firstn_all2 by lia. reflexivity.
Qed.

Lemma length_index_batches {P W} (offset : nat)
    (per_proc : list (list P * list W)) :
  length (index_batches offset per_proc) = length per_proc.
Proof.
  revert offset. induction per_proc as [| [p w] rest IH]; intros offset;
    cbn; auto.
Qed.

Lemma batch_sizes {P W} (sizes : list nat) (offset : nat)
    (ps : list P) (ws : list W) :
  (sum_list sizes <= length ps)%nat ->
  (sum_list sizes <= length ws)%nat ->
  map (fun b => length (batch_jobs b))
      (index_batches offset (zip (reshape sizes ps) (reshape sizes ws)))
  = sizes.
Proof.
  revert offset ps ws.
  induction sizes as [| s sizes IH]; intros offset ps ws Hp Hw.
  - reflexivity.
  - cbn in Hp, Hw.
    cbn [reshape zip zip_with index_batches map batch_jobs].
    rewrite IH by (rewrite length_drop; lia). f_equal.
    rewrite length_zip3; rewrite ?length_seq, ?length_take; lia.
Qed.

Lemma batch_params_concat {P W} (sizes : list nat) (offset : nat)
    (ps : list P) (ws : list W) :
  (sum_list sizes <= length ps)%nat ->
  (sum_list sizes <= length ws)%nat ->
  concat (map (fun b => b.1.1)
            (index_batches offset (zip (reshape sizes ps) (reshape sizes ws))))
  = take (sum_list sizes) ps
  /\ concat (map (fun b => b.1.2)
            (index_batches offset (zip (reshape sizes ps) (reshape sizes ws))))
  = take (sum_list sizes) ws.
Proof.
  revert offset ps ws.
  induction sizes as [| s sizes IH]; intros offset ps ws Hp Hw.
  - cbn. by rewrite !take_0.
  - cbn in Hp, Hw.
    cbn [reshape zip zip_with index_batches map concat fst snd].
    destruct (IH (offset + length (take s ps))%nat (drop s ps) (drop s ws))
      as [-> ->]; [rewrite length_drop; lia .. |].
    change (sum_list (s :: sizes)) with (s + sum_list sizes)%nat.
    by rewrite !take_take_drop.
Qed.

Lemma lookup_zip3 {A B C} (la : list A) (lb : list B) (lc : list C)
    (k : nat) (a : A) (b : B) (c : C) :
  zip3 la lb lc !! k = Some (a, b, c) ->
  la !! k = Some a /\ lb !! k = Some b /\ lc !! k = Some c.
Proof.
  revert la lb lc.
  induction k as [| k IH]; intros [| a0 la] [| b0 lb] [| c0 lc];
    cbn; try discriminate.
  - intros [= -> -> ->]. auto.
  - apply IH.
Qed.

(** C1.  For a planned generator (count N > 0) the partitioning step
    yields exactly N jobs; their global indices are 0, 1, ..., N-1, each
    the position of its job in the truncated job list; and the job list
    is the same for every number of workers. *)
Theorem partition_assigns_indices {P} (self : FractalImageGenerator)
    (params : list P) :
  planned self ->
  1 <= _cpu_count self ->
  length params = Z.to_nat (_categories self) ->
  exists jobs,
    all_jobs self params = Ok jobs
    /\ Z.of_nat (length jobs) = _count self
    /\ map (fun j => j.1.1) jobs = seq 0 (Z.to_nat (_count self))
    /\ (forall k i p w, jobs !! k = Some (i, p, w) ->
          i = k
          /\ repeated_params self params !! k = Some p
          /\ weight_per_img self !! k = Some w)
    /\ (forall cpus, 1 <= cpus ->
          all_jobs (with_cpu_count self cpus) params = Ok jobs).
Proof.
  intros Hpl Hcpu Hp.
  pose proof (length_repeated_params self params Hpl Hp) as Hrp.
  pose proof (length_weight_per_img self Hpl) as Hw.
  eexists. split; [apply all_jobs_zip3; assumption |].
  split; [rewrite length_zip3; rewrite length_seq; lia |].
  split; [apply fst_zip3; rewrite length_seq; lia |].
  split.
  - intros k i p w Hk. apply lookup_zip3 in Hk as (Hi & Hps & Hws).
    apply lookup_seq in Hi. split; [lia | auto].
  - intros cpus Hcpus.
    apply (all_jobs_zip3 (with_cpu_count self cpus) params);
      [exact Hpl | exact Hcpus | exact Hp].
Qed.

(** C5.  The truncated job list is cut into exactly
    min(worker count, N) batches; the sizes of any two batches differ by
    at most one; and the batches, concatenated in batch order, give back
    the truncated job list (and its two arrays) exactly. *)
Theorem batches_balanced_in_order {P} (self : FractalImageGenerator)
    (params : list P) :
  planned self ->
  1 <= _cpu_count self ->
  length params = Z.to_nat (_categories self) ->
  exists batches,
    generation_params self params = Ok batches
    /\ Z.of_nat (length batches) = Z.min (_cpu_count self) (_count self)
    /\ (forall b1 b2, b1 ∈ batches -> b2 ∈ batches ->
          (length (batch_jobs b1) <= S (length (batch_jobs b2)))%nat)
    /\ concat (map batch_jobs batches)
       = zip3 (seq 0 (Z.to_nat (_count self)))
              (repeated_params self params) (weight_per_img self)
    /\ concat (map (fun b => b.1.1) batches) = repeated_params self params
    /\ concat (map (fun b => b.1.2) batches) = weight_per_img self.
Proof.
  intros Hpl Hcpu Hp.
  pose proof (length_repeated_params self params Hpl Hp) as Hrp.
  pose proof (length_weight_per_img self Hpl) as Hw.
  pose proof Hpl as (Hc & _).
  set (k := Z.to_nat (Z.min (_cpu_count self) (_count self))).
  set (sizes := split_sizes (Z.to_nat (_count self)) k).
  assert (sum_list sizes = Z.to_nat (_count self)) as Hsum
    by (apply sum_split_sizes; lia).
  eexists. split; [apply generation_params_reshape; assumption |].
  fold k sizes. split; [| split; [| split]].
  - rewrite length_index_batches, length_zip, !length_reshape.
    unfold sizes. rewrite length_split_sizes by lia. lia.
  - intros b1 b2 H1 H2.
    assert (forall b,
              b ∈ index_batches 0 (zip (reshape sizes
                                          (repeated_params self params))
                                       (reshape sizes (weight_per_img self)))
              -> length (batch_jobs b) ∈ sizes) as Hin.
    { intros b Hb.
      apply (list_elem_of_fmap_2 (fun b => length (batch_jobs b))) in Hb.
      change (@fmap list _ _ _ ?f ?l) with (map f l) in Hb.
      rewrite batch_sizes in Hb by lia. exact Hb. }
    apply Hin, split_sizes_balanced in H1, H2. lia.
  - rewrite concat_batch_jobs by lia. rewrite Hsum.
    rewrite !firstn_all2 by lia. reflexivity.
  - destruct (batch_params_concat sizes 0 (repeated_params self params)
                (weight_per_img self)) as [-> ->]; [lia .. |].
    rewrite Hsum, !firstn_all2 by lia. auto.
Qed.

(** C2.  The invariant fails for a count that binary64 cannot hold.
    With 250000000000000025 = 25 * (10^16 + 1) images requested, the
    quotient 10^16 + 1 of line 179 is rounded to 10^16, and the
    constructor returns a generator with 10^8 categories of 10^8
    instances and 25 weight vectors: a capacity 25 short of the
    count. *)
Theorem planner_under_provisions :
  exists self env,
    __init__ model_env "out" huge_count [64; 48] (Some "models")
    = Ok (self, env)
    /\ _count self = huge_count
    /\ length (_weights self) = 25%nat
    /\ _instances self = 10 ^ 8
    /\ _categories self = 10 ^ 8
    /\ _categories self * _instances self
       * Z.of_nat (length (_weights self)) = _count self - 25.
Proof. vm_compute. eexists _, _. repeat split. Qed.

(** ** The attractor sampler *)

Section Sampler.
Context `{U : Utils}.
Variable self : FractalImageGenerator.
Variables base_h base_w : Z.

Lemma sample_loop_unfold (fuel : nat) (st : locals) :
  sample_loop (S fuel) self base_h base_w st
  = if loop_guard self st
    then st ← pass self base_h base_w st; sample_loop fuel self base_h base_w st
    else Ok st.
Proof.
  cbn [sample_loop]. destruct (loop_guard self st); [| reflexivity].
  unfold pass.
  destruct (sample_candidate self (l_rng st) base_h base_w)
    as [[[params pixels] r] | e]; reflexivity.
Qed.

Lemma length_draw_uniforms (n : nat) (r : rng) :
  length (draw_uniforms n r).1 = n.
Proof.
  revert r. induction n as [| n IH]; intros r; cbn; [reflexivity |].
  destruct (uniform (-1) 1 r) as [u r1].
  specialize (IH r1). destruct (draw_uniforms n r1) as [us r2].
  cbn in *. congruence.
Qed.

Lemma fill_params_ok (n : nat) (r : rng) (s0 : Q) :
  exists rows s r',
    fill_params n r s0 = Ok (rows, s, r')
    /\ length rows = n
    /\ Forall row_ok rows
    /\ (s == s0 + Qsum (selection_weights rows))%Q.
Proof.
  revert r s0. induction n as [| n IH]; intros r s0.
  - exists [], s0, r. cbn. repeat split; [constructor | ring].
  - cbn [fill_params].
    pose proof (length_draw_uniforms NUM_PARAMS r) as Hlen.
    destruct (draw_uniforms NUM_PARAMS r) as [us r1]. cbn in Hlen.
    destruct us as [| a [| b [| c [| d [| e [| f [| ? ?]]]]]]];
      try discriminate.
    destruct (IH r1 (s0 + Qabs (a * d - b * c))%Q)
      as (rows & s & r' & -> & Hl & Hrows & Hs).
    exists ([a; b; c; d; e; f; Qabs (a * d - b * c)] :: rows), s, r'.
    split; [reflexivity |].
    split; [cbn [length]; by rewrite Hl |]. split.
    + constructor; [| exact Hrows]. by exists a, b, c, d, e, f.
    + change (selection_weights
                ([a; b; c; d; e; f; Qabs (a * d - b * c)] :: rows))
        with (Qabs (a * d - b * c) :: selection_weights rows).
      cbn [Qsum]. rewrite Hs. ring.
Qed.

Lemma sample_candidate_ok (r : rng) :
  base_h * base_w <> 0 ->
  exists rows s r1 img r2,
    sample_candidate self r base_h base_w
    = Ok (normalize s rows,
          (inject_Z (np.count_nonzero img) / inject_Z (base_h * base_w))%Q,
          r2)
    /\ (2 <= Z.of_nat (length rows) <= 7)
    /\ Forall row_ok rows
    /\ (s == (1 # 100000) + Qsum (selection_weights rows))%Q
    /\ _generate_image r1 (normalize s rows) (_num_of_points self)
         base_h base_w true None = (img, r2).
Proof.
  intros Hbase. unfold sample_candidate.
  pose proof (randint_range 2 7 r ltac:(lia)) as Hsize.
  destruct (randint 2 7 r) as [param_size r0]. cbn in Hsize.
  destruct (Z.leb_spec 0 param_size); [| lia].
  destruct (fill_params_ok (Z.to_nat param_size) r0 (1 # 100000)%Q)
    as (rows & s & r1 & -> & Hl & Hrows & Hs). cbn.
  destruct (_generate_image r1 (normalize s rows) (_num_of_points self)
              base_h base_w true None) as [img r2] eqn:Himg.
  destruct (Z.eqb_spec (base_h * base_w) 0); [contradiction |]. cbn.
  exists rows, s, r1, img, r2. repeat split; try assumption; lia.
Qed.

Lemma pass_ok (st : locals) :
  base_h * base_w <> 0 ->
  exists st', pass self base_h base_w st = Ok st' /\ l_i st' = l_i st + 1
              /\ is_Some (l_params st').
Proof.
  intros Hbase. unfold pass.
  destruct (sample_candidate_ok (l_rng st) Hbase)
    as (rows & s & r1 & img & r2 & -> & _). cbn.
  eexists. repeat split. cbn. eauto.
Qed.

(** The loop stops by its own guard within the fuel [self._iterations]
    gives it: it makes [m] passes, every state before the last one
    satisfies the guard and the last one does not. *)
Lemma sample_loop_spec (fuel : nat) (st : locals) :
  base_h * base_w <> 0 ->
  l_i st + Z.of_nat fuel = _iterations self ->
  exists m st',
    (m <= fuel)%nat
    /\ passes self base_h base_w m st = Ok st'
    /\ sample_loop fuel self base_h base_w st = Ok st'
    /\ loop_guard self st' = false
    /\ l_i st' = l_i st + Z.of_nat m
    /\ (forall j st_j, (j < m)%nat -> passes self base_h base_w j st = Ok st_j ->
          loop_guard self st_j = true).
Proof.
  intros Hbase. revert st.
  induction fuel as [| fuel IH]; intros st Hi.
  - exists 0%nat, st. cbn. repeat split; try lia.
    unfold loop_guard. destruct (Z.ltb_spec (l_i st) (_iterations self));
      [lia | apply andb_false_r].
  - rewrite sample_loop_unfold.
    destruct (loop_guard self st) eqn:Hg.
    + destruct (pass_ok st Hbase) as (st1 & Hpass & Hi1 & _).
      destruct (IH st1 ltac:(lia)) as (m & st' & Hm & Hp & Hl & Hg' & Hi' & Hbefore).
      exists (S m), st'. cbn [passes]. rewrite Hpass. cbn.
      repeat split; try assumption; try lia.
      intros [| j] st_j Hj; cbn [passes].
      * intros [= <-]. exact Hg.
      * rewrite Hpass. cbn. apply Hbefore. lia.
    + exists 0%nat, st. cbn. repeat split; try assumption; try lia.
Qed.

End Sampler.

Section SamplerResults.
Context `{U : Utils}.
Variable self : FractalImageGenerator.
Variables base_h base_w : Z.

Lemma Qltb_lt (x y : Q) : Qltb x y = true <-> (x < y)%Q.
Proof.
  unfold Qltb. rewrite negb_true_iff, <- not_true_iff_false, Qle_bool_iff.
  split; [apply Qnot_le_lt | apply Qlt_not_le].
Qed.

Lemma loop_guard_true (st : locals) :
  loop_guard self st = true
  <-> (l_pixels st < _threshold self)%Q /\ l_i st < _iterations self.
Proof.
  unfold loop_guard. rewrite andb_true_iff, Qltb_lt, Z.ltb_lt. tauto.
Qed.

Lemma loop_guard_false (st : locals) :
  loop_guard self st = false
  <-> (_threshold self <= l_pixels st)%Q \/ _iterations self <= l_i st.
Proof.
  rewrite <- not_true_iff_false, loop_guard_true. split.
  - intros Hn. destruct (Qlt_le_dec (l_pixels st) (_threshold self));
      [right | left; assumption].
    destruct (Z_lt_le_dec (l_i st) (_iterations self)); [tauto | assumption].
  - intros [Hq | Hi] [Hlt Hlt'];
      [exact (Qlt_not_le _ _ Hlt Hq) | lia].
Qed.

Lemma passes_snoc (m : nat) (st : locals) :
  passes self base_h base_w (S m) st
  = (st' ← passes self base_h base_w m st; pass self base_h base_w st').
Proof.
  revert st. induction m as [| m IH]; intros st.
  - cbn. destruct (pass self base_h base_w st); reflexivity.
  - change (passes self base_h base_w (S (S m)) st)
      with (st1 ← pass self base_h base_w st;
            passes self base_h base_w (S m) st1).
    change (passes self base_h base_w (S m) st)
      with (st1 ← pass self base_h base_w st;
            passes self base_h base_w m st1).
    destruct (pass self base_h base_w st) as [st1 | e]; [| reflexivity].
    apply IH.
Qed.

(** What a pass leaves in the local variables. *)
Lemma pass_inv (st st' : locals) :
  base_h * base_w <> 0 ->
  pass self base_h base_w st = Ok st' ->
  exists rows s img,
    l_params st' = Some (normalize s rows)
    /\ l_pixels st'
       = (inject_Z (np.count_nonzero img) / inject_Z (base_h * base_w))%Q
    /\ l_i st' = l_i st + 1
    /\ 2 <= Z.of_nat (length rows) <= 7
    /\ Forall row_ok rows
    /\ (s == (1 # 100000) + Qsum (selection_weights rows))%Q.
Proof.
  intros Hbase. unfold pass.
  destruct (sample_candidate_ok self base_h base_w (l_rng st) Hbase)
    as (rows & s & r1 & img & r2 & -> & Hlen & Hrows & Hs & _). cbn.
  intros [= <-]. exists rows, s, img. cbn. repeat split; auto; lia.
Qed.

Lemma passes_last (m : nat) (st st' : locals) :
  passes self base_h base_w (S m) st = Ok st' ->
  exists st0, passes self base_h base_w m st = Ok st0
              /\ pass self base_h base_w st0 = Ok st'.
Proof.
  rewrite passes_snoc.
  destruct (passes self base_h base_w m st) as [st0 | e]; cbn;
    [eauto | discriminate].
Qed.

(** The sampler's result: the parameters left by the loop's last pass. *)
Lemma generate_category_spec (r : rng) :
  base_h * base_w <> 0 ->
  (-1 < _threshold self)%Q ->
  0 < _iterations self ->
  exists m st params,
    Z.of_nat (S m) <= _iterations self
    /\ passes self base_h base_w (S m) (initial_locals r) = Ok st
    /\ l_params st = Some params
    /\ _generate_category self r base_h base_w = Ok params
    /\ loop_guard self st = false
    /\ l_i st = Z.of_nat (S m)
    /\ (forall j st_j, (j <= m)%nat ->
          passes self base_h base_w j (initial_locals r) = Ok st_j ->
          loop_guard self st_j = true).
Proof.
  intros Hbase Hthr Hit.
  destruct (sample_loop_spec self base_h base_w
              (Z.to_nat (_iterations self)) (initial_locals r) Hbase)
    as (m & st & Hm & Hp & Hl & Hg & Hi & Hbefore); [cbn; lia |].
  destruct m as [| m].
  { cbn in Hp. injection Hp as <-.
    apply loop_guard_false in Hg. cbn in Hg.
    destruct Hg as [Hg | Hg]; [| lia].
    exfalso. exact (Qlt_not_le _ _ Hthr Hg). }
  destruct (passes_last m _ _ Hp) as (st0 & _ & Hpass).
  destruct (pass_inv st0 st Hbase Hpass) as (rows & s & img & Hpar & _).
  exists m, st, (normalize s rows).
  split; [lia |]. split; [exact Hp |]. split; [exact Hpar |].
  split; [| split; [exact Hg | split; [exact Hi |]]].
  - unfold _generate_category. rewrite Hl. cbn. by rewrite Hpar.
  - intros j st_j Hj. apply Hbefore. lia.
Qed.

End SamplerResults.

(** ** The small implementation, symbolically *)

Section ToyFacts.
Variable u : Z -> Q.
Variable lit : Z -> nat.
#[local] Instance toy_random : RandomGen := Toy.scripted u.
#[local] Instance toy_utils : Utils := Toy.utils u lit.

Lemma toy_generate_image (r : Z) (params : list (list Q))
    (iterations height width : Z) (draw_point : bool)
    (weight : option (list Q)) :
  _generate_image r params iterations height width draw_point weight
  = ([replicate (lit (r + iterations)) 1], r + iterations).
Proof.
  unfold _generate_image.
  assert (forall f : Toy.toy_ifs,
            Toy.t_rng (foldl (fun f param =>
                            add_param (take NUM_PARAMS param)
                              (nth NUM_PARAMS param 0%Q) weight f)
                         f params) = Toy.t_rng f) as Hrng.
  { induction params as [| p params IH]; intros f; [reflexivity |].
    cbn [foldl]. rewrite IH. reflexivity. }
  cbn [draw calculate ifs_rng IFSFunction toy_utils Toy.utils Toy.t_rng].
  rewrite Hrng. reflexivity.
Qed.

Lemma count_nonzero_lit (k : nat) :
  np.count_nonzero [replicate k 1] = Z.of_nat k.
Proof.
  unfold np.count_nonzero. f_equal. cbn [concat]. rewrite app_nil_r.
  induction k as [| k IH]; [reflexivity |].
  cbn [replicate]. rewrite filter_cons_True by lia.
  cbn [length]. by rewrite IH.
Qed.

Lemma draw_uniforms_mid (k : nat) (n : Z) :
  (forall j, n <= j -> u j = (1 # 2)%Q) ->
  draw_uniforms k n = (replicate k Toy.mid, n + Z.of_nat k).
Proof.
  revert n. induction k as [| k IH]; intros n Hu.
  - cbn. f_equal. lia.
  - cbn [draw_uniforms].
    change (@uniform toy_random (-1) 1 n)
      with ((-1 + (1 - -1) * u n)%Q, n + 1).
    rewrite Hu by lia. rewrite IH by (intros j Hj; apply Hu; lia).
    cbn [replicate]. fold Toy.mid. f_equal. lia.
Qed.

Lemma fill_params_mid (n : Z) :
  (forall j, n <= j -> u j = (1 # 2)%Q) ->
  fill_params 2 n (1 # 100000)%Q = Ok (Toy.flat_rows, Toy.flat_sum, n + 12).
Proof.
  intros Hu. cbn [fill_params].
  rewrite (draw_uniforms_mid NUM_PARAMS n Hu).
  cbn [replicate NUM_PARAMS].
  rewrite (draw_uniforms_mid NUM_PARAMS (n + Z.of_nat NUM_PARAMS))
    by (intros j Hj; apply Hu; lia).
  cbn [replicate NUM_PARAMS mbind result_bind bind].
  unfold Toy.flat_rows, Toy.flat_sum. do 2 f_equal. unfold NUM_PARAMS. lia.
Qed.

Lemma sample_candidate_mid (self : FractalImageGenerator) (n : Z) :
  (forall j, n <= j -> u j = (1 # 2)%Q) ->
  sample_candidate self n 512 512
  = Ok (normalize Toy.flat_sum Toy.flat_rows,
        (inject_Z (Z.of_nat (lit (n + 13 + _num_of_points self)))
         / inject_Z (512 * 512))%Q,
        n + 13 + _num_of_points self).
Proof.
  intros Hu. unfold sample_candidate.
  change (@randint toy_random 2 7 n) with (2, n + 1).
  cbn [Z.leb Z.compare Z.to_nat Pos.to_nat Pos.iter_op Nat.add].
  rewrite fill_params_mid by (intros j Hj; apply Hu; lia).
  cbn [mbind result_bind bind].
  rewrite toy_generate_image, count_nonzero_lit.
  change (512 * 512 =? 0) with false. cbn [negb].
  replace (n + 1 + 12) with (n + 13) by lia. reflexivity.
Qed.

End ToyFacts.

(** ** The sparse run *)

Section SparseRun.
#[local] Existing Instance Sparse.random.
#[local] Existing Instance Sparse.utils.

Lemma sparse_pass_first : pass fifty 512 512 (initial_locals (Random 0)) = Ok Sparse.first.
Proof. vm_compute. reflexivity. Qed.

Lemma sparse_pass_late (st : locals) (k : nat) :
  l_rng st = 100013 * Z.of_nat k ->
  l_i st = Z.of_nat k ->
  (1 <= k)%nat ->
  pass fifty 512 512 st = Ok (Sparse.late (S k)).
Proof.
  intros Hr Hi Hk. unfold pass.
  assert (sample_candidate fifty (l_rng st) 512 512
          = Ok (normalize Toy.flat_sum Toy.flat_rows,
                (inject_Z (Z.of_nat (Sparse.lit (l_rng st + 13 + _num_of_points fifty)))
                 / inject_Z (512 * 512))%Q,
                l_rng st + 13 + _num_of_points fifty)) as ->.
  { apply (sample_candidate_mid Sparse.u Sparse.lit fifty (l_rng st)).
    intros j Hj. unfold Sparse.u. destruct (Z.eqb_spec j 1); [lia | reflexivity]. }
  cbn [mbind result_bind bind]. unfold Sparse.late. rewrite Hr, Hi.
  change (_num_of_points fifty) with 100000.
  replace (Sparse.lit (100013 * Z.of_nat k + 13 + 100000)) with 0%nat.
  - do 2 f_equal; lia.
  - unfold Sparse.lit.
    destruct (Z.leb_spec (100013 * Z.of_nat k + 13 + 100000) 100013);
      [lia | reflexivity].
Qed.

Lemma sparse_passes_late (m : nat) :
  passes fifty 512 512 (S (S m)) (initial_locals (Random 0))
  = Ok (Sparse.late (S (S m))).
Proof.
  induction m as [| m IH].
  - cbn [passes]. rewrite sparse_pass_first. cbn [mbind result_bind bind].
    rewrite (sparse_pass_late Sparse.first 1); [reflexivity | reflexivity | reflexivity | lia].
  - rewrite passes_snoc, IH. cbn [mbind result_bind bind].
    apply sparse_pass_late; [reflexivity | reflexivity | lia].
Qed.

Lemma sparse_below_threshold (j : nat) (st : locals) :
  (1 <= j)%nat ->
  passes fifty 512 512 j (initial_locals (Random 0)) = Ok st ->
  (l_pixels st < _threshold fifty)%Q.
Proof.
  intros Hj. destruct j as [| [| j]]; [lia | |].
  - cbn [passes]. rewrite sparse_pass_first. intros [= <-]. reflexivity.
  - rewrite sparse_passes_late. intros [= <-]. reflexivity.
Qed.

(** The run goes to the cap and returns the candidate of the last
    pass. *)
Lemma generate_category_sparse :
  _generate_category fifty (Random 0) 512 512
  = Ok (normalize Toy.flat_sum Toy.flat_rows).
Proof.
  destruct (generate_category_spec fifty 512 512 (Random 0))
    as (m & st & params & Hm & Hp & Hpar & Hres & Hg & Hi & _);
    [lia | reflexivity | reflexivity |].
  rewrite Hres. f_equal.
  destruct m as [| m].
  - exfalso. apply loop_guard_false in Hg.
    pose proof (sparse_below_threshold 1 st ltac:(lia) Hp) as Hlt.
    destruct Hg as [Hg | Hg]; [exact (Qlt_not_le _ _ Hlt Hg) |].
    rewrite Hi in Hg. change (_iterations fifty) with 200000 in Hg. lia.
  - rewrite sparse_passes_late in Hp. injection Hp as <-.
    unfold Sparse.late in Hpar. cbn [l_params] in Hpar.
    injection Hpar as <-. reflexivity.
Qed.

End SparseRun.

Section SamplerClaims.
Context `{U : Utils}.
Variable self : FractalImageGenerator.

(** On the 512 x 512 canvas of the sampler a pixel fraction is never
    equal to the threshold 0.2, so "not below" and "above" coincide. *)
Lemma fraction_above_threshold (c : Z) :
  ((2 # 10) <= inject_Z c / inject_Z (512 * 512))%Q ->
  ((2 # 10) < inject_Z c / inject_Z (512 * 512))%Q.
Proof.
  unfold Qle, Qlt, Qdiv, Qmult, Qinv, inject_Z. cbn [Qnum Qden].
  change (512 * 512) with 262144. cbn [Qnum Qden]. lia.
Qed.

(** C4.  With the threshold 0.2 and a positive attempt cap, the sampler
    returns without raising after m candidates, 1 <= m <= cap: every
    candidate before the m-th is below the threshold, and the m-th,
    which is returned, is above the threshold or else is the candidate
    of the last permitted attempt. *)
Theorem sampler_stops_within_cap (r : rng) :
  _threshold self = (2 # 10)%Q ->
  0 < _iterations self ->
  exists (m : nat) (st : locals) (params : list (list Q)),
    1 <= Z.of_nat m <= _iterations self
    /\ passes self 512 512 m (initial_locals r) = Ok st
    /\ l_params st = Some params
    /\ _generate_category self r 512 512 = Ok params
    /\ (forall j st_j, (1 <= j < m)%nat ->
          passes self 512 512 j (initial_locals r) = Ok st_j ->
          (l_pixels st_j < _threshold self)%Q)
    /\ ((_threshold self < l_pixels st)%Q
        \/ (Z.of_nat m = _iterations self
            /\ (l_pixels st < _threshold self)%Q)).
Proof.
  intros Hthr Hit.
  destruct (generate_category_spec self 512 512 r)
    as (m & st & params & Hm & Hp & Hpar & Hres & Hg & Hi & Hbefore);
    [lia | rewrite Hthr; reflexivity | exact Hit |].
  exists (S m), st, params.
  split; [lia |]. split; [exact Hp |]. split; [exact Hpar |].
  split; [exact Hres |]. split.
  - intros j st_j Hj Hpj.
    apply (loop_guard_true self), (Hbefore j st_j); [lia | exact Hpj].
  - destruct (passes_last self 512 512 m _ _ Hp) as (st0 & _ & Hpass).
    destruct (pass_inv self 512 512 st0 st ltac:(lia) Hpass)
      as (_ & _ & img & _ & Hpx & _).
    destruct (Qlt_le_dec (l_pixels st) (_threshold self)) as [Hlt | Hge].
    + right. split; [| exact Hlt].
      apply loop_guard_false in Hg. destruct Hg as [Hg | Hg]; [| lia].
      exfalso. exact (Qlt_not_le _ _ Hlt Hg).
    + left. rewrite Hthr in *. rewrite Hpx in *.
      apply fraction_above_threshold, Hge.
Qed.

Lemma sample_candidate_inv (r r' : rng) (base_h base_w : Z)
    (params : list (list Q)) (pixels : Q) :
  sample_candidate self r base_h base_w = Ok (params, pixels, r') ->
  candidate params.
Proof.
  unfold sample_candidate.
  destruct (randint 2 7 r) as [param_size r0].
  destruct (0 <=? param_size); [| discriminate].
  destruct (fill_params_ok (Z.to_nat param_size) r0 (1 # 100000)%Q)
    as (rows & s & r1 & -> & _ & Hrows & Hs). cbn [mbind result_bind bind].
  destruct (_generate_image r1 (normalize s rows) (_num_of_points self)
              base_h base_w true None) as [img r2].
  destruct (negb (base_h * base_w =? 0)); [| discriminate].
  intros [= <- _ _]. exists rows, s. auto.
Qed.

Lemma sample_loop_candidate (fuel : nat) (base_h base_w : Z)
    (st st' : locals) :
  sample_loop fuel self base_h base_w st = Ok st' ->
  (forall p, l_params st = Some p -> candidate p) ->
  forall p, l_params st' = Some p -> candidate p.
Proof.
  revert st. induction fuel as [| fuel IH]; intros st.
  - intros [= <-]. auto.
  - cbn [sample_loop]. destruct (loop_guard self st); [| intros [= <-]; auto].
    destruct (sample_candidate self (l_rng st) base_h base_w)
      as [[[params pixels] r'] | e] eqn:Hc; [| discriminate].
    cbn [mbind result_bind bind]. intros Hloop _.
    apply (IH _ Hloop). cbn. intros p [= <-].
    exact (sample_candidate_inv _ _ _ _ _ _ Hc).
Qed.

Lemma Qsum_nonneg (l : list Q) :
  Forall (fun x => (0 <= x)%Q) l -> (0 <= Qsum l)%Q.
Proof.
  induction 1 as [| x l Hx _ IH]; cbn; [apply Qle_refl |].
  change 0%Q with (0 + 0)%Q. by apply Qplus_le_compat.
Qed.

Lemma normalized_rows (s : Q) (rows : list (list Q)) :
  Forall row_ok rows ->
  map area_factor (normalize s rows) = selection_weights rows
  /\ selection_weights (normalize s rows)
     = map (fun prob => (prob / s)%Q) (selection_weights rows)
  /\ Forall (fun x => (0 <= x)%Q) (selection_weights rows).
Proof.
  induction 1 as [| row rows (a & b & c & d & e & f & ->) _ (IH1 & IH2 & IH3)].
  - repeat split; constructor.
  - unfold normalize, selection_weights in *.
    cbn [map]. rewrite IH1, IH2. repeat split.
    constructor; [apply Qabs_nonneg | exact IH3].
Qed.

Lemma Qsum_scaled (s : Q) (l : list Q) :
  (Qsum (map (fun x => x / s) l) == Qsum l / s)%Q.
Proof.
  induction l as [| x l IH]; cbn [map Qsum].
  - unfold Qdiv. ring.
  - rewrite IH. unfold Qdiv. ring.
Qed.

(** C6 (as the code has it).  For every parameter array the sampler
    returns, with S the sum of the area factors |a d - b c| of its maps:
    every selection weight is non-negative, and the weights sum to
    S / (S + 0.00001), which is below 1 (and is 0 when S is 0). *)
Theorem selection_weights_normalized (r : rng) (base_h base_w : Z)
    (params : list (list Q)) :
  _generate_category self r base_h base_w = Ok params ->
  (0 <= Qsum (map area_factor params))%Q
  /\ Forall (fun w => (0 <= w)%Q) (selection_weights params)
  /\ (Qsum (selection_weights params)
      == Qsum (map area_factor params)
         / (Qsum (map area_factor params) + (1 # 100000)))%Q
  /\ (Qsum (selection_weights params) < 1)%Q.
Proof.
  unfold _generate_category.
  destruct (sample_loop (Z.to_nat (_iterations self)) self base_h base_w
              (initial_locals r)) as [st | e] eqn:Hloop; [| discriminate].
  cbn [mbind result_bind bind].
  destruct (l_params st) as [p |] eqn:Hpar; [| discriminate].
  intros [= <-].
  destruct (sample_loop_candidate _ _ _ _ _ Hloop) with (p := p)
    as (rows & s & -> & Hrows & Hs); [discriminate | exact Hpar |].
  destruct (normalized_rows s rows Hrows) as (-> & -> & Hpos).
  pose proof (Qsum_nonneg _ Hpos) as HS.
  set (S := Qsum (selection_weights rows)) in *.
  assert (0 < s)%Q as Hspos.
  { rewrite Hs. apply Qlt_le_trans with (1 # 100000)%Q; [reflexivity |].
    rewrite <- (Qplus_0_r (1 # 100000)) at 1.
    apply Qplus_le_compat; [apply Qle_refl | exact HS]. }
  assert (s == S + (1 # 100000))%Q as Hs' by (rewrite Hs; ring).
  split; [exact HS |]. split; [| split].
  - apply Forall_forall. intros w Hw.
    apply list_elem_of_fmap in Hw as (prob & -> & Hprob).
    rewrite Forall_forall in Hpos.
    apply Qle_shift_div_l; [exact Hspos |].
    rewrite Qmult_0_l. apply Hpos, Hprob.
  - rewrite Qsum_scaled. fold S. by rewrite Hs'.
  - rewrite Qsum_scaled. fold S.
    apply Qlt_shift_div_r; [exact Hspos |].
    rewrite Qmult_1_l, Hs'.
    rewrite <- (Qplus_0_r S) at 1.
    apply Qplus_lt_r. reflexivity.
Qed.

(** C7 (as the code has it).  When no candidate up to the attempt cap
    reaches the threshold, the sampler makes exactly cap passes and
    returns the parameters of the last one; the parameter array is all
    it returns. *)
Theorem exhausted_sampler_returns_last (r : rng) :
  _threshold self = (2 # 10)%Q ->
  0 < _iterations self ->
  (forall j st_j, (1 <= j)%nat -> Z.of_nat j <= _iterations self ->
     passes self 512 512 j (initial_locals r) = Ok st_j ->
     (l_pixels st_j < _threshold self)%Q) ->
  exists st params,
    passes self 512 512 (Z.to_nat (_iterations self)) (initial_locals r)
    = Ok st
    /\ l_params st = Some params
    /\ _generate_category self r 512 512 = Ok params.
Proof.
  intros Hthr Hit Hbelow.
  destruct (generate_category_spec self 512 512 r)
    as (m & st & params & Hm & Hp & Hpar & Hres & Hg & Hi & _);
    [lia | rewrite Hthr; reflexivity | exact Hit |].
  exists st, params.
  assert (Z.to_nat (_iterations self) = S m) as ->.
  { apply loop_guard_false in Hg. destruct Hg as [Hg | Hg]; [| lia].
    exfalso. apply (Qlt_not_le _ _ (Hbelow (S m) st ltac:(lia) Hm Hp)), Hg. }
  auto.
Qed.

End SamplerClaims.

(** *** The sampler on the sparse run *)

Lemma sampler_stops_within_cap_witness :
  _threshold fifty = (2 # 10)%Q
  /\ 0 < _iterations fifty
  /\ exists (m : nat) (st : @locals Sparse.random)
            (params : list (list Q)),
       1 <= Z.of_nat m <= _iterations fifty
       /\ @passes Sparse.random Sparse.utils fifty 512 512 m
            (initial_locals (@Random Sparse.random 0)) = Ok st
       /\ l_params st = Some params
       /\ @_generate_category Sparse.random Sparse.utils fifty
            (@Random Sparse.random 0)
            512 512 = Ok params
       /\ (forall j st_j, (1 <= j < m)%nat ->
             @passes Sparse.random Sparse.utils fifty 512 512 j
               (initial_locals (@Random Sparse.random 0)) = Ok st_j ->
             (l_pixels st_j < _threshold fifty)%Q)
       /\ ((_threshold fifty < l_pixels st)%Q
           \/ (Z.of_nat m = _iterations fifty
               /\ (l_pixels st < _threshold fifty)%Q)).
Proof.
  split; [reflexivity |]. split; [reflexivity |].
  apply (@sampler_stops_within_cap Sparse.random Sparse.utils fifty (@Random Sparse.random 0));
    reflexivity.
Defined.

Lemma selection_weights_normalized_witness :
  @_generate_category Sparse.random Sparse.utils fifty (@Random Sparse.random 0) 512 512
  = Ok (normalize Toy.flat_sum Toy.flat_rows)
  /\ (0 <= Qsum (map area_factor (normalize Toy.flat_sum Toy.flat_rows)))%Q
  /\ Forall (fun w => (0 <= w)%Q)
       (selection_weights (normalize Toy.flat_sum Toy.flat_rows))
  /\ (Qsum (selection_weights (normalize Toy.flat_sum Toy.flat_rows))
      == Qsum (map area_factor (normalize Toy.flat_sum Toy.flat_rows))
         / (Qsum (map area_factor (normalize Toy.flat_sum Toy.flat_rows))
            + (1 # 100000)))%Q
  /\ (Qsum (selection_weights (normalize Toy.flat_sum Toy.flat_rows)) < 1)%Q.
Proof.
  split; [exact generate_category_sparse |].
  exact (@selection_weights_normalized Sparse.random Sparse.utils
           fifty (@Random Sparse.random 0) 512 512 _ generate_category_sparse).
Defined.

(** C6 as stated fails: the sampler returns, at the cap, two maps with
    singular linear parts; their selection weights are both 0, so the
    sum is 0 and not 1. *)
Lemma selection_weights_sum_to_zero :
  exists params,
    @_generate_category Sparse.random Sparse.utils fifty (@Random Sparse.random 0) 512 512
    = Ok params
    /\ Forall (fun w => (w == 0)%Q) (selection_weights params)
    /\ (Qsum (selection_weights params) == 0)%Q
    /\ (1 # 2 < Qabs (Qsum (selection_weights params) - 1))%Q.
Proof.
  exists (normalize Toy.flat_sum Toy.flat_rows).
  split; [exact generate_category_sparse |].
  split; [repeat constructor |].
  split; vm_compute; reflexivity.
Qed.

Lemma exhausted_sampler_returns_last_witness :
  _threshold fifty = (2 # 10)%Q
  /\ 0 < _iterations fifty
  /\ (forall j st_j, (1 <= j)%nat -> Z.of_nat j <= _iterations fifty ->
        @passes Sparse.random Sparse.utils fifty 512 512 j
          (initial_locals (@Random Sparse.random 0)) = Ok st_j ->
        (l_pixels st_j < _threshold fifty)%Q)
  /\ exists st params,
       @passes Sparse.random Sparse.utils fifty 512 512
         (Z.to_nat (_iterations fifty)) (initial_locals (@Random Sparse.random 0)) = Ok st
       /\ l_params st = Some params
       /\ @_generate_category Sparse.random Sparse.utils fifty
            (@Random Sparse.random 0)
            512 512 = Ok params.
Proof.
  assert (forall j st_j, (1 <= j)%nat ->
            Z.of_nat j <= _iterations fifty ->
            @passes Sparse.random Sparse.utils fifty 512 512 j
              (initial_locals (@Random Sparse.random 0)) = Ok st_j ->
            (l_pixels st_j < _threshold fifty)%Q) as Hbelow.
  { intros j st_j Hj _. exact (sparse_below_threshold j st_j Hj). }
  split; [reflexivity |]. split; [reflexivity |]. split; [exact Hbelow |].
  exact (@exhausted_sampler_returns_last Sparse.random Sparse.utils
           fifty (@Random Sparse.random 0) eq_refl eq_refl Hbelow).
Defined.

(** C7 as stated fails: in the sparse run no candidate reaches the
    threshold; the first candidate lights more pixels than the last
    one, and the sampler returns the last one, not the first. *)
Lemma exhausted_sampler_skips_best :
  exists (st_first st_last : @locals Sparse.random)
         (best params : list (list Q)),
    @passes Sparse.random Sparse.utils fifty 512 512 1
      (initial_locals (@Random Sparse.random 0)) = Ok st_first
    /\ @passes Sparse.random Sparse.utils fifty 512 512
         (Z.to_nat (_iterations fifty)) (initial_locals (@Random Sparse.random 0))
       = Ok st_last
    /\ (forall j st_j, (1 <= j)%nat ->
          @passes Sparse.random Sparse.utils fifty 512 512 j
            (initial_locals (@Random Sparse.random 0)) = Ok st_j ->
          (l_pixels st_j < _threshold fifty)%Q)
    /\ l_params st_first = Some best
    /\ l_params st_last = Some params
    /\ (l_pixels st_last < l_pixels st_first)%Q
    /\ @_generate_category Sparse.random Sparse.utils fifty
            (@Random Sparse.random 0)
         512 512 = Ok params
    /\ params <> best.
Proof.
  exists Sparse.first, (Sparse.late (S (S (Z.to_nat 199998)))).
  eexists _, (normalize Toy.flat_sum Toy.flat_rows).
  split; [cbn [passes]; rewrite sparse_pass_first; reflexivity |].
  split.
  { replace (Z.to_nat (_iterations fifty))
      with (S (S (Z.to_nat 199998))) by (cbn [_iterations fifty]; lia).
    apply sparse_passes_late. }
  split; [exact sparse_below_threshold |].
  split; [reflexivity |]. split; [reflexivity |]. split; [reflexivity |].
  split; [exact generate_category_sparse |].
  vm_compute. discriminate.
Qed.

(** *** The partitioning of the run of 50 images *)

Lemma fifty_planned : planned fifty.
Proof. unfold planned. cbn. lia. Qed.

Lemma partition_assigns_indices_witness :
  planned fifty
  /\ 1 <= _cpu_count fifty
  /\ length [normalize Toy.flat_sum Toy.flat_rows]
     = Z.to_nat (_categories fifty)
  /\ exists jobs,
       all_jobs fifty [normalize Toy.flat_sum Toy.flat_rows] = Ok jobs
       /\ Z.of_nat (length jobs) = _count fifty
       /\ map (fun j => j.1.1) jobs = seq 0 (Z.to_nat (_count fifty))
       /\ (forall k i p w, jobs !! k = Some (i, p, w) ->
             i = k
             /\ repeated_params fifty
                  [normalize Toy.flat_sum Toy.flat_rows] !! k = Some p
             /\ weight_per_img fifty !! k = Some w)
       /\ (forall cpus, 1 <= cpus ->
             all_jobs (with_cpu_count fifty cpus)
               [normalize Toy.flat_sum Toy.flat_rows] = Ok jobs).
Proof.
  assert (1 <= _cpu_count fifty) as Hcpu by (cbn; lia).
  split; [exact fifty_planned |]. split; [exact Hcpu |].
  split; [reflexivity |].
  exact (partition_assigns_indices fifty
           [normalize Toy.flat_sum Toy.flat_rows]
           fifty_planned Hcpu eq_refl).
Defined.

Lemma batches_balanced_in_order_witness :
  planned fifty
  /\ 1 <= _cpu_count fifty
  /\ length [normalize Toy.flat_sum Toy.flat_rows]
     = Z.to_nat (_categories fifty)
  /\ exists batches,
       generation_params fifty [normalize Toy.flat_sum Toy.flat_rows]
       = Ok batches
       /\ Z.of_nat (length batches)
          = Z.min (_cpu_count fifty) (_count fifty)
       /\ (forall b1 b2, b1 ∈ batches -> b2 ∈ batches ->
             (length (batch_jobs b1) <= S (length (batch_jobs b2)))%nat)
       /\ concat (map batch_jobs batches)
          = zip3 (seq 0 (Z.to_nat (_count fifty)))
                 (repeated_params fifty
                    [normalize Toy.flat_sum Toy.flat_rows])
                 (weight_per_img fifty)
       /\ concat (map (fun b => b.1.1) batches)
          = repeated_params fifty
              [normalize Toy.flat_sum Toy.flat_rows]
       /\ concat (map (fun b => b.1.2) batches)
          = weight_per_img fifty.
Proof.
  assert (1 <= _cpu_count fifty) as Hcpu by (cbn; lia).
  split; [exact fifty_planned |]. split; [exact Hcpu |].
  split; [reflexivity |].
  exact (batches_balanced_in_order fifty
           [normalize Toy.flat_sum Toy.flat_rows]
           fifty_planned Hcpu eq_refl).
Defined.

(** ** Batch synthesis *)

Section BatchClaims.
Context `{U : Utils}.

Lemma generate_image_batch_map (self : FractalImageGenerator)
    (params : list (list (list Q))) (weights : list (list Q))
    (indices : list nat) :
  _generate_image_batch self params weights indices
  = map (render_job self) (zip3 indices params weights).
Proof.
  unfold _generate_image_batch. apply map_ext. intros [[i p] w]. reflexivity.
Qed.

Lemma concat_rendered (self : FractalImageGenerator)
    (batches : list (list (list (list Q)) * list (list Q) * list nat)) :
  concat (map (fun '(param, w, indices) =>
                 _generate_image_batch self param w indices) batches)
  = map (render_job self) (concat (map batch_jobs batches)).
Proof.
  induction batches as [| [[ps ws] idxs] batches IH]; [reflexivity |].
  cbn [map concat batch_jobs]. rewrite map_app, IH, generate_image_batch_map.
  reflexivity.
Qed.

Lemma generate_batches_map (self : FractalImageGenerator)
    (params : list (list (list Q))) :
  planned self ->
  1 <= _cpu_count self ->
  length params = Z.to_nat (_categories self) ->
  generate_batches self params
  = Ok (map (render_job self)
          (zip3 (seq 0 (Z.to_nat (_count self)))
                (repeated_params self params) (weight_per_img self))).
Proof.
  intros Hpl Hcpu Hp.
  pose proof (all_jobs_zip3 self params Hpl Hcpu Hp) as Hjobs.
  unfold all_jobs, generate_batches in *.
  destruct (generation_params self params) as [batches | e];
    [| discriminate].
  cbn [mbind result_bind bind] in *. injection Hjobs as Hjobs.
  by rewrite concat_rendered, Hjobs.
Qed.

(** C3.  Every raster of a run is the synthesis seeded with the global
    index of its job, applied to the parameters and the weight vector
    the job list holds at that index; it is a function of these alone,
    and the rendered images of the run are the same for every number of
    workers. *)
Theorem raster_fixed_by_global_index (self : FractalImageGenerator)
    (params : list (list (list Q))) :
  planned self ->
  1 <= _cpu_count self ->
  length params = Z.to_nat (_categories self) ->
  exists images,
    generate_batches self params = Ok images
    /\ (forall r, r ∈ images ->
          exists p w,
            repeated_params self params !! r_index r = Some p
            /\ weight_per_img self !! r_index r = Some w
            /\ r_image r
               = (_generate_image (Random (Z.of_nat (r_index r))) p
                    (_iterations self) (_height self) (_width self)
                    false (Some w)).1)
    /\ (forall cpus, 1 <= cpus ->
          generate_batches (with_cpu_count self cpus) params = Ok images).
Proof.
  intros Hpl Hcpu Hp.
  eexists. split; [apply generate_batches_map; assumption |]. split.
  - intros r Hr. apply list_elem_of_fmap in Hr as ([[i p] w] & -> & Hj).
    apply list_elem_of_lookup in Hj as (k & Hk).
    apply lookup_zip3 in Hk as (Hi & Hps & Hws).
    apply lookup_seq in Hi as [Hi _]. cbn in Hi. subst k.
    exists p, w. cbn. auto.
  - intros cpus Hcpus.
    exact (generate_batches_map (with_cpu_count self cpus) params
             Hpl Hcpus Hp).
Qed.

(** C8 (as the code has it).  The image a batch saves for a job is the
    augmentation run on a generator newly seeded with the job's global
    index, the seed the synthesis of that job started from. *)
Theorem augment_reseeds_from_index (self : FractalImageGenerator)
    (params : list (list (list Q))) (weights : list (list Q))
    (indices : list nat) (r : rendered) :
  r ∈ _generate_image_batch self params weights indices ->
  r_index r ∈ indices
  /\ r_saved r
     = augment (Random (Z.of_nat (r_index r)))
         (colorize (r_image r) (readNetFromCaffe (_model_dir self)))
         background_colors
  /\ exists param w,
       r_image r
       = (_generate_image (Random (Z.of_nat (r_index r))) param
            (_iterations self) (_height self) (_width self)
            false (Some w)).1.
Proof.
  rewrite generate_image_batch_map.
  intros Hr. apply list_elem_of_fmap in Hr as ([[i p] w] & -> & Hj).
  apply list_elem_of_lookup in Hj as (k & Hk).
  apply lookup_zip3 in Hk as (Hi & _ & _).
  cbn. split; [apply list_elem_of_lookup; eauto |].
  split; [reflexivity | eauto].
Qed.

End BatchClaims.

(** *** Batch synthesis of the run of 50 images *)

Section SparseBatches.
#[local] Existing Instance Sparse.random.
#[local] Existing Instance Sparse.utils.

Lemma raster_fixed_by_global_index_witness :
  planned fifty
  /\ 1 <= _cpu_count fifty
  /\ length [normalize Toy.flat_sum Toy.flat_rows]
     = Z.to_nat (_categories fifty)
  /\ exists images,
       generate_batches fifty [normalize Toy.flat_sum Toy.flat_rows]
       = Ok images
       /\ (forall r, r ∈ images ->
             exists p w,
               repeated_params fifty
                 [normalize Toy.flat_sum Toy.flat_rows] !! r_index r = Some p
               /\ weight_per_img fifty !! r_index r = Some w
               /\ r_image r
                  = (_generate_image (Random (Z.of_nat (r_index r))) p
                       (_iterations fifty) (_height fifty)
                       (_width fifty) false (Some w)).1)
       /\ (forall cpus, 1 <= cpus ->
             generate_batches (with_cpu_count fifty cpus)
               [normalize Toy.flat_sum Toy.flat_rows] = Ok images).
Proof.
  assert (1 <= _cpu_count fifty) as Hcpu by (cbn; lia).
  split; [exact fifty_planned |]. split; [exact Hcpu |].
  split; [reflexivity |].
  exact (raster_fixed_by_global_index fifty
           [normalize Toy.flat_sum Toy.flat_rows]
           fifty_planned Hcpu eq_refl).
Defined.

Lemma augment_reseeds_from_index_witness :
  render_job fifty first_job
    ∈ _generate_image_batch fifty
        [first_job.1.2] [first_job.2] [first_job.1.1]
  /\ r_index (render_job fifty first_job) ∈ [first_job.1.1]
  /\ r_saved (render_job fifty first_job)
     = augment
         (Random (Z.of_nat (r_index (render_job fifty first_job))))
         (colorize (r_image (render_job fifty first_job))
            (readNetFromCaffe (_model_dir fifty)))
         background_colors
  /\ exists param w,
       r_image (render_job fifty first_job)
       = (_generate_image
            (Random (Z.of_nat (r_index (render_job fifty first_job))))
            param (_iterations fifty) (_height fifty)
            (_width fifty) false (Some w)).1.
Proof.
  assert (render_job fifty first_job
            ∈ _generate_image_batch fifty
                [first_job.1.2] [first_job.2] [first_job.1.1]) as Hin.
  { rewrite generate_image_batch_map. apply list_elem_of_here. }
  split; [exact Hin |].
  exact (augment_reseeds_from_index fifty _ _ _ _ Hin).
Defined.

(** C8 as stated fails: for the first job the batch saves the image on
    the background the generator selects at the start of stream 0; had
    the augmentation continued the stream of the synthesis, the
    background 200000 draws later would have been selected. *)
Lemma augment_does_not_continue_stream :
  exists r,
    _generate_image_batch fifty
      [first_job.1.2] [first_job.2] [first_job.1.1] = [r]
    /\ r_index r = 0%nat
    /\ r_saved r = (r_image r, [0; 0; 0]%Q)
    /\ augment_continuing_stream fifty first_job
       = (r_image r, [128; 128; 128]%Q)
    /\ r_saved r <> augment_continuing_stream fifty first_job.
Proof.
  eexists. split; [reflexivity |]. split; [reflexivity |].
  split; [reflexivity |]. split; [reflexivity |].
  vm_compute. discriminate.
Qed.

End SparseBatches.

(** ** The constructor *)

Lemma init_shape_irrelevant (env : os_env) (output_dir : string) (count : Z)
    (model_path : option string) (h w h' w' : Z) :
  is_ok (__init__ env output_dir count [h; w] model_path)
  = is_ok (__init__ env output_dir count [h'; w'] model_path).
Proof.
  unfold __init__.
  destruct (0 <? count); [| reflexivity].
  destruct (cpu_count env) as [c |]; [| reflexivity].
  cbn [mbind result_bind bind].
  destruct (_download_colorization_model env _) as [env' | e];
    [| reflexivity].
  cbn [mbind result_bind bind]. unfold _initialize_params.
  cbn [_count _weights].
  destruct (float64.truediv count _) as [q | e]; reflexivity.
Qed.

(** C9 (as the code has it).  A count N <= 0 makes the constructor fail
    at its first statement, with an [AssertionError], whatever the other
    arguments and the environment are.  The height and the width are not
    examined: whether the constructor succeeds does not depend on
    them. *)
Theorem init_rejects_count_only (env : os_env) (output_dir : string)
    (count : Z) (shape : list Z) (model_path : option string) :
  (count <= 0 ->
   __init__ env output_dir count shape model_path
   = Raise (AssertionError "Image count cannot be lesser than 1"))
  /\ (forall h w h' w',
        is_ok (__init__ env output_dir count [h; w] model_path)
        = is_ok (__init__ env output_dir count [h'; w'] model_path)).
Proof.
  split.
  - intros Hc. unfold __init__.
    destruct (Z.ltb_spec 0 count); [lia | reflexivity].
  - intros h w h' w'. apply init_shape_irrelevant.
Qed.

Lemma init_rejects_count_only_witness :
  -5 <= 0
  /\ __init__ model_env "out" (-5) [64; 48] (Some "models")
     = Raise (AssertionError "Image count cannot be lesser than 1")
  /\ is_ok (__init__ model_env "out" 1 [64; 48] (Some "models"))
     = is_ok (__init__ model_env "out" 1 [0; -3] (Some "models")).
Proof.
  split; [lia |]. split.
  - apply (proj1 (init_rejects_count_only model_env "out" (-5) [64; 48]
                    (Some "models"))). lia.
  - apply (proj2 (init_rejects_count_only model_env "out" 1 [64; 48]
                    (Some "models"))).
Defined.

(** C9 as stated fails: with one image requested, a height of 0 and a
    width of -3 the constructor succeeds and keeps both values. *)
Lemma init_accepts_nonpositive_shape :
  exists self env,
    __init__ model_env "out" 1 [0; -3] (Some "models") = Ok (self, env)
    /\ _height self = 0
    /\ _width self = -3
    /\ _count self = 1.
Proof.
  vm_compute. eexists _, _. repeat split.
Qed.

(** ** [Converter.patch] *)

Section Patch.
Context `{C : Converter dataset retval}.

Lemma staged_lookup (save_dir tmpdir p : string) (fs : filesystem) :
  p <> tmpdir ->
  copymode save_dir tmpdir (mkdtemp tmpdir fs) !! p = fs !! p.
Proof.
  intros Hp. unfold copymode, mkdtemp.
  destruct (<[tmpdir:=_]> fs !! save_dir).
  - rewrite lookup_alter_ne by congruence. by rewrite lookup_insert_ne.
  - by rewrite lookup_insert_ne.
Qed.

(** C10.  When [save_dir] is a directory, [tmpdir] is the new name
    [mkdtemp] picked, and the conversion into [tmpdir] raises, [patch]
    raises the same exception and leaves the file system as it found
    it: [save_dir] holds what it held and the temporary directory is
    gone. *)
Theorem patch_failure_keeps_save_dir (ds : dataset)
    (save_dir tmpdir : string) (fs fs_c : filesystem) (e : exn) :
  is_Some (fs !! save_dir) ->
  fs !! tmpdir = None ->
  convert ds tmpdir (copymode save_dir tmpdir (mkdtemp tmpdir fs))
  = (fs_c, Raise e) ->
  exists fs',
    patch ds save_dir tmpdir fs = (fs', Raise e)
    /\ fs' !! save_dir = fs !! save_dir
    /\ fs' !! tmpdir = None
    /\ fs' = fs.
Proof.
  intros [d Hd] Hfresh Hconv.
  exists (rmtree tmpdir fs_c).
  assert (rmtree tmpdir fs_c = fs) as Hfs.
  { apply map_eq. intros p. unfold rmtree.
    destruct (decide (p = tmpdir)) as [-> | Hp].
    - by rewrite lookup_delete_eq.
    - rewrite lookup_delete_ne by congruence.
      pose proof (convert_frame ds tmpdir
                    (copymode save_dir tmpdir (mkdtemp tmpdir fs)) p Hp)
        as Hframe.
      rewrite Hconv in Hframe. cbn in Hframe.
      by rewrite Hframe, staged_lookup. }
  split.
  - unfold patch. rewrite Hd, Hconv. reflexivity.
  - rewrite Hfs. auto.
Qed.

End Patch.

Lemma patch_failure_keeps_save_dir_witness :
  is_Some (exported !! "/data/voc")
  /\ exported !! "/data/vocx1.tmp" = None
  /\ @convert _ _ failing_converter tt "/data/vocx1.tmp"
       (copymode "/data/voc" "/data/vocx1.tmp"
          (mkdtemp "/data/vocx1.tmp" exported))
     = (<["/data/vocx1.tmp" := half_written]>
          (copymode "/data/voc" "/data/vocx1.tmp"
             (mkdtemp "/data/vocx1.tmp" exported)),
        Raise (ConversionError "cannot export item"))
  /\ exists fs',
       @patch _ _ failing_converter tt "/data/voc" "/data/vocx1.tmp" exported
       = (fs', Raise (ConversionError "cannot export item"))
       /\ fs' !! "/data/voc" = exported !! "/data/voc"
       /\ fs' !! "/data/vocx1.tmp" = None
       /\ fs' = exported.
Proof.
  assert (is_Some (exported !! "/data/voc")) as Hdir
    by (eexists; reflexivity).
  assert (exported !! "/data/vocx1.tmp" = None) as Hfresh by reflexivity.
  split; [exact Hdir |]. split; [exact Hfresh |]. split; [reflexivity |].
  exact (@patch_failure_keeps_save_dir _ _ failing_converter tt
           "/data/voc" "/data/vocx1.tmp" exported _ _ Hdir Hfresh eq_refl).
Defined.

(** ** The whole run *)

(** What [__init__] hands to [generate_dataset]. *)
Lemma init_planned (env env' : os_env) (output_dir : string) (count : Z)
    (shape : list Z) (model_path : option string)
    (self : FractalImageGenerator) :
  count < 2 ^ 52 ->
  __init__ env output_dir count shape model_path = Ok (self, env') ->
  planned self
  /\ _count self = count
  /\ _threshold self = (2 # 10)%Q
  /\ _iterations self = 200000
  /\ (forall c, cpu_count env = Some c -> _cpu_count self = Z.min c count).
Proof.
  intros Hsmall. unfold __init__.
  destruct (Z.ltb_spec 0 count) as [Hc |]; [| discriminate].
  destruct (cpu_count env) as [c |]; [| discriminate].
  cbn [mbind result_bind bind].
  destruct shape as [| height [| width [| ? ?]]]; try discriminate.
  destruct (_download_colorization_model env _) as [env1 | e];
    [| discriminate].
  cbn [mbind result_bind bind].
  match goal with
  | |- context [_initialize_params ?g] =>
      destruct (initialize_params_planned g) as
        (self' & -> & Hcount & Hcpu & Hit & Hthr & _ & Hpl);
      [cbn; lia | cbn; discriminate | left; cbn; lia |]
  end.
  cbn [mbind result_bind bind]. intros [= <- _].
  cbn in Hcount, Hcpu, Hit, Hthr.
  split; [exact Hpl |]. split; [exact Hcount |]. split; [exact Hthr |].
  split; [exact Hit |].
  intros c' [= <-]. exact Hcpu.
Qed.

Section Run.
Context `{U : Utils}.
Variable self : FractalImageGenerator.

Lemma generate_category_ok (r : rng) :
  (-1 < _threshold self)%Q ->
  0 < _iterations self ->
  exists params, _generate_category self r 512 512 = Ok params.
Proof.
  intros Hthr Hit.
  destruct (generate_category_spec self 512 512 r)
    as (_ & _ & params & _ & _ & _ & Hres & _); [lia | assumption .. |].
  eauto.
Qed.

Lemma generate_categories_ok :
  (-1 < _threshold self)%Q ->
  0 < _iterations self ->
  exists params,
    generate_categories self = Ok params
    /\ length params = Z.to_nat (_categories self).
Proof.
  intros Hthr Hit. unfold generate_categories.
  assert (forall l : list nat,
            exists params,
              mapM (fun i => _generate_category self (Random (Z.of_nat i))
                                512 512) l = Ok params
              /\ length params = length l) as Hall.
  { induction l as [| i l (ps & Hps & Hl)].
    - exists []. auto.
    - destruct (generate_category_ok (Random (Z.of_nat i)) Hthr Hit)
        as (p & Hp).
      exists (p :: ps). cbn [mapM]. rewrite Hp. cbn [mbind result_bind bind].
      rewrite Hps. cbn. auto. }
  destruct (Hall (seq 0 (Z.to_nat (_categories self))))
    as (params & Hps & Hl).
  rewrite length_seq in Hl. eauto.
Qed.

(** The run of a planned generator does not fail and renders exactly
    [self._count] images, with the indices 0, 1, ... in order. *)
Lemma generate_dataset_ok :
  planned self ->
  1 <= _cpu_count self ->
  (-1 < _threshold self)%Q ->
  0 < _iterations self ->
  exists images,
    generate_dataset self = Ok images
    /\ map r_index images = seq 0 (Z.to_nat (_count self)).
Proof.
  intros Hpl Hcpu Hthr Hit.
  destruct (generate_categories_ok Hthr Hit) as (params & Hps & Hlen).
  unfold generate_dataset. rewrite Hps. cbn [mbind result_bind bind].
  rewrite (generate_batches_map self params Hpl Hcpu Hlen).
  eexists. split; [reflexivity |].
  rewrite map_map.
  rewrite <- (fst_zip3 (seq 0 (Z.to_nat (_count self)))
                (repeated_params self params) (weight_per_img self)) at 2.
  - apply map_ext. intros [[i p] w]. reflexivity.
  - pose proof (length_repeated_params self params Hpl Hlen).
    rewrite length_seq. lia.
  - pose proof (length_weight_per_img self Hpl).
    rewrite length_seq. lia.
Qed.

End Run.

(** The scenarios of the planner: one image, and fifty images. *)
Example plan_one_image :
  exists self,
    _initialize_params
      {| _count := 1; _output_dir := "out"; _model_dir := "models";
         _cpu_count := 1; _height := 64; _width := 48;
         _weights := _create_weights NUM_PARAMS;
         _threshold := (2 # 10)%Q; _iterations := 200000;
         _num_of_points := 100000; _instances := 0; _categories := 0 |}
    = Ok self
    /\ length (_weights self) = 1%nat
    /\ _categories self = 1 /\ _instances self = 1.
Proof. vm_compute. eexists. repeat split. Qed.

Example plan_fifty_images :
  _initialize_params fifty_images = Ok fifty
  /\ length (_weights fifty) = 25%nat
  /\ _categories fifty = 1 /\ _instances fifty = 2.
Proof. vm_compute. repeat split. Qed.

(** Binary64 at work.  The quotient of the large count is rounded, a
    quotient beyond the floats raises, and beyond 2^53 the split can
    plan more categories than instances. *)
Example plan_beyond_binary64 :
  float64.truediv huge_count 25 = Ok (float64.of_int (10 ^ 16))
  /\ ceil_div huge_count 25 = 10 ^ 16 + 1
  /\ float64.truediv (10 ^ 400) 25 = Raise OverflowError
  /\ float64.truediv 50 0 = Raise ZeroDivisionError
  /\ exists self,
       _initialize_params
         {| _count := 112603429635279058; _output_dir := "out";
            _model_dir := "models"; _cpu_count := 4; _height := 64;
            _width := 48; _weights := _create_weights NUM_PARAMS;
            _threshold := (2 # 10)%Q; _iterations := 200000;
            _num_of_points := 100000; _instances := 0;
            _categories := 0 |} = Ok self
       /\ _instances self = 67112869
       /\ _categories self = 67112870.
Proof. vm_compute. repeat split. eexists. repeat split. Qed.

(** [os.path.join] and the separator. *)
Example join_separator :
  osp_join "models" "pts_in_hull.npy" = "models/pts_in_hull.npy"
  /\ osp_join "models/" "pts_in_hull.npy" = "models/pts_in_hull.npy"
  /\ osp_join "" "pts_in_hull.npy" = "pts_in_hull.npy".
Proof. repeat split. Qed.

(** * Further properties *)

(** ** Lists cut into pieces of one size *)

Lemma lookup_flat_map_uniform {A B} (f : A -> list B) (c : nat)
    (l : list A) (j m : nat) (x : A) :
  (forall a, length (f a) = c) ->
  (m < c)%nat ->
  l !! j = Some x ->
  flat_map f l !! (c * j + m)%nat = f x !! m.
Proof.
  intros Hlen Hm. revert j.
  induction l as [| a l IH]; intros j Hj; [discriminate |].
  cbn [flat_map]. destruct j as [| j].
  - injection Hj as ->. rewrite lookup_app_l by (rewrite Hlen; lia).
    f_equal. lia.
  - rewrite lookup_app_r by (rewrite Hlen; lia). rewrite Hlen.
    replace (c * S j + m - c)%nat with (c * j + m)%nat by lia.
    apply IH, Hj.
Qed.

Lemma lookup_repeat {A} (a : list A) (k i : nat) :
  (0 < k)%nat ->
  np.repeat a k !! i = a !! (i / k)%nat.
Proof.
  intros Hk. unfold np.repeat.
  destruct (a !! (i / k)%nat) as [x |] eqn:Hx.
  - rewrite (Nat.div_mod_eq i k) at 1.
    rewrite (lookup_flat_map_uniform (replicate k) k a _ _ x);
      [| intros; apply length_replicate
       | apply Nat.mod_upper_bound; lia | exact Hx].
    apply lookup_replicate_2, Nat.mod_upper_bound. lia.
  - apply lookup_ge_None. apply lookup_ge_None in Hx.
    fold (np.repeat a k). rewrite length_repeat.
    pose proof (Nat.div_mod_eq i k).
    pose proof (Nat.mod_upper_bound i k ltac:(lia)). nia.
Qed.

Lemma lookup_tile {A} (a : list A) (c i : nat) :
  (i < c * length a)%nat ->
  np.tile a c !! i = a !! (i mod length a)%nat.
Proof.
  unfold np.tile. revert i. induction c as [| c IH]; intros i Hi; [lia |].
  cbn [replicate concat].
  destruct (decide (i < length a)%nat) as [Hlt | Hge].
  - rewrite lookup_app_l by exact Hlt. by rewrite Nat.mod_small.
  - rewrite lookup_app_r by lia. rewrite IH by lia. f_equal.
    assert (length a <> 0)%nat as Hne by lia.
    replace i with ((i - length a) + 1 * length a)%nat at 2 by lia.
    by rewrite Nat.Div0.mod_add.
Qed.

Lemma lookup_prefix {A} (n : Z) (a : list A) (i : nat) :
  Z.of_nat i < n ->
  np.prefix n a !! i = a !! i.
Proof.
  intros Hi. unfold np.prefix. destruct (Z.leb_spec 0 n); [| lia].
  apply lookup_take_lt. lia.
Qed.

(** ** [_create_weights] *)

(** X1.  [_create_weights(P)] returns exactly 1 + 4 P vectors, each with
    P entries; the first one is the base vector of ones. *)
Theorem create_weights_shape (num_params : nat) :
  length (_create_weights num_params) = (1 + 4 * num_params)%nat
  /\ _create_weights num_params !! 0%nat = Some (replicate num_params 1%Q)
  /\ Forall (fun v => length v = num_params) (_create_weights num_params).
Proof.
  split; [apply length_create_weights |]. split; [reflexivity |].
  unfold _create_weights. constructor; [apply length_replicate |].
  apply Forall_forall. intros v Hv.
  apply list_elem_of_In, in_flat_map in Hv as (j & _ & Hv).
  apply in_map_iff in Hv as (mult & <- & _).
  unfold modified_weights. by rewrite length_alter, length_replicate.
Qed.

(** X2.  The vector at position 1 + 4 j + m, for a coordinate j < P and
    the m-th multiplier of (-2, -1, 1, 2), carries 1 + multiplier * 0.4
    at coordinate j and 1 at every other coordinate. *)
Theorem create_weights_perturbation (num_params j m : nat) (mult : Z) :
  (j < num_params)%nat ->
  INTERVAL_MULTIPLIERS !! m = Some mult ->
  exists v,
    _create_weights num_params !! (1 + (4 * j + m))%nat = Some v
    /\ length v = num_params
    /\ v !! j = Some (1 + inject_Z mult * (4 # 10))%Q
    /\ (forall i, i <> j -> (i < num_params)%nat -> v !! i = Some 1%Q).
Proof.
  intros Hj Hm.
  exists (modified_weights (replicate num_params 1%Q) j mult).
  assert (m < 4)%nat as Hm4.
  { apply lookup_lt_Some in Hm. exact Hm. }
  split.
  - unfold _create_weights.
    change ((?x :: ?l) !! (1 + (4 * j + m))%nat) with (l !! (4 * j + m)%nat).
    rewrite (lookup_flat_map_uniform _ 4 (seq 0 num_params) j m j);
      [| intros; reflexivity | exact Hm4 | by apply lookup_seq_lt].
    change (map ?f ?l) with (f <$> l).
    by rewrite list_lookup_fmap, Hm.
  - unfold modified_weights. split; [| split].
    + by rewrite length_alter, length_replicate.
    + rewrite list_lookup_alter_eq, lookup_replicate_2 by exact Hj.
      reflexivity.
    + intros i Hi Hlt.
      rewrite list_lookup_alter_ne by congruence.
      by apply lookup_replicate_2.
Qed.

Lemma create_weights_perturbation_witness :
  (2 < NUM_PARAMS)%nat
  /\ INTERVAL_MULTIPLIERS !! 3%nat = Some 2
  /\ exists v,
       _create_weights NUM_PARAMS !! (1 + (4 * 2 + 3))%nat = Some v
       /\ length v = NUM_PARAMS
       /\ v !! 2%nat = Some (1 + inject_Z 2 * (4 # 10))%Q
       /\ (forall i, i <> 2%nat -> (i < NUM_PARAMS)%nat ->
             v !! i = Some 1%Q).
Proof.
  assert (2 < NUM_PARAMS)%nat as Hj by (unfold NUM_PARAMS; lia).
  split; [exact Hj |]. split; [reflexivity |].
  exact (create_weights_perturbation NUM_PARAMS 2 3 2 Hj eq_refl).
Defined.

(** ** The planner, more closely *)

(** X23.  For every count from 1 to below 2^52 and every non-empty set
    of weight vectors, the planner succeeds; it keeps min(N, W) weight
    vectors, and the categories and instances it computes are both at
    least 1 and satisfy categories * instances * W >= N for the number
    W of weight vectors kept. *)
Theorem planner_covers_count (self : FractalImageGenerator) :
  1 <= _count self < 2 ^ 52 ->
  _weights self <> [] ->
  exists self',
    _initialize_params self = Ok self'
    /\ Z.of_nat (length (_weights self'))
       = Z.min (_count self) (Z.of_nat (length (_weights self)))
    /\ 1 <= _categories self'
    /\ 1 <= _instances self'
    /\ _count self
       <= _categories self' * _instances self'
          * Z.of_nat (length (_weights self')).
Proof.
  intros [Hc Hsmall] Hw.
  destruct (initialize_params_planned self Hc Hw (or_introl Hsmall))
    as (self' & Hok & Hcount & _ & _ & _ & Hweights & Hpl).
  exists self'. split; [exact Hok |].
  destruct Hpl as (_ & Hi & Hk & _ & Hn).
  rewrite Hweights at 1. rewrite length_planned_weights by exact Hc.
  rewrite Hcount in Hn. auto.
Qed.

Lemma planner_covers_count_witness :
  1 <= _count fifty_images < 2 ^ 52
  /\ _weights fifty_images <> []
  /\ exists self',
       _initialize_params fifty_images = Ok self'
       /\ Z.of_nat (length (_weights self'))
          = Z.min (_count fifty_images)
                  (Z.of_nat (length (_weights fifty_images)))
       /\ 1 <= _categories self'
       /\ 1 <= _instances self'
       /\ _count fifty_images
          <= _categories self' * _instances self'
             * Z.of_nat (length (_weights self')).
Proof.
  assert (1 <= _count fifty_images < 2 ^ 52) as Hc by (cbn; lia).
  assert (_weights fifty_images <> []) as Hw by (cbn; discriminate).
  split; [exact Hc |]. split; [exact Hw |].
  exact (planner_covers_count fifty_images Hc Hw).
Defined.

(** X3.  For a count below 2^52 the square-root split is balanced: the
    planner never asks for more categories than instances, and for at
    most one less. *)
Theorem planner_split_balanced (self : FractalImageGenerator) :
  1 <= _count self < 2 ^ 52 ->
  _weights self <> [] ->
  exists self',
    _initialize_params self = Ok self'
    /\ _instances self' - 1 <= _categories self' <= _instances self'.
Proof.
  intros [Hc Hsmall] Hw.
  destruct (initialize_params_values self Hc Hw (or_introl Hsmall))
    as (self' & ic & Hok & _ & _ & _ & _ & _ & Hic & _ & Hinst & Hcat).
  exists self'. split; [exact Hok |].
  destruct (ceil_sqrt_spec ic Hic) as (Hs & Hhi & Hlo).
  rewrite <- Hinst in *. nia.
Qed.

Lemma planner_split_balanced_witness :
  1 <= _count fifty_images < 2 ^ 52
  /\ _weights fifty_images <> []
  /\ exists self',
       _initialize_params fifty_images = Ok self'
       /\ _instances self' - 1 <= _categories self' <= _instances self'.
Proof.
  assert (1 <= _count fifty_images < 2 ^ 52) as Hc by (cbn; lia).
  assert (_weights fifty_images <> []) as Hw by (cbn; discriminate).
  split; [exact Hc |]. split; [exact Hw |].
  exact (planner_split_balanced fifty_images Hc Hw).
Defined.

(** X4.  When no more images are requested than there are weight
    vectors, the planner keeps one weight vector per image and plans a
    single category with a single instance: the job list needs no
    truncation. *)
Theorem planner_few_images (self : FractalImageGenerator) :
  1 <= _count self <= Z.of_nat (length (_weights self)) ->
  exists self',
    _initialize_params self = Ok self'
    /\ _weights self' = take (Z.to_nat (_count self)) (_weights self)
    /\ Z.of_nat (length (_weights self')) = _count self
    /\ _instances self' = 1
    /\ _categories self' = 1.
Proof.
  intros [Hc HW].
  assert (_weights self <> []) as Hw.
  { destruct (_weights self); [cbn in HW; lia | discriminate]. }
  destruct (initialize_params_values self Hc Hw (or_intror HW))
    as (self' & ic & Hok & _ & _ & _ & _ & Hwe & Hic & Hbound & Hinst & Hcat).
  pose proof (length_planned_weights _ (_weights self) Hc) as Hlen.
  rewrite <- Hwe in Hlen.
  assert (ic = 1) as -> by nia.
  change (ceil_sqrt 1) with 1 in Hinst.
  exists self'. split; [exact Hok |]. split; [| split; [lia | split; [exact Hinst | nia]]].
  rewrite Hwe. unfold planned_weights, np.prefix.
  destruct (Z.ltb_spec (_count self) (Z.of_nat (length (_weights self)))).
  - destruct (Z.leb_spec 0 (_count self)); [reflexivity | lia].
  - rewrite firstn_all2 by lia. reflexivity.
Qed.

Lemma planner_few_images_witness :
  1 <= _count one_image <= Z.of_nat (length (_weights one_image))
  /\ exists self',
       _initialize_params one_image = Ok self'
       /\ _weights self'
          = take (Z.to_nat (_count one_image)) (_weights one_image)
       /\ Z.of_nat (length (_weights self')) = _count one_image
       /\ _instances self' = 1
       /\ _categories self' = 1.
Proof.
  assert (1 <= _count one_image <= Z.of_nat (length (_weights one_image)))
    as Hc by (cbn; lia).
  split; [exact Hc |].
  exact (planner_few_images one_image Hc).
Defined.

(** X5.  For a count below 2^52 the over-provisioning is bounded: the
    planned capacity categories * instances * W exceeds the requested
    count by less than W * (instances + 1), so the truncation of the
    job list drops fewer than that many jobs. *)
Theorem planner_waste_bounded (self : FractalImageGenerator) :
  1 <= _count self < 2 ^ 52 ->
  _weights self <> [] ->
  exists self',
    _initialize_params self = Ok self'
    /\ _categories self' * _instances self'
       * Z.of_nat (length (_weights self')) - _count self
       < Z.of_nat (length (_weights self')) * (_instances self' + 1).
Proof.
  intros [Hc Hsmall] Hw.
  destruct (initialize_params_values self Hc Hw (or_introl Hsmall))
    as (self' & ic & Hok & _ & _ & _ & _ & _ & Hic & Hbound & Hinst & Hcat).
  exists self'. split; [exact Hok |].
  destruct (ceil_sqrt_spec ic Hic) as (Hs & _ & _).
  rewrite <- Hinst in Hs. nia.
Qed.

Lemma planner_waste_bounded_witness :
  1 <= _count fifty_images < 2 ^ 52
  /\ _weights fifty_images <> []
  /\ exists self',
       _initialize_params fifty_images = Ok self'
       /\ _categories self' * _instances self'
          * Z.of_nat (length (_weights self')) - _count fifty_images
          < Z.of_nat (length (_weights self')) * (_instances self' + 1).
Proof.
  assert (1 <= _count fifty_images < 2 ^ 52) as Hc by (cbn; lia).
  assert (_weights fifty_images <> []) as Hw by (cbn; discriminate).
  split; [exact Hc |]. split; [exact Hw |].
  exact (planner_waste_bounded fifty_images Hc Hw).
Defined.

(** ** The layout of the job list *)

(** X6.  Job k of a planned run renders category k div (W * instances)
    with weight vector (k mod (W * instances)) div instances: the jobs
    of one category are contiguous, and within a category every weight
    vector is used [instances] times in a row. *)
Theorem job_layout {P} (self : FractalImageGenerator) (params : list P)
    (k : nat) :
  planned self ->
  length params = Z.to_nat (_categories self) ->
  Z.of_nat k < _count self ->
  let W := length (_weights self) in
  let instances := Z.to_nat (_instances self) in
  repeated_params self params !! k = params !! (k / (W * instances))%nat
  /\ weight_per_img self !! k
     = _weights self !! ((k mod (W * instances)) / instances)%nat
  /\ is_Some (params !! (k / (W * instances))%nat)
  /\ is_Some (_weights self !! ((k mod (W * instances)) / instances)%nat).
Proof.
  intros Hpl Hp Hk W instances.
  pose proof Hpl as (Hc & Hi & Hcat & Hw & Hn).
  assert (0 < W * instances)%nat as Hpos by (subst W instances; nia).
  assert (0 < instances)%nat as Hipos by (subst instances; lia).
  assert (k < Z.to_nat (_categories self) * (W * instances))%nat as Hcap
    by (subst W instances; nia).
  assert (repeated_params self params !! k
          = params !! (k / (W * instances))%nat) as Hrp.
  { unfold repeated_params. rewrite lookup_prefix by exact Hk.
    apply lookup_repeat, Hpos. }
  assert (weight_per_img self !! k
          = _weights self !! ((k mod (W * instances)) / instances)%nat)
    as Hwp.
  { unfold weight_per_img. rewrite lookup_prefix by exact Hk.
    rewrite lookup_tile by (rewrite length_repeat; exact Hcap).
    rewrite length_repeat. apply lookup_repeat, Hipos. }
  split; [exact Hrp |]. split; [exact Hwp |]. split.
  - apply lookup_lt_is_Some. rewrite Hp.
    apply Nat.Div0.div_lt_upper_bound. lia.
  - apply lookup_lt_is_Some. fold W.
    apply Nat.Div0.div_lt_upper_bound.
    pose proof (Nat.mod_upper_bound k (W * instances) ltac:(lia)). lia.
Qed.

Lemma job_layout_witness :
  planned fifty
  /\ length [normalize Toy.flat_sum Toy.flat_rows]
     = Z.to_nat (_categories fifty)
  /\ Z.of_nat 37 < _count fifty
  /\ repeated_params fifty [normalize Toy.flat_sum Toy.flat_rows] !! 37%nat
     = [normalize Toy.flat_sum Toy.flat_rows]
         !! (37 / (length (_weights fifty)
                   * Z.to_nat (_instances fifty)))%nat
  /\ weight_per_img fifty !! 37%nat
     = _weights fifty
         !! ((37 mod (length (_weights fifty)
                      * Z.to_nat (_instances fifty)))
             / Z.to_nat (_instances fifty))%nat
  /\ is_Some ([normalize Toy.flat_sum Toy.flat_rows]
                !! (37 / (length (_weights fifty)
                          * Z.to_nat (_instances fifty)))%nat)
  /\ is_Some (_weights fifty
                !! ((37 mod (length (_weights fifty)
                             * Z.to_nat (_instances fifty)))
                    / Z.to_nat (_instances fifty))%nat).
Proof.
  assert (Z.of_nat 37 < _count fifty) as Hk by (cbn; lia).
  split; [exact fifty_planned |]. split; [reflexivity |].
  split; [exact Hk |].
  exact (job_layout fifty [normalize Toy.flat_sum Toy.flat_rows] 37
           fifty_planned eq_refl Hk).
Defined.

(** ** [_download_colorization_model] *)

Lemma download_if_missing_spec (env env' : os_env) (url name path : string) :
  download_if_missing env url name path = Ok env' ->
  files env' = {[ path ]} ∪ files env
  /\ getcwd env' = getcwd env /\ cpu_count env' = cpu_count env
  /\ writable env' = writable env /\ requests_get env' = requests_get env.
Proof.
  unfold download_if_missing.
  destruct (decide (path ∈ files env)) as [Hin | Hout].
  - intros [= <-]. repeat split. set_solver.
  - destruct (requests_get env (url +:+ name)); [| discriminate].
    cbn. intros [= <-]. repeat split.
Qed.

(** X7.  When a model file is missing and the directory is not
    writable, the download step raises [ValueError]; no request is
    made. *)
Theorem download_refused_when_unwritable (env : os_env) (path : string) :
  ~ (forall f, f ∈ model_files path -> f ∈ files env) ->
  path ∉ writable env ->
  _download_colorization_model env path
  = Raise (ValueError "Please provide a path to a colorization model or a path to a writable directory to download the model").
Proof.
  intros Hmissing Hw. unfold _download_colorization_model.
  rewrite (bool_decide_eq_false_2 (path ∈ writable env)) by exact Hw.
  destruct (bool_decide (osp_join path _MODEL_PROTO_NAME ∈ files env)) eqn:H1;
    [| reflexivity].
  destruct (bool_decide (osp_join path _MODEL_CONFIG_NAME ∈ files env)) eqn:H2;
    [| reflexivity].
  destruct (bool_decide (osp_join path _HULL_PTS_FILE_NAME ∈ files env)) eqn:H3;
    [| reflexivity].
  exfalso. apply Hmissing. intros f Hf.
  apply bool_decide_eq_true in H1, H2, H3.
  unfold model_files in Hf. set_solver.
Qed.

Lemma download_refused_when_unwritable_witness :
  ~ (forall f, f ∈ model_files "models" -> f ∈ files bare_env)
  /\ ("models" ∉ writable bare_env)
  /\ _download_colorization_model bare_env "models"
     = Raise (ValueError "Please provide a path to a colorization model or a path to a writable directory to download the model").
Proof.
  assert (~ (forall f, f ∈ model_files "models" -> f ∈ files bare_env))
    as Hmissing.
  { intros Hall.
    specialize (Hall (osp_join "models" _MODEL_PROTO_NAME)).
    cbn [files bare_env] in Hall. apply (not_elem_of_empty (C := gset string)) in Hall;
      [exact Hall | unfold model_files; set_solver]. }
  assert ("models" ∉ writable bare_env) as Hw by (cbn; set_solver).
  split; [exact Hmissing |]. split; [exact Hw |].
  exact (download_refused_when_unwritable bare_env "models" Hmissing Hw).
Defined.

(** X8.  When the three model files exist, the download step succeeds
    and leaves the environment as it is, whether or not the directory is
    writable and whether or not the network answers. *)
Theorem download_skipped_when_present (env : os_env) (path : string) :
  (forall f, f ∈ model_files path -> f ∈ files env) ->
  _download_colorization_model env path = Ok env.
Proof.
  intros Hall. unfold _download_colorization_model.
  assert (osp_join path _MODEL_PROTO_NAME ∈ files env) as H1
    by (apply Hall; unfold model_files; set_solver).
  assert (osp_join path _MODEL_CONFIG_NAME ∈ files env) as H2
    by (apply Hall; unfold model_files; set_solver).
  assert (osp_join path _HULL_PTS_FILE_NAME ∈ files env) as H3
    by (apply Hall; unfold model_files; set_solver).
  rewrite !bool_decide_eq_true_2 by assumption. cbn [andb negb].
  unfold download_if_missing.
  rewrite (decide_True (P := osp_join path _MODEL_PROTO_NAME ∈ files env))
    by exact H1.
  cbn [mbind result_bind bind].
  rewrite (decide_True (P := osp_join path _MODEL_CONFIG_NAME ∈ files env))
    by exact H2.
  cbn [mbind result_bind bind].
  by rewrite (decide_True (P := osp_join path _HULL_PTS_FILE_NAME ∈ files env)).
Qed.

Lemma download_skipped_when_present_witness :
  (forall f, f ∈ model_files "models" -> f ∈ files model_env)
  /\ _download_colorization_model model_env "models" = Ok model_env.
Proof.
  assert (forall f, f ∈ model_files "models" -> f ∈ files model_env) as Hall.
  { intros f Hf. unfold model_files in Hf. cbn [files model_env].
    set_solver. }
  split; [exact Hall |].
  exact (download_skipped_when_present model_env "models" Hall).
Defined.

Lemma download_model_files (env env' : os_env) (path : string) :
  _download_colorization_model env path = Ok env' ->
  forall f, f ∈ model_files path -> f ∈ files env'.
Proof.
  unfold _download_colorization_model.
  destruct (negb _); [| discriminate].
  destruct (download_if_missing env _ _MODEL_PROTO_NAME _)
    as [env1 | e] eqn:H1; [| discriminate].
  cbn [mbind result_bind bind].
  destruct (download_if_missing env1 _ _MODEL_CONFIG_NAME _)
    as [env2 | e] eqn:H2; [| discriminate].
  cbn [mbind result_bind bind]. intros H3.
  apply download_if_missing_spec in H1 as (F1 & _).
  apply download_if_missing_spec in H2 as (F2 & _).
  apply download_if_missing_spec in H3 as (F3 & _).
  intros f Hf. rewrite F3, F2, F1. unfold model_files in Hf. set_solver.
Qed.

(** X9.  After a successful download step the three model files exist;
    every file that existed before still does, and nothing else of the
    environment has changed. *)
Theorem download_provides_model (env env' : os_env) (path : string) :
  _download_colorization_model env path = Ok env' ->
  (forall f, f ∈ model_files path -> f ∈ files env')
  /\ files env ⊆ files env'
  /\ (forall f, f ∈ files env' ->
        (f ∈ files env) \/ (f ∈ model_files path))
  /\ getcwd env' = getcwd env /\ cpu_count env' = cpu_count env
  /\ writable env' = writable env.
Proof.
  unfold _download_colorization_model.
  destruct (negb _); [| discriminate].
  destruct (download_if_missing env _ _MODEL_PROTO_NAME _)
    as [env1 | e] eqn:H1; [| discriminate].
  cbn [mbind result_bind bind].
  destruct (download_if_missing env1 _ _MODEL_CONFIG_NAME _)
    as [env2 | e] eqn:H2; [| discriminate].
  cbn [mbind result_bind bind]. intros H3.
  apply download_if_missing_spec in H1 as (F1 & C1 & P1 & W1 & R1).
  apply download_if_missing_spec in H2 as (F2 & C2 & P2 & W2 & R2).
  apply download_if_missing_spec in H3 as (F3 & C3 & P3 & W3 & R3).
  split; [| split; [| split; [| split; [congruence | split; congruence]]]].
  - intros f Hf. rewrite F3, F2, F1. unfold model_files in Hf. set_solver.
  - rewrite F3, F2, F1. set_solver.
  - intros f. rewrite F3, F2, F1. unfold model_files. set_solver.
Qed.

Lemma download_provides_model_witness :
  exists env',
    _download_colorization_model empty_writable_env "models" = Ok env'
    /\ (forall f, f ∈ model_files "models" -> f ∈ files env')
    /\ files empty_writable_env ⊆ files env'
    /\ (forall f, f ∈ files env' ->
          (f ∈ files empty_writable_env) \/ (f ∈ model_files "models"))
    /\ getcwd env' = getcwd empty_writable_env
    /\ cpu_count env' = cpu_count empty_writable_env
    /\ writable env' = writable empty_writable_env.
Proof.
  assert (exists env',
            _download_colorization_model empty_writable_env "models"
            = Ok env') as [env' Hok]
    by (vm_compute; eexists; reflexivity).
  exists env'. split; [exact Hok |].
  exact (download_provides_model empty_writable_env env' "models" Hok).
Defined.

(** ** From the constructor to the images *)

(** X10.  A generator the constructor returns for a count below 2^52
    is planned for its count: it keeps the arguments, uses
    min(os.cpu_count(), count) workers and min(count, 25) weight
    vectors, its categories and instances cover the count, and the
    three model files exist afterwards. *)
Theorem init_builds_planned_generator (env env' : os_env)
    (output_dir : string) (count : Z) (shape : list Z)
    (model_path : option string) (self : FractalImageGenerator) :
  count < 2 ^ 52 ->
  __init__ env output_dir count shape model_path = Ok (self, env') ->
  planned self
  /\ _count self = count
  /\ _output_dir self = output_dir
  /\ shape = [_height self; _width self]
  /\ (exists c, cpu_count env = Some c /\ _cpu_count self = Z.min c count)
  /\ Z.of_nat (length (_weights self)) = Z.min count 25
  /\ (forall f, f ∈ model_files (_model_dir self) -> f ∈ files env').
Proof.
  intros Hsmall Hinit.
  destruct (init_planned _ _ _ _ _ _ _ Hsmall Hinit)
    as (Hpl & Hcount & _ & _ & Hcpu).
  revert Hinit. unfold __init__.
  destruct (Z.ltb_spec 0 count) as [Hc |]; [| discriminate].
  destruct (cpu_count env) as [c |] eqn:Hcpus; [| discriminate].
  cbn [mbind result_bind bind].
  destruct shape as [| height [| width [| ? ?]]]; try discriminate.
  destruct (_download_colorization_model env _) as [env1 | e] eqn:Hdl;
    [| discriminate].
  cbn [mbind result_bind bind].
  match goal with
  | |- context [_initialize_params ?g] =>
      destruct (initialize_params_values g) as
        (self' & ic & Hok & _ & _ & _ & _ & Hwe & _);
      [cbn; lia | cbn; discriminate | left; cbn; lia |]
  end.
  rewrite Hok. cbn [mbind result_bind bind].
  intros [= <- <-].
  assert (_output_dir self' = output_dir /\ _height self' = height
          /\ _width self' = width
          /\ _model_dir self'
             = match model_path with
               | Some p => if decide (p = "") then getcwd env else p
               | None => getcwd env
               end) as (Ho & Hh & Hwd & Hm).
  { unfold _initialize_params in Hok. cbn [_count _weights] in Hok.
    destruct (float64.truediv _ _) in Hok; [| discriminate].
    cbn [mbind result_bind bind] in Hok. injection Hok as <-. auto. }
  split; [exact Hpl |]. split; [exact Hcount |]. split; [exact Ho |].
  split; [by rewrite Hh, Hwd |]. split; [eauto |]. split.
  - rewrite Hwe. cbn [_count _weights].
    rewrite length_planned_weights by lia.
    by rewrite length_create_weights.
  - rewrite Hm. apply (download_model_files _ _ _ Hdl).
Qed.

Lemma init_builds_planned_generator_witness :
  exists self env',
    50 < 2 ^ 52
    /\ __init__ model_env "out" 50 [64; 48] (Some "models") = Ok (self, env')
    /\ planned self
    /\ _count self = 50
    /\ _output_dir self = "out"
    /\ [64; 48] = [_height self; _width self]
    /\ (exists c, cpu_count model_env = Some c
                  /\ _cpu_count self = Z.min c 50)
    /\ Z.of_nat (length (_weights self)) = Z.min 50 25
    /\ (forall f, f ∈ model_files (_model_dir self) -> f ∈ files env').
Proof.
  assert (exists self env',
            __init__ model_env "out" 50 [64; 48] (Some "models")
            = Ok (self, env')) as (self & env' & Hok)
    by (vm_compute; eexists _, _; reflexivity).
  assert (50 < 2 ^ 52) as Hsmall by lia.
  exists self, env'. split; [exact Hsmall |]. split; [exact Hok |].
  exact (init_builds_planned_generator _ _ _ _ _ _ _ Hsmall Hok).
Defined.

Section WholeRun.
Context `{U : Utils}.

(** X11.  For a generator the constructor returned for a count below
    2^52 and a positive height and width, on a machine with at least
    one core, [generate_dataset] raises nothing of its own: the sampler
    returns for every category, the assertion on the lengths of the job
    arrays holds and [array_split] accepts the number of batches; where
    the collaborators of [.utils] return, as they are taken to here,
    the rendered images are exactly [count], with the global indices
    0, 1, ..., count - 1 in this order. *)
Theorem constructed_run_renders_every_index (env env' : os_env)
    (output_dir : string) (count : Z) (shape : list Z)
    (model_path : option string) (self : FractalImageGenerator) :
  count < 2 ^ 52 ->
  Forall (fun side => 0 < side) shape ->
  __init__ env output_dir count shape model_path = Ok (self, env') ->
  (forall c, cpu_count env = Some c -> 1 <= c) ->
  exists images,
    generate_dataset self = Ok images
    /\ Z.of_nat (length images) = count
    /\ map r_index images = seq 0 (Z.to_nat count).
Proof.
  intros Hsmall _ Hinit Hcores.
  destruct (init_planned _ _ _ _ _ _ _ Hsmall Hinit)
    as (Hpl & Hcount & Hthr & Hit & Hcpu).
  assert (1 <= _cpu_count self) as Hcpus.
  { revert Hinit. unfold __init__.
    destruct (0 <? count); [| discriminate].
    destruct (cpu_count env) as [c |] eqn:Hc; [| discriminate].
    intros _. rewrite (Hcpu c eq_refl).
    specialize (Hcores c eq_refl). destruct Hpl as (? & _). lia. }
  destruct (generate_dataset_ok self Hpl Hcpus) as (images & Hok & Hidx);
    [rewrite Hthr; reflexivity | lia |].
  exists images. rewrite Hcount in Hidx. split; [exact Hok |].
  split; [| exact Hidx].
  apply (f_equal (@length nat)) in Hidx.
  rewrite length_map, length_seq in Hidx. destruct Hpl as (? & _). lia.
Qed.

End WholeRun.

Lemma constructed_run_renders_every_index_witness :
  exists self env',
    50 < 2 ^ 52
    /\ Forall (fun side => 0 < side) [64; 48]
    /\ __init__ model_env "out" 50 [64; 48] (Some "models") = Ok (self, env')
    /\ (forall c, cpu_count model_env = Some c -> 1 <= c)
    /\ exists images,
         @generate_dataset Sparse.random Sparse.utils self = Ok images
         /\ Z.of_nat (length images) = 50
         /\ map (@r_index Sparse.random Sparse.utils) images
            = seq 0 (Z.to_nat 50).
Proof.
  assert (exists self env',
            __init__ model_env "out" 50 [64; 48] (Some "models")
            = Ok (self, env')) as (self & env' & Hok)
    by (vm_compute; eexists _, _; reflexivity).
  assert (forall c, cpu_count model_env = Some c -> 1 <= c) as Hcores
    by (intros c [= <-]; lia).
  assert (50 < 2 ^ 52) as Hsmall by lia.
  assert (Forall (fun side => 0 < side) [64; 48]) as Hshape
    by (repeat constructor; lia).
  exists self, env'. split; [exact Hsmall |]. split; [exact Hshape |].
  split; [exact Hok |]. split; [exact Hcores |].
  exact (@constructed_run_renders_every_index Sparse.random Sparse.utils
           _ _ _ _ _ _ _ Hsmall Hshape Hok Hcores).
Defined.

(** ** The names of the image files *)

Lemma uint_of_zero_filled (k : nat) (s : string) (d : Decimal.uint) :
  DecimalString.NilEmpty.uint_of_string s = Some d ->
  DecimalString.NilEmpty.uint_of_string (Nat.iter k (String "0"%char) s)
  = Some (Nat.iter k Decimal.D0 d).
Proof.
  intros Hs. induction k as [| k IH]; [exact Hs |].
  cbn [Nat.iter nat_rect]. cbn [DecimalString.NilEmpty.uint_of_string].
  unfold Nat.iter in IH. rewrite IH. reflexivity.
Qed.

Lemma of_uint_zero_filled (k : nat) (d : Decimal.uint) :
  Nat.of_uint (Nat.iter k Decimal.D0 d) = Nat.of_uint d.
Proof.
  induction k as [| k IH]; [reflexivity |].
  cbn [Nat.iter nat_rect].
  rewrite <- DecimalNat.Unsigned.of_uint_norm.
  cbn [Decimal.unorm].
  rewrite DecimalNat.Unsigned.of_uint_norm. exact IH.
Qed.

Lemma length_zero_filled (k : nat) (s : string) :
  String.length (Nat.iter k (String "0"%char) s) = (k + String.length s)%nat.
Proof.
  induction k as [| k IH]; [reflexivity |].
  cbn [Nat.iter nat_rect String.length]. unfold Nat.iter in IH.
  by rewrite IH.
Qed.

Lemma digits_of_format_06d (i : nat) :
  int_of_digits (format_06d i) = Some i.
Proof.
  unfold int_of_digits, format_06d.
  rewrite (uint_of_zero_filled _ _ (Nat.to_uint i))
    by apply DecimalString.NilEmpty.usu.
  cbn [fmap option_fmap option_map].
  by rewrite of_uint_zero_filled, DecimalNat.Unsigned.of_to.
Qed.

(** X12.  The name of an image file keeps its index: reading the digits
    of ["{:06d}".format(i)] back gives [i], and the name has at least
    six digits. *)
Theorem format_06d_round_trip (i : nat) :
  int_of_digits (format_06d i) = Some i
  /\ (6 <= String.length (format_06d i))%nat.
Proof.
  split; [apply digits_of_format_06d |].
  unfold format_06d. rewrite length_zero_filled. lia.
Qed.

Lemma append_cancel_l (s t1 t2 : string) :
  s +:+ t1 = s +:+ t2 -> t1 = t2.
Proof.
  induction s as [| c s IH]; [auto |].
  change (String c s +:+ ?t) with (String c (s +:+ t)).
  intros [= H]. auto.
Qed.

Lemma length_string_app (s t : string) :
  String.length (s +:+ t) = (String.length s + String.length t)%nat.
Proof.
  induction s as [| c s IH]; [reflexivity |].
  change (String c s +:+ t) with (String c (s +:+ t)).
  cbn [String.length]. by rewrite IH.
Qed.

Lemma append_cancel_r (s1 s2 t : string) :
  s1 +:+ t = s2 +:+ t -> s1 = s2.
Proof.
  revert s2. induction s1 as [| c s1 IH]; intros [| c2 s2].
  - reflexivity.
  - intros H. apply (f_equal String.length) in H.
    rewrite !length_string_app in H. cbn [String.length] in H. lia.
  - intros H. apply (f_equal String.length) in H.
    rewrite !length_string_app in H. cbn [String.length] in H. lia.
  - change (String c s1 +:+ t) with (String c (s1 +:+ t)).
    change (String c2 s2 +:+ t) with (String c2 (s2 +:+ t)).
    intros [= -> H]. f_equal. auto.
Qed.

Lemma image_path_inj (self : FractalImageGenerator) (i j : nat) :
  image_path self i = image_path self j -> i = j.
Proof.
  unfold image_path, osp_join. intros H.
  assert (format_06d i = format_06d j) as Hf.
  { destruct (decide (_output_dir self = "")).
    - by apply append_cancel_r in H.
    - destruct (bool_decide _).
      + by apply append_cancel_l, append_cancel_r in H.
      + by apply append_cancel_l, append_cancel_l, append_cancel_r in H. }
  pose proof (digits_of_format_06d i) as Hi.
  pose proof (digits_of_format_06d j) as Hj.
  congruence.
Qed.

Section FileNames.
Context `{U : Utils}.

Lemma rendered_indices (self : FractalImageGenerator)
    (params : list (list (list Q))) (images : list rendered) :
  planned self ->
  1 <= _cpu_count self ->
  length params = Z.to_nat (_categories self) ->
  generate_batches self params = Ok images ->
  map r_index images = seq 0 (Z.to_nat (_count self)).
Proof.
  intros Hpl Hcpu Hlen.
  rewrite (generate_batches_map self params Hpl Hcpu Hlen).
  intros [= <-]. rewrite map_map.
  rewrite <- (fst_zip3 (seq 0 (Z.to_nat (_count self)))
                (repeated_params self params) (weight_per_img self)) at 2.
  - apply map_ext. intros [[i p] w]. reflexivity.
  - pose proof (length_repeated_params self params Hpl Hlen).
    rewrite length_seq. lia.
  - pose proof (length_weight_per_img self Hpl).
    rewrite length_seq. lia.
Qed.

(** X13.  No two images of a run are written to the same file: the
    paths [osp.join(output_dir, "{:06d}.png".format(i))] of the images
    the batches render are pairwise distinct. *)
Theorem run_writes_distinct_files (self : FractalImageGenerator)
    (params : list (list (list Q))) (images : list rendered) :
  planned self ->
  1 <= _cpu_count self ->
  length params = Z.to_nat (_categories self) ->
  generate_batches self params = Ok images ->
  NoDup (map (fun r => image_path self (r_index r)) images).
Proof.
  intros Hpl Hcpu Hlen Hrun.
  rewrite <- (map_map r_index (image_path self)).
  rewrite (rendered_indices self params images Hpl Hcpu Hlen Hrun).
  assert (Inj (=) (=) (image_path self)) as Hinj
    by (intros i j; apply image_path_inj).
  apply (NoDup_fmap_2 (image_path self)), NoDup_seq.
Qed.

End FileNames.

Lemma run_writes_distinct_files_witness :
  exists images,
    planned fifty
    /\ 1 <= _cpu_count fifty
    /\ length [normalize Toy.flat_sum Toy.flat_rows]
       = Z.to_nat (_categories fifty)
    /\ @generate_batches Sparse.random Sparse.utils fifty
         [normalize Toy.flat_sum Toy.flat_rows] = Ok images
    /\ NoDup (map (fun r => image_path fifty
                              (@r_index Sparse.random Sparse.utils r))
                images).
Proof.
  assert (1 <= _cpu_count fifty) as Hcpu by (cbn; lia).
  pose proof (@generate_batches_map Sparse.random Sparse.utils fifty
                [normalize Toy.flat_sum Toy.flat_rows]
                fifty_planned Hcpu eq_refl) as Hrun.
  eexists.
  split; [exact fifty_planned |]. split; [exact Hcpu |].
  split; [reflexivity |]. split; [exact Hrun |].
  exact (@run_writes_distinct_files Sparse.random Sparse.utils fifty
           [normalize Toy.flat_sum Toy.flat_rows] _
           fifty_planned Hcpu eq_refl Hrun).
Defined.

(** ** More on the sampler *)

Section SamplerShape.
Context `{U : Utils}.
Variable self : FractalImageGenerator.
Variables base_h base_w : Z.

Lemma sample_loop_invariant (Pred : list (list Q) -> Prop) :
  (forall r params pixels r',
     sample_candidate self r base_h base_w = Ok (params, pixels, r') ->
     Pred params) ->
  forall fuel st st',
    sample_loop fuel self base_h base_w st = Ok st' ->
    (forall p, l_params st = Some p -> Pred p) ->
    forall p, l_params st' = Some p -> Pred p.
Proof.
  intros Hcand fuel. induction fuel as [| fuel IH]; intros st st'.
  - intros [= <-]. auto.
  - cbn [sample_loop]. destruct (loop_guard self st); [| intros [= <-]; auto].
    destruct (sample_candidate self (l_rng st) base_h base_w)
      as [[[params pixels] r'] | e] eqn:Hc; [| discriminate].
    cbn [mbind result_bind bind]. intros Hloop _.
    apply (IH _ _ Hloop). cbn. intros p [= <-].
    exact (Hcand _ _ _ _ Hc).
Qed.

Lemma sample_candidate_shape (r r' : rng) (params : list (list Q))
    (pixels : Q) :
  sample_candidate self r base_h base_w = Ok (params, pixels, r') ->
  well_shaped params.
Proof.
  unfold sample_candidate.
  pose proof (randint_range 2 7 r ltac:(lia)) as Hsize.
  destruct (randint 2 7 r) as [param_size r0]. cbn in Hsize.
  destruct (0 <=? param_size); [| discriminate].
  destruct (fill_params_ok (Z.to_nat param_size) r0 (1 # 100000)%Q)
    as (rows & s & r1 & -> & Hlen & Hrows & _). cbn [mbind result_bind bind].
  destruct (_generate_image r1 (normalize s rows) (_num_of_points self)
              base_h base_w true None) as [img r2].
  destruct (negb (base_h * base_w =? 0)); [| discriminate].
  intros [= <- _ _]. unfold well_shaped, normalize. split.
  - rewrite length_map, Hlen. lia.
  - apply Forall_forall. intros row Hrow.
    apply list_elem_of_fmap in Hrow as (row0 & -> & Hrow0).
    rewrite Forall_forall in Hrows.
    destruct (Hrows _ Hrow0) as (a & b & c & d & e & f & ->).
    by rewrite length_alter.
Qed.

(** X14.  Every parameter array the sampler returns has between 2 and 7
    maps, each a row of seven numbers: six coefficients and the
    selection weight. *)
Theorem sampled_category_shape (r : rng) (params : list (list Q)) :
  _generate_category self r base_h base_w = Ok params ->
  2 <= Z.of_nat (length params) <= 7
  /\ Forall (fun row => length row = 7%nat) params.
Proof.
  unfold _generate_category.
  destruct (sample_loop (Z.to_nat (_iterations self)) self base_h base_w
              (initial_locals r)) as [st | e] eqn:Hloop; [| discriminate].
  cbn [mbind result_bind bind].
  destruct (l_params st) as [p |] eqn:Hpar; [| discriminate].
  intros [= <-].
  apply (sample_loop_invariant well_shaped
           (fun r0 ps px r1 => sample_candidate_shape r0 r1 ps px)
           _ _ _ Hloop); [discriminate | exact Hpar].
Qed.

End SamplerShape.

Lemma sampled_category_shape_witness :
  @_generate_category Sparse.random Sparse.utils fifty
    (@Random Sparse.random 0) 512 512
  = Ok (normalize Toy.flat_sum Toy.flat_rows)
  /\ 2 <= Z.of_nat (length (normalize Toy.flat_sum Toy.flat_rows)) <= 7
  /\ Forall (fun row => length row = 7%nat)
       (normalize Toy.flat_sum Toy.flat_rows).
Proof.
  split; [exact generate_category_sparse |].
  exact (@sampled_category_shape Sparse.random Sparse.utils fifty 512 512
           _ _ generate_category_sparse).
Defined.

(** ** [_generate_image_batch] on arrays of different lengths *)

Section BatchLengths.
Context `{U : Utils}.

Lemma fst_zip3_take {A B C} (la : list A) (lb : list B) (lc : list C) :
  map (fun j => j.1.1) (zip3 la lb lc)
  = take (Nat.min (length lb) (length lc)) la.
Proof.
  revert lb lc. induction la as [| a la IH]; intros [| b lb] [| c lc];
    cbn; rewrite ?take_nil; try reflexivity.
  f_equal. apply IH.
Qed.

(** X15.  A batch renders as many images as the shortest of its three
    arrays has entries, for the first indices it was given and in their
    order: [zip] drops what is left of the longer arrays without an
    error. *)
Theorem batch_renders_leading_indices (self : FractalImageGenerator)
    (params : list (list (list Q))) (weights : list (list Q))
    (indices : list nat) :
  map r_index (_generate_image_batch self params weights indices)
  = take (Nat.min (length params) (length weights)) indices.
Proof.
  rewrite generate_image_batch_map, map_map, <- fst_zip3_take.
  apply map_ext. intros [[i p] w]. reflexivity.
Qed.

End BatchLengths.

(** ** [Converter.patch], the other outcomes *)

Section PatchOutcomes.
Context `{C : Converter dataset retval}.

Lemma converted_lookup (ds : dataset) (save_dir tmpdir p : string)
    (fs : filesystem) :
  p <> tmpdir ->
  (convert ds tmpdir (copymode save_dir tmpdir (mkdtemp tmpdir fs))).1 !! p
  = fs !! p.
Proof.
  intros Hp. rewrite convert_frame by exact Hp. by apply staged_lookup.
Qed.


(** X17.  Whatever the conversion does, [patch] on an existing
    [save_dir] leaves no temporary directory behind and changes no
    directory other than [save_dir]. *)
Theorem patch_leaves_no_temporary (ds : dataset) (save_dir tmpdir : string)
    (fs : filesystem) :
  is_Some (fs !! save_dir) ->
  fs !! tmpdir = None ->
  (patch ds save_dir tmpdir fs).1 !! tmpdir = None
  /\ (forall p, p <> save_dir -> p <> tmpdir ->
        (patch ds save_dir tmpdir fs).1 !! p = fs !! p).
Proof.
  intros [d0 Hd] Hfresh.
  assert (save_dir <> tmpdir) as Hne by congruence.
  unfold patch. rewrite Hd.
  pose proof (fun p => converted_lookup ds save_dir tmpdir p fs) as Hframe.
  destruct (convert ds tmpdir (copymode save_dir tmpdir (mkdtemp tmpdir fs)))
    as [fs_c [v | e]]; cbn [fst] in *.
  - unfold os_replace, rmtree.
    destruct (delete save_dir fs_c !! tmpdir) as [d |] eqn:Htmp; cbn [fst].
    + split.
      * rewrite lookup_insert_ne by congruence. by rewrite lookup_delete_eq.
      * intros p Hp1 Hp2.
        rewrite lookup_insert_ne, !lookup_delete_ne by congruence.
        by apply Hframe.
    + split; [by rewrite lookup_delete_eq |].
      intros p Hp1 Hp2. rewrite !lookup_delete_ne by congruence.
      by apply Hframe.
  - unfold rmtree. split; [by rewrite lookup_delete_eq |].
    intros p Hp1 Hp2. rewrite lookup_delete_ne by congruence.
    by apply Hframe.
Qed.

(** X18.  When the conversion returns but no temporary directory is
    left to move, [save_dir] has already been removed: [patch] raises
    [FileNotFoundError] and the dataset directory is lost. *)
Theorem patch_loses_save_dir_without_tmpdir (ds : dataset)
    (save_dir tmpdir : string) (fs fs_c : filesystem) (v : retval) :
  is_Some (fs !! save_dir) ->
  fs !! tmpdir = None ->
  convert ds tmpdir (copymode save_dir tmpdir (mkdtemp tmpdir fs))
  = (fs_c, Ok v) ->
  fs_c !! tmpdir = None ->
  exists fs',
    patch ds save_dir tmpdir fs = (fs', Raise FileNotFoundError)
    /\ fs' !! save_dir = None.
Proof.
  intros [d0 Hd] Hfresh Hconv Htmp.
  assert (save_dir <> tmpdir) as Hne by congruence.
  unfold patch. rewrite Hd, Hconv. unfold os_replace, rmtree.
  rewrite lookup_delete_ne, Htmp by congruence.
  eexists. split; [reflexivity |].
  rewrite lookup_delete_ne by congruence. by rewrite lookup_delete_eq.
Qed.

End PatchOutcomes.


Lemma patch_leaves_no_temporary_witness :
  is_Some (exported !! "/data/voc")
  /\ exported !! "/data/vocx1.tmp" = None
  /\ (@patch _ _ failing_converter tt "/data/voc" "/data/vocx1.tmp"
        exported).1 !! "/data/vocx1.tmp" = None
  /\ (forall p, p <> "/data/voc" -> p <> "/data/vocx1.tmp" ->
        (@patch _ _ failing_converter tt "/data/voc" "/data/vocx1.tmp"
           exported).1 !! p = exported !! p).
Proof.
  assert (is_Some (exported !! "/data/voc")) as Hdir
    by (eexists; reflexivity).
  assert (exported !! "/data/vocx1.tmp" = None) as Hfresh by reflexivity.
  split; [exact Hdir |]. split; [exact Hfresh |].
  exact (@patch_leaves_no_temporary _ _ failing_converter tt
           "/data/voc" "/data/vocx1.tmp" exported Hdir Hfresh).
Defined.

Lemma patch_loses_save_dir_without_tmpdir_witness :
  is_Some (exported !! "/data/voc")
  /\ exported !! "/data/vocx1.tmp" = None
  /\ @convert _ _ vanishing_converter tt "/data/vocx1.tmp"
       (copymode "/data/voc" "/data/vocx1.tmp"
          (mkdtemp "/data/vocx1.tmp" exported))
     = (delete "/data/vocx1.tmp"
          (copymode "/data/voc" "/data/vocx1.tmp"
             (mkdtemp "/data/vocx1.tmp" exported)), Ok tt)
  /\ delete "/data/vocx1.tmp"
       (copymode "/data/voc" "/data/vocx1.tmp"
          (mkdtemp "/data/vocx1.tmp" exported)) !! "/data/vocx1.tmp" = None
  /\ exists fs',
       @patch _ _ vanishing_converter tt "/data/voc" "/data/vocx1.tmp"
         exported = (fs', Raise FileNotFoundError)
       /\ fs' !! "/data/voc" = None.
Proof.
  assert (is_Some (exported !! "/data/voc")) as Hdir
    by (eexists; reflexivity).
  assert (exported !! "/data/vocx1.tmp" = None) as Hfresh by reflexivity.
  assert (delete "/data/vocx1.tmp"
            (copymode "/data/voc" "/data/vocx1.tmp"
               (mkdtemp "/data/vocx1.tmp" exported)) !! "/data/vocx1.tmp"
          = None) as Htmp by apply lookup_delete_eq.
  split; [exact Hdir |]. split; [exact Hfresh |]. split; [reflexivity |].
  split; [exact Htmp |].
  exact (@patch_loses_save_dir_without_tmpdir _ _ vanishing_converter tt
           "/data/voc" "/data/vocx1.tmp" exported _ tt
           Hdir Hfresh eq_refl Htmp).
Defined.

(** ** The converter's image files *)

(** X19.  A converter that was constructed never picks an empty image
    extension: the constructor demands a non-empty default, and
    [_find_image_ext] returns the configured extension if there is a
    non-empty one; else the extension of the image (the item's image,
    or the image given) if that is not empty; else that default. *)
Theorem find_image_ext_nonempty {E P X} (DEFAULT_IMAGE_EXT : option string)
    (extr : Conv.extractor E P) (save_dir : string) (save_images : bool)
    (image_ext default_image_ext : option string)
    (save_dataset_meta : bool) (ctx : option X)
    (self : Conv.Converter E P X) (item : Conv.item_or_image) :
  Conv.__init__ DEFAULT_IMAGE_EXT extr save_dir save_images image_ext
    default_image_ext save_dataset_meta ctx = Ok self ->
  let src_ext :=
    match item with
    | Conv.OfItem it => Conv.ext <$> Conv.image it
    | Conv.OfImage img => Some (Conv.ext img)
    end in
  Conv._find_image_ext self item <> ""
  /\ Conv._default_image_ext self <> ""
  /\ (forall e, image_ext = Some e -> e <> "" ->
        Conv._find_image_ext self item = e)
  /\ (Conv.truthy image_ext = false ->
      forall e, src_ext = Some e -> e <> "" ->
        Conv._find_image_ext self item = e)
  /\ (Conv.truthy image_ext = false ->
      Conv.truthy src_ext = false ->
      Conv._find_image_ext self item = Conv._default_image_ext self).
Proof.
  unfold Conv.__init__.
  destruct (Conv.truthy (Conv.py_or default_image_ext DEFAULT_IMAGE_EXT))
    eqn:Hdef; [| discriminate].
  intros [= <-].
  set (src_ext := match item with
                  | Conv.OfItem it => Conv.ext <$> Conv.image it
                  | Conv.OfImage img => Some (Conv.ext img)
                  end).
  assert (Conv.or_else (Conv.py_or default_image_ext DEFAULT_IMAGE_EXT) ""
          <> "") as Hne.
  { unfold Conv.truthy in Hdef. unfold Conv.or_else.
    destruct (Conv.py_or default_image_ext DEFAULT_IMAGE_EXT) as [s |];
      [| discriminate].
    destruct (bool_decide (s = "")) eqn:Hs; [discriminate |].
    by apply bool_decide_eq_false in Hs. }
  unfold Conv._find_image_ext. cbn [Conv._image_ext Conv._default_image_ext].
  assert (match item with
          | Conv.OfItem it =>
              match Conv.image it with
              | Some img => Some (Conv.ext img)
              | None => None
              end
          | Conv.OfImage img => Some (Conv.ext img)
          end = src_ext) as ->.
  { subst src_ext. destruct item as [it | img]; [| done].
    by destruct (Conv.image it). }
  clearbody src_ext.
  set (default := Conv.or_else _ "") in *. clearbody default.
  unfold Conv.or_else, Conv.py_or, Conv.truthy.
  split; [| split; [exact Hne | split; [| split]]].
  - destruct image_ext as [e |], src_ext as [s |]; cbn [negb];
      repeat case_bool_decide; cbn [negb]; repeat case_bool_decide;
      congruence.
  - intros e -> He. rewrite (bool_decide_eq_false_2 (e = "")) by exact He.
    cbn [negb]. by rewrite (bool_decide_eq_false_2 (e = "")) by exact He.
  - intros Himg e -> He. rewrite Himg.
    by rewrite (bool_decide_eq_false_2 (e = "")) by exact He.
  - intros Himg Hsrc. rewrite Himg.
    destruct src_ext as [s |]; [| done].
    destruct (bool_decide (s = "")); [done | discriminate].
Qed.

Lemma find_image_ext_nonempty_witness :
  Conv.__init__ (Some ".jpg") (Conv.Plain tt) "/data/voc" true None None
    false None = Ok jpeg_converter
  /\ Conv._find_image_ext jpeg_converter (Conv.OfItem png_item) <> ""
  /\ Conv._default_image_ext jpeg_converter <> ""
  /\ (forall e, None = Some e -> e <> "" ->
        Conv._find_image_ext jpeg_converter (Conv.OfItem png_item) = e)
  /\ (Conv.truthy None = false ->
      forall e, Conv.ext <$> Conv.image png_item = Some e -> e <> "" ->
        Conv._find_image_ext jpeg_converter (Conv.OfItem png_item) = e)
  /\ (Conv.truthy None = false ->
      Conv.truthy (Conv.ext <$> Conv.image png_item) = false ->
      Conv._find_image_ext jpeg_converter (Conv.OfItem png_item)
      = Conv._default_image_ext jpeg_converter).
Proof.
  split; [reflexivity |].
  exact (find_image_ext_nonempty (Some ".jpg") (Conv.Plain tt) "/data/voc"
           true None None false None jpeg_converter
           (Conv.OfItem png_item) eq_refl).
Defined.

Section SaveImage.
Context {E P X : Type}.
Variable abspath : string -> string.
Variable self : Conv.Converter E P X.

Lemma starts_with_sep_app (s t : string) :
  s <> "" -> Conv.starts_with_sep (s +:+ t) = Conv.starts_with_sep s.
Proof. destruct s as [| c s]; [congruence | reflexivity]. Qed.

Lemma join_relative (a b : string) :
  Conv.starts_with_sep b = false ->
  Conv.join a b
  = a +:+ (if bool_decide (a = "") || Conv.ends_with_sep a then "" else "/")
      +:+ b.
Proof.
  intros Hb. unfold Conv.join. rewrite Hb.
  destruct (bool_decide (a = "") || Conv.ends_with_sep a); reflexivity.
Qed.

Lemma join_absolute (a b : string) :
  Conv.starts_with_sep b = true -> Conv.join a b = b.
Proof. intros Hb. unfold Conv.join. by rewrite Hb. Qed.

Lemma item_filename_relative (item : Conv.DatasetItem)
    (name subdir : option string) :
  Conv.or_else name (Conv.id item) <> "" ->
  Conv.starts_with_sep (Conv.or_else name (Conv.id item)) = false ->
  Conv.starts_with_sep (Conv.or_else subdir "") = false ->
  Conv._make_item_filename self item name subdir <> ""
  /\ Conv.starts_with_sep (Conv._make_item_filename self item name subdir)
     = false.
Proof.
  intros Hne Hname Hsub. unfold Conv._make_item_filename.
  rewrite join_relative by exact Hname.
  destruct (Conv.or_else subdir "") as [| c s].
  - cbn [bool_decide orb]. change ("" +:+ ?x) with x.
    rewrite (bool_decide_eq_true_2 ("" = "")) by reflexivity.
    cbn [orb]. change ("" +:+ ?x) with x. auto.
  - split; [discriminate |]. exact Hsub.
Qed.

(** X20.  An item with image data, saved without an explicit path or
    base directory under a relative name, goes below [save_dir]: the
    path given to [image.save] is [abspath] of [save_dir], a separator
    if needed, the subdirectory and name, and the extension
    [_find_image_ext] picks. *)
Theorem save_image_below_save_dir (item : Conv.DatasetItem)
    (img : Conv.Image) (path name subdir basedir : option string) :
  Conv.image item = Some img ->
  Conv.has_data img = true ->
  Conv.truthy path = false ->
  Conv.truthy basedir = false ->
  Conv.or_else name (Conv.id item) <> "" ->
  Conv.starts_with_sep (Conv.or_else name (Conv.id item)) = false ->
  Conv.starts_with_sep (Conv.or_else subdir "") = false ->
  exists sep,
    Conv._save_image abspath self item path name subdir basedir
    = Ok (Some (abspath
                  (Conv._save_dir self +:+ sep
                   +:+ Conv._make_item_filename self item name subdir
                   +:+ Conv._find_image_ext self (Conv.OfItem item))))
    /\ (sep = "" \/ sep = "/").
Proof.
  intros Himg Hdata Hpath Hbase Hne Hname Hsub.
  destruct (item_filename_relative item name subdir Hne Hname Hsub)
    as (Hfne & Hfrel).
  exists (if bool_decide (Conv._save_dir self = "")
             || Conv.ends_with_sep (Conv._save_dir self) then "" else "/").
  split; [| destruct (_ || _); auto].
  unfold Conv._save_image. rewrite Hpath, andb_false_r. cbn [negb].
  rewrite Himg, Hdata. cbn [negb].
  assert (Conv.or_else basedir (Conv._save_dir self) = Conv._save_dir self)
    as ->.
  { unfold Conv.truthy in Hbase. unfold Conv.or_else.
    destruct basedir as [b |]; [| reflexivity].
    destruct (bool_decide (b = "")); [reflexivity | discriminate]. }
  assert (forall d, Conv.or_else path d = d) as ->.
  { intros d. unfold Conv.truthy in Hpath. unfold Conv.or_else.
    destruct path as [b |]; [| reflexivity].
    destruct (bool_decide (b = "")); [reflexivity | discriminate]. }
  unfold Conv._make_image_filename.
  rewrite join_relative by (rewrite starts_with_sep_app; assumption).
  reflexivity.
Qed.

(** X21.  A name (or, without a name, an item id) that is an absolute
    path takes the image out of [save_dir]: the subdirectory, the base
    directory and [save_dir] are all dropped by [osp.join], and the
    image is saved at the name itself with the extension appended. *)
Theorem save_image_absolute_name_escapes (item : Conv.DatasetItem)
    (img : Conv.Image) (path name subdir basedir : option string) :
  Conv.image item = Some img ->
  Conv.has_data img = true ->
  Conv.truthy path = false ->
  Conv.starts_with_sep (Conv.or_else name (Conv.id item)) = true ->
  Conv._save_image abspath self item path name subdir basedir
  = Ok (Some (abspath
                (Conv.or_else name (Conv.id item)
                 +:+ Conv._find_image_ext self (Conv.OfItem item)))).
Proof.
  intros Himg Hdata Hpath Habs.
  unfold Conv._save_image. rewrite Hpath, andb_false_r. cbn [negb].
  rewrite Himg, Hdata. cbn [negb].
  assert (forall d, Conv.or_else path d = d) as ->.
  { intros d. unfold Conv.truthy in Hpath. unfold Conv.or_else.
    destruct path as [b |]; [| reflexivity].
    destruct (bool_decide (b = "")); [reflexivity | discriminate]. }
  unfold Conv._make_image_filename, Conv._make_item_filename.
  rewrite (join_absolute _ _ Habs).
  rewrite join_absolute; [reflexivity |].
  rewrite starts_with_sep_app; [exact Habs |].
  intros E0. rewrite E0 in Habs. discriminate.
Qed.

End SaveImage.

Lemma save_image_below_save_dir_witness :
  Conv.image png_item = Some {| Conv.ext := ".png"; Conv.has_data := true |}
  /\ Conv.has_data {| Conv.ext := ".png"; Conv.has_data := true |} = true
  /\ Conv.truthy None = false
  /\ Conv.truthy None = false
  /\ Conv.or_else None (Conv.id png_item) <> ""
  /\ Conv.starts_with_sep (Conv.or_else None (Conv.id png_item)) = false
  /\ Conv.starts_with_sep (Conv.or_else (Some "images") "") = false
  /\ exists sep,
       Conv._save_image (fun p => p) jpeg_converter png_item None None
         (Some "images") None
       = Ok (Some (Conv._save_dir jpeg_converter +:+ sep
                   +:+ Conv._make_item_filename jpeg_converter png_item
                         None (Some "images")
                   +:+ Conv._find_image_ext jpeg_converter
                         (Conv.OfItem png_item)))
       /\ (sep = "" \/ sep = "/").
Proof.
  assert (Conv.or_else None (Conv.id png_item) <> "") as Hne
    by discriminate.
  split; [reflexivity |]. split; [reflexivity |]. split; [reflexivity |].
  split; [reflexivity |]. split; [exact Hne |]. split; [reflexivity |].
  split; [reflexivity |].
  exact (save_image_below_save_dir (fun p => p) jpeg_converter png_item
           {| Conv.ext := ".png"; Conv.has_data := true |}
           None None (Some "images") None
           eq_refl eq_refl eq_refl eq_refl Hne eq_refl eq_refl).
Defined.

Lemma save_image_absolute_name_escapes_witness :
  Conv.image rooted_item
  = Some {| Conv.ext := ".png"; Conv.has_data := true |}
  /\ Conv.has_data {| Conv.ext := ".png"; Conv.has_data := true |} = true
  /\ Conv.truthy None = false
  /\ Conv.starts_with_sep (Conv.or_else None (Conv.id rooted_item)) = true
  /\ Conv._save_image (fun p => p) jpeg_converter rooted_item None None
       (Some "images") None
     = Ok (Some (Conv.or_else None (Conv.id rooted_item)
                 +:+ Conv._find_image_ext jpeg_converter
                       (Conv.OfItem rooted_item))).
Proof.
  split; [reflexivity |]. split; [reflexivity |]. split; [reflexivity |].
  split; [reflexivity |].
  exact (save_image_absolute_name_escapes (fun p => p) jpeg_converter
           rooted_item {| Conv.ext := ".png"; Conv.has_data := true |}
           None None (Some "images") None
           eq_refl eq_refl eq_refl eq_refl).
Defined.

(** The two paths, spelled out. *)
Example save_image_paths :
  Conv._save_image (fun p => p) jpeg_converter png_item None None
    (Some "images") None
  = Ok (Some "/data/voc/images/train/001.png")
  /\ Conv._save_image (fun p => p) jpeg_converter rooted_item None None
       (Some "images") None
     = Ok (Some "/etc/001.png").
Proof. split; reflexivity. Qed.


(** ** The categories of runs of different sizes *)

Section CategoryReuse.
Context `{U : Utils}.

Lemma sample_loop_congruent (self1 self2 : FractalImageGenerator)
    (base_h base_w : Z) (fuel : nat) (st : locals) :
  _threshold self1 = _threshold self2 ->
  _iterations self1 = _iterations self2 ->
  _num_of_points self1 = _num_of_points self2 ->
  sample_loop fuel self1 base_h base_w st
  = sample_loop fuel self2 base_h base_w st.
Proof.
  intros Hthr Hit Hnum. revert st.
  induction fuel as [| fuel IH]; intros st; [reflexivity |].
  cbn [sample_loop]. unfold loop_guard, sample_candidate.
  rewrite Hthr, Hit, Hnum.
  destruct (Qltb (l_pixels st) (_threshold self2)
            && (l_i st <? _iterations self2)); [| reflexivity].
  destruct (randint 2 7 (l_rng st)) as [param_size r0].
  destruct (0 <=? param_size); [| reflexivity].
  destruct (fill_params (Z.to_nat param_size) r0 (1 # 100000)%Q)
    as [[[rows s] r1] | e]; [| reflexivity].
  cbn [mbind result_bind bind].
  destruct (_generate_image r1 (normalize s rows) (_num_of_points self2)
              base_h base_w true None) as [img r2].
  destruct (negb (base_h * base_w =? 0)); [| reflexivity].
  cbn [mbind result_bind bind]. apply IH.
Qed.

Lemma mapM_take {A B} (f : A -> result B) (l : list A) (n : nat)
    (ys : list B) :
  mapM f l = Ok ys -> mapM f (take n l) = Ok (take n ys).
Proof.
  revert n ys. induction l as [| x l IH]; intros n ys.
  - intros [= <-]. by rewrite !take_nil.
  - cbn [mapM]. destruct (f x) as [y | e] eqn:Hy; [| discriminate].
    cbn [mbind result_bind bind].
    destruct (mapM f l) as [zs | e]; [| discriminate].
    cbn. intros [= <-]. destruct n as [| n]; [reflexivity |].
    cbn [take mapM]. rewrite Hy. cbn [mbind result_bind bind].
    rewrite (IH n zs eq_refl). reflexivity.
Qed.

Lemma mapM_pointwise {A B} (f g : A -> result B) (l : list A) :
  (forall x, f x = g x) -> mapM f l = mapM g l.
Proof.
  intros Hfg. induction l as [| x l IH]; [reflexivity |].
  cbn [mapM]. by rewrite Hfg, IH.
Qed.

(** X22.  The parameters of category k depend on k alone, not on the
    size of the run: of two generators with the sampler's settings in
    common, the one that plans fewer categories samples exactly the
    first categories of the other. *)
Theorem categories_are_reused (self1 self2 : FractalImageGenerator)
    (params2 : list (list (list Q))) :
  _threshold self1 = _threshold self2 ->
  _iterations self1 = _iterations self2 ->
  _num_of_points self1 = _num_of_points self2 ->
  _categories self1 <= _categories self2 ->
  generate_categories self2 = Ok params2 ->
  generate_categories self1
  = Ok (take (Z.to_nat (_categories self1)) params2).
Proof.
  intros Hthr Hit Hnum Hcat. unfold generate_categories.
  intros H2.
  apply (mapM_take _ _ (Z.to_nat (_categories self1))) in H2.
  rewrite take_seq, Nat.min_l in H2 by lia.
  rewrite <- H2. apply mapM_pointwise. intros i.
  unfold _generate_category.
  rewrite Hit at 1.
  by rewrite (sample_loop_congruent self1 self2 512 512 _ _ Hthr Hit Hnum).
Qed.

End CategoryReuse.

Lemma categories_are_reused_witness :
  exists params2,
    _threshold fifty = _threshold two_hundred
    /\ _iterations fifty = _iterations two_hundred
    /\ _num_of_points fifty = _num_of_points two_hundred
    /\ _categories fifty <= _categories two_hundred
    /\ _categories fifty = 1 /\ _categories two_hundred = 3
    /\ @generate_categories Sparse.random Sparse.utils two_hundred
       = Ok params2
    /\ @generate_categories Sparse.random Sparse.utils fifty
       = Ok (take (Z.to_nat (_categories fifty)) params2).
Proof.
  assert (_categories fifty <= _categories two_hundred) as Hcat
    by (cbn; lia).
  destruct (@generate_categories_ok Sparse.random Sparse.utils two_hundred)
    as (params2 & Hok & _); [reflexivity | reflexivity |].
  exists params2.
  split; [reflexivity |]. split; [reflexivity |]. split; [reflexivity |].
  split; [exact Hcat |]. split; [reflexivity |]. split; [reflexivity |].
  split; [exact Hok |].
  exact (@categories_are_reused Sparse.random Sparse.utils fifty two_hundred
           params2 eq_refl eq_refl eq_refl Hcat Hok).
Defined.
